(** * MoveInSync: the Movi assistant client and its confirmation protocol

    A shallow embedding of the TypeScript sources of the chat assistant
    ([FleetChatAssistant]), of the voice hook in its two copies
    ([useVoiceInteraction] and [useVoiceChat]) and of the [ProgressBar]
    component, together with a model of the four-stage orchestration
    pipeline whose code lives in the Python backend.  The pages around the
    assistant ([BusDashboard], [StopsPaths], [Analytics]) and the
    components [StatusBadge] and [NotificationCenter] follow.

    Conventions.
    - A JavaScript string is a [string]; its characters are read as code
      units in the range 0..255.
    - A React state cell is a record field; [setX v] is a record update and
      the functional form [setX (prev => f prev)] applies [f] to the field.
    - An [async] handler is cut at its [await]s: every piece between two
      awaits is a function of the component state, and what the network
      answers is an argument. *)

From Stdlib Require Import ZArith Bool Ascii String List Lia.
From Stdlib Require Import Floats.SpecFloat.
From stdpp Require Import base option list strings gmap.

Local Open Scope stdpp_scope.
Local Set Warnings "-register-all".

(* ===================================================================== *)
(** * JavaScript strings                                                   *)
(* ===================================================================== *)

Module Js.

(** [WhiteSpace] and [LineTerminator] code units below 256: TAB, LF, VT,
FF, CR, SP and NBSP.  These are what [String.prototype.trim] strips. *)
Definition is_white_space (c : ascii) : bool :=
match c with
| "009" | "010" | "011" | "012" | "013" | " " | "160" => true
| _ => false
end%char.

Fixpoint trimStart (s : string) : string :=
match s with
| String c s' => if is_white_space c then trimStart s' else s
| EmptyString => EmptyString
end.

Definition trimEnd (s : string) : string :=
String.rev (trimStart (String.rev s)).

(** [s.trim()] *)
Definition trim (s : string) : string := trimEnd (trimStart s).

(** [s.startsWith(p)] *)
Fixpoint startsWith (s p : string) {struct p} : bool :=
match p, s with
| EmptyString, _ => true
| String _ _, EmptyString => false
| String a p', String b s' => if Ascii.eqb a b then startsWith s' p' else false
end.

(** [s.includes(sub)]: [sub] starts at some position of [s]. *)
Fixpoint includes (s sub : string) : bool :=
startsWith s sub ||
match s with
| EmptyString => false
| String _ s' => includes s' sub
end.

(** [s.split(sep)] for a non-empty separator: the pieces between the
occurrences of [sep], found from the left and not overlapping.  [skip]
counts the characters of a separator that was just matched and that
are still to be dropped; [cur] is the piece being read, reversed. *)
Fixpoint split_go (sep : string) (skip : nat) (cur : string) (s : string)
: list string :=
match s with
| EmptyString => [String.rev cur]
| String c s' =>
  match skip with
  | S k => split_go sep k cur s'
  | O =>
      if startsWith s sep
      then String.rev cur :: split_go sep (String.length sep - 1) EmptyString s'
      else split_go sep 0 (String c cur) s'
  end
end.

(** With the empty separator [split] cuts between all code units. *)
Fixpoint split_chars (s : string) : list string :=
match s with
| EmptyString => []
| String c s' => String c EmptyString :: split_chars s'
end.

Definition split (s sep : string) : list string :=
match sep with
| EmptyString => split_chars s
| _ => split_go sep 0 EmptyString s
end.

(** [parts.join(sep)] *)
Fixpoint join (parts : list string) (sep : string) : string :=
match parts with
| [] => EmptyString
| [p] => p
| p :: rest => p +:+ sep +:+ join rest sep
end.

(** Truthiness of a string: [!s] is [true] exactly for the empty string. *)
Definition truthy_string (s : string) : bool :=
match s with EmptyString => false | _ => true end.

(** [!!o] for a cell of type [string | null]. *)
Definition truthy_opt (o : option string) : bool :=
match o with Some s => truthy_string s | None => false end.

(** ** Values of type [any]

What [JSON.parse] hands to the handlers.  Numbers are IEEE 754
binary64 values. *)
Inductive value : Type :=
| Undefined
| Null
| Bool (b : bool)
| Num (x : spec_float)
| Str (s : string)
| Arr (items : list value)
| Obj (fields : list (string * value)).

Fixpoint assoc (fields : list (string * value)) (k : string) : option value :=
match fields with
| [] => None
| (k', v) :: rest => if String.eqb k' k then Some v else assoc rest k
end.

(** [v.k] for a property name [k] that no prototype defines ([type],
[content], [payload], [message], [response], ...).  Reading a property
of [undefined] or [null] throws a [TypeError]: [None]. *)
Definition get (v : value) (k : string) : option value :=
match v with
| Undefined | Null => None
| Obj fields => Some (default Undefined (assoc fields k))
| Bool _ | Num _ | Str _ | Arr _ => Some Undefined
end.

(** [v === "lit"] *)
Definition is_str (v : value) (lit : string) : bool :=
match v with Str s => String.eqb s lit | _ => false end.

(** [!!v] *)
Definition truthy (v : value) : bool :=
match v with
| Undefined | Null => false
| Bool b => b
| Num (S754_zero _) | Num S754_nan => false
| Num _ => true
| Str s => truthy_string s
| Arr _ | Obj _ => true
end.

(** [ToString]: what [acc += v] appends for [v].  An object is converted
through its [toString] and [valueOf]: a value that comes from [JSON.parse]
inherits both from [Object.prototype], unless it has a key [toString] of
its own, which is never a function; then no method gives a primitive and
the conversion throws a [TypeError] ([None]).  A key [valueOf] changes
nothing: [Object.prototype.toString] still answers.  An array joins the
texts of its items with commas, [null] and [undefined] counting as empty.
Only the formatting of a finite number is left open. *)
Section ToString.
Context (number_to_string : spec_float → string).

Fixpoint to_string (v : value) : option string :=
match v with
| Undefined => Some "undefined"
| Null => Some "null"
| Bool true => Some "true"
| Bool false => Some "false"
| Num x => Some (number_to_string x)
| Str s => Some s
| Arr items =>
(fix texts (items : list value) : option (list string) :=
 match items with
 | [] => Some []
 | item :: rest =>
     match match item with
           | Undefined | Null => Some EmptyString
           | _ => to_string item
           end with
     | Some text =>
         match texts rest with
         | Some others => Some (text :: others)
         | None => None
         end
     | None => None
     end
 end) items ≫= λ parts, Some (join parts ",")
| Obj fields =>
match assoc fields "toString" with
| Some _ => None
| None => Some "[object Object]"
end
end.
End ToString.

End Js.

(* ===================================================================== *)
(** * What the handlers do to the outside world                            *)
(* ===================================================================== *)

Module Net.

(** Body of [POST ${API_URL}/movi/chat]; [image_base64] is absent from
the JSON text when it is [None]. *)
Record ChatBody := {
message : string;
session_id : string;
context_page : string;
image_base64 : option string;
}.

(** Frames written to the voice socket. *)
Inductive Frame :=
| FrameInit (session_id context_page : string)
| FrameUpdateContext (context_page : string)
| FrameAudio (data : string)
| FrameClose.

Inductive Effect :=
| PostChat (body : ChatBody)          (* fetch(`${API_URL}/movi/chat`, POST) *)
| PostTts (text : Js.value)           (* fetch(`${API_URL}/movi/voice/tts`, POST) *)
| NewWebSocket                        (* new WebSocket(API_URL.replace('http','ws') + '/movi/voice') *)
| WsSend (frame : Frame)
| WsCloseCall
| PlayAudio (audio : Js.value)
| ConsoleError (label : string)
| ConsoleWarn (label : string)
| ConsoleLog (label : string).

(** How a response body ends when it is read to its end. *)
Inductive ReadEnd := StreamDone | ReadThrows.

(** The decoded chunks that [reader.read()] yields, in order. *)
Record Body := { chunks : list string; ending : ReadEnd }.

(** [body = None]: [response.body] is null, so there is no reader. *)
Record Response := { ok : bool; body : option Body }.

Inductive FetchResult :=
| NetworkError                        (* the promise of [fetch] rejects *)
| Responded (r : Response).

(** [await response.json()] *)
Definition json (JSON_parse : string → option Js.value) (r : Response)
: option Js.value :=
match body r with
| None => JSON_parse EmptyString
| Some b =>
  match ending b with
  | StreamDone => JSON_parse (Js.join (chunks b) EmptyString)
  | ReadThrows => None
  end
end.

Definition is_post_chat (e : Effect) : option ChatBody :=
match e with PostChat b => Some b | _ => None end.

(** The chat requests among the effects, in the order they were sent. *)
Definition chat_requests (es : list Effect) : list ChatBody :=
omap is_post_chat es.

End Net.


(** The two speakers of a conversation: ["assistant" | "user"]. *)
Inductive Role := assistant | user.

(* ===================================================================== *)
(** * The voice hook: [useVoiceInteraction] and [useVoiceChat]             *)
(* ===================================================================== *)

Module Voice.
Import Net.

(** The repository holds the hook twice.  [useVoiceChat] is the hook that
[MoviAssistant] calls.  [useVoiceInteraction], the hook that
[FleetChatAssistant] calls, is the same code with the state cells and the
refs renamed and with messages to the console added; its socket handler
knows fewer kinds of frames, and its [return] statement still lists the
cells under the names they have in [useVoiceChat] (see [hook_return]).
The definitions below follow [useVoiceInteraction.ts], also in the names
of the cells, and take the hook as an argument where the two files
differ. *)
Inductive Hook := useVoiceChat | useVoiceInteraction.

(** A call of [console.log], [console.warn] or [console.error] that only
[useVoiceInteraction] makes. *)
Definition console (h : Hook) (e : Effect) : list Effect :=
match h with
| useVoiceInteraction => [e]
| useVoiceChat => []
end.

Record VoiceMessage := {
type : Role;
text : Js.value;
timestamp : Z;
audio : option Js.value;
}.

Inductive ReadyState := CONNECTING | OPEN | CLOSING | CLOSED.

(** A [WebSocket] object.  Its [onopen] handler closes over the
[sessionId] and [contextPage] of the render that created it. *)
Record Socket := {
readyState : ReadyState;
init_session_id : string;
init_context_page : string;
}.

(** The state cells and refs of the hook.  [effect_deps] holds the
dependencies [sessionId, contextPage] of the last run of the mount
effect ([None] before the first render) and [cleanup_pending] tells
whether that run returned its cleanup function. *)
Record State := {
recordingActive : bool;
processingActive : bool;
speakingActive : bool;
voiceMessages : list VoiceMessage;
needsConfirmation : bool;
consequenceDetails : Js.value;
websocketRef : option Socket;
activeAudioRef : option Js.value;
effect_deps : option (string * string);
cleanup_pending : bool;
}.

Definition initial : State := {|
recordingActive := false;
processingActive := false;
speakingActive := false;
voiceMessages := [];
needsConfirmation := false;
consequenceDetails := Js.Null;
websocketRef := None;
activeAudioRef := None;
effect_deps := None;
cleanup_pending := false;
|}.

Definition setProcessingActive (b : bool) (st : State) : State :=
{| recordingActive := recordingActive st; processingActive := b;
 speakingActive := speakingActive st; voiceMessages := voiceMessages st;
 needsConfirmation := needsConfirmation st;
 consequenceDetails := consequenceDetails st;
 websocketRef := websocketRef st; activeAudioRef := activeAudioRef st;
 effect_deps := effect_deps st; cleanup_pending := cleanup_pending st |}.

Definition setSpeakingActive (b : bool) (st : State) : State :=
{| recordingActive := recordingActive st; processingActive := processingActive st;
 speakingActive := b; voiceMessages := voiceMessages st;
 needsConfirmation := needsConfirmation st;
 consequenceDetails := consequenceDetails st;
 websocketRef := websocketRef st; activeAudioRef := activeAudioRef st;
 effect_deps := effect_deps st; cleanup_pending := cleanup_pending st |}.

(** [setVoiceMessages(prev => [...prev, m])] *)
Definition pushVoiceMessage (m : VoiceMessage) (st : State) : State :=
{| recordingActive := recordingActive st; processingActive := processingActive st;
 speakingActive := speakingActive st; voiceMessages := voiceMessages st ++ [m];
 needsConfirmation := needsConfirmation st;
 consequenceDetails := consequenceDetails st;
 websocketRef := websocketRef st; activeAudioRef := activeAudioRef st;
 effect_deps := effect_deps st; cleanup_pending := cleanup_pending st |}.

(** [setNeedsConfirmation(b); setConsequenceDetails(v)] *)
Definition setConfirmation (b : bool) (v : Js.value) (st : State) : State :=
{| recordingActive := recordingActive st; processingActive := processingActive st;
 speakingActive := speakingActive st; voiceMessages := voiceMessages st;
 needsConfirmation := b; consequenceDetails := v;
 websocketRef := websocketRef st; activeAudioRef := activeAudioRef st;
 effect_deps := effect_deps st; cleanup_pending := cleanup_pending st |}.

Definition setWebsocketRef (w : option Socket) (st : State) : State :=
{| recordingActive := recordingActive st; processingActive := processingActive st;
 speakingActive := speakingActive st; voiceMessages := voiceMessages st;
 needsConfirmation := needsConfirmation st;
 consequenceDetails := consequenceDetails st;
 websocketRef := w; activeAudioRef := activeAudioRef st;
 effect_deps := effect_deps st; cleanup_pending := cleanup_pending st |}.

Definition setActiveAudioRef (a : option Js.value) (st : State) : State :=
{| recordingActive := recordingActive st; processingActive := processingActive st;
 speakingActive := speakingActive st; voiceMessages := voiceMessages st;
 needsConfirmation := needsConfirmation st;
 consequenceDetails := consequenceDetails st;
 websocketRef := websocketRef st; activeAudioRef := a;
 effect_deps := effect_deps st; cleanup_pending := cleanup_pending st |}.

Definition setEffectRun (deps : string * string) (cleanup : bool) (st : State) : State :=
{| recordingActive := recordingActive st; processingActive := processingActive st;
 speakingActive := speakingActive st; voiceMessages := voiceMessages st;
 needsConfirmation := needsConfirmation st;
 consequenceDetails := consequenceDetails st;
 websocketRef := websocketRef st; activeAudioRef := activeAudioRef st;
 effect_deps := Some deps; cleanup_pending := cleanup |}.

(** What the hook hands to the component.  [isLoading] is the alias that
[useVoiceChat] adds for [isProcessing]. *)
Record Returned := {
isRecording : bool;
isProcessing : bool;
isLoading : bool;
isSpeaking : bool;
messages : list VoiceMessage;
requiresConfirmation : bool;
consequenceInfo : Js.value;
}.

(** The [return] statement: an object literal that lists [isRecording],
[isProcessing], [isSpeaking], [messages], [requiresConfirmation] and
[consequenceInfo] in shorthand.  In [useVoiceChat] these are the state
cells.  [useVoiceInteraction.ts] declares its cells as [recordingActive],
[processingActive], [speakingActive], [voiceMessages],
[needsConfirmation] and [consequenceDetails]; the six names of the
literal are declared nowhere in the file and are no globals of a browser,
so evaluating the literal throws a [ReferenceError] ([None]), in every
call of the hook. *)
Definition hook_return (h : Hook) (st : State) : option Returned :=
match h with
| useVoiceChat =>
  Some {| isRecording := recordingActive st;
          isProcessing := processingActive st;
          isLoading := processingActive st;
          isSpeaking := speakingActive st;
          messages := voiceMessages st;
          requiresConfirmation := needsConfirmation st;
          consequenceInfo := consequenceDetails st |}
| useVoiceInteraction => None
end.

(** [!sessionId || sessionId.trim() === ''] *)
Definition no_session (sessionId : string) : bool :=
negb (Js.truthy_string sessionId) || String.eqb (Js.trim sessionId) EmptyString.

(** [websocketRef.current && websocketRef.current.readyState === WebSocket.OPEN] *)
Definition socket_open (st : State) : bool :=
match websocketRef st with
| Some {| readyState := OPEN |} => true
| _ => false
end.

Definition connectWebSocket (h : Hook) (sessionId contextPage : string) (st : State)
: State * list Effect :=
if no_session sessionId
then (st, console h (ConsoleWarn "Cannot connect WebSocket without valid session ID"))
else (setWebsocketRef
      (Some {| readyState := CONNECTING;
               init_session_id := sessionId;
               init_context_page := contextPage |}) st,
    [NewWebSocket]).

(** [ws.onopen] of the socket held by the ref. *)
Definition onopen (h : Hook) (st : State) : State * list Effect :=
match websocketRef st with
| Some {| readyState := CONNECTING; init_session_id := sid; init_context_page := ctx |} =>
  (setWebsocketRef
     (Some {| readyState := OPEN; init_session_id := sid; init_context_page := ctx |}) st,
   console h (ConsoleLog "Voice WebSocket connected") ++ [WsSend (FrameInit sid ctx)])
| _ => (st, [])
end.

(** [ws.onclose]: the connection is gone. *)
Definition onclose (h : Hook) (st : State) : State * list Effect :=
match websocketRef st with
| Some sock =>
  (setWebsocketRef
     (Some {| readyState := CLOSED; init_session_id := init_session_id sock;
              init_context_page := init_context_page sock |}) st,
   console h (ConsoleLog "Voice WebSocket disconnected"))
| None => (st, [])
end.

Definition stopAudio (st : State) : State :=
match activeAudioRef st with
| Some _ => setSpeakingActive false (setActiveAudioRef None st)
| None => st
end.

Definition playAudio (base64Audio : Js.value) (st : State) : State * list Effect :=
(setActiveAudioRef (Some base64Audio) (stopAudio st), [PlayAudio base64Audio]).

(** The mount effect, dependencies [sessionId, contextPage].  The second
component tells whether the effect returned its cleanup. *)
Definition mountEffect (h : Hook) (sessionId contextPage : string) (st : State)
: State * bool * list Effect :=
if no_session sessionId
then (st, false,
    console h (ConsoleWarn "Session ID not ready, delaying WebSocket connection"))
else
let '(st', es) := connectWebSocket h sessionId contextPage st in
(st', true, console h (ConsoleLog "Initializing voice WebSocket with session") ++ es).

(** The cleanup the mount effect returns. *)
Definition mountCleanup (st : State) : State * list Effect :=
match websocketRef st with
| Some sock =>
  let sends :=
    match readyState sock with
    | OPEN => [WsSend FrameClose]
    | _ => []
    end in
  let after :=
    match readyState sock with
    | CLOSED => CLOSED
    | _ => CLOSING
    end in
  (stopAudio
     (setWebsocketRef
        (Some {| readyState := after; init_session_id := init_session_id sock;
                 init_context_page := init_context_page sock |}) st),
   sends ++ [WsCloseCall])
| None => (stopAudio st, [])
end.

(** The effect with dependency [contextPage]. *)
Definition contextEffect (contextPage : string) (st : State) : list Effect :=
if socket_open st then [WsSend (FrameUpdateContext contextPage)] else [].

(** The commit of a render with the given props: the effects whose
dependencies changed run, cleanups first, then the effect bodies in the
order of their declaration. *)
Definition commit (h : Hook) (sessionId contextPage : string) (st : State)
: State * list Effect :=
let mount_due :=
match effect_deps st with
| Some (sid, ctx) => negb (String.eqb sid sessionId && String.eqb ctx contextPage)
| None => true
end in
let context_due :=
match effect_deps st with
| Some (_, ctx) => negb (String.eqb ctx contextPage)
| None => true
end in
if mount_due then
let '(st1, es1) := if cleanup_pending st then mountCleanup st else (st, []) in
let '(st2, cleanup, es2) := mountEffect h sessionId contextPage st1 in
let st3 := setEffectRun (sessionId, contextPage) cleanup st2 in
(st3, es1 ++ es2 ++ (if context_due then contextEffect contextPage st3 else []))
else (st, []).

(** One render of the component that calls the hook.  When the hook
throws, the render throws: React commits nothing, no effect runs, and
the cells and refs stay as they are. *)
Definition render (h : Hook) (sessionId contextPage : string) (st : State)
: State * list Effect :=
match hook_return h st with
| Some _ => commit h sessionId contextPage st
| None => (st, [])
end.

(** [reader.onloadend] inside [mediaRecorder.onstop]: the recording goes
to the socket. *)
Definition recorderStopped (base64Audio : string) (st : State)
: State * list Effect :=
if socket_open st
then (setProcessingActive true st, [WsSend (FrameAudio base64Audio)])
else (st, []).

(** [setMessages(prev => f prev)] *)
Definition setVoiceMessages (f : list VoiceMessage → list VoiceMessage) (st : State)
: State :=
{| recordingActive := recordingActive st; processingActive := processingActive st;
 speakingActive := speakingActive st; voiceMessages := f (voiceMessages st);
 needsConfirmation := needsConfirmation st;
 consequenceDetails := consequenceDetails st;
 websocketRef := websocketRef st; activeAudioRef := activeAudioRef st;
 effect_deps := effect_deps st; cleanup_pending := cleanup_pending st |}.

(** The loop of [useVoiceChat] that looks for the last assistant message:
[for (let i = updated.length - 1; i >= 0; i--)
   if (updated[i].type === 'assistant') { lastAssistantIndex = i; break; }] *)
Definition lastAssistantIndex (updated : list VoiceMessage) : option nat :=
(fix from (n : nat) : option nat :=
 match n with
 | O => None
 | S i =>
     match updated !! i with
     | Some {| type := assistant |} => Some i
     | _ => from i
     end
 end) (length updated).

Definition spoken (now : Z) (text : Js.value) (audio : option Js.value) : VoiceMessage :=
{| type := assistant; text := text; timestamp := now; audio := audio |}.

(** The updater of a [text_chunk] frame in [useVoiceChat]: the text goes
into the last message if that is an assistant message, into a new
message otherwise. *)
Definition on_text_chunk (now : Z) (text : Js.value) (prev : list VoiceMessage)
: list VoiceMessage :=
match last prev with
| Some {| type := assistant |} =>
  alter (λ m, {| type := type m; text := text; timestamp := timestamp m;
                 audio := audio m |}) (length prev - 1) prev
| _ => prev ++ [spoken now text None]
end.

(** The updater of a [text_response] frame in [useVoiceChat]. *)
Definition on_text_response (now : Z) (text : Js.value) (prev : list VoiceMessage)
: list VoiceMessage :=
match lastAssistantIndex prev with
| Some i =>
  alter (λ m, {| type := type m; text := text; timestamp := now;
                 audio := audio m |}) i prev
| None => prev ++ [spoken now text None]
end.

(** The updater of an [audio_response] frame in [useVoiceChat].  The test
[updated[i].text !== data.text] only spares an assignment that would
change nothing. *)
Definition on_audio_response (now : Z) (text data : Js.value) (prev : list VoiceMessage)
: list VoiceMessage :=
match lastAssistantIndex prev with
| Some i =>
  alter (λ m, {| type := type m;
                 text := if Js.truthy text then text else Voice.text m;
                 timestamp := timestamp m; audio := Some data |}) i prev
| None =>
  prev ++ [spoken now (if Js.truthy text then text
                       else Js.Str "Audio response received") (Some data)]
end.

Section WithRuntime.
Context (JSON_parse : string → option Js.value).

(** [ws.onmessage].  The third component lists the arguments with which
[onError] is called.  An exception here is not caught: the handler
stops and the state stays as it is. *)
Definition onmessage (h : Hook) (now : Z) (raw : string) (st : State)
: State * list Effect * list Js.value :=
match JSON_parse raw with
| None => (st, [], [])
| Some data =>
match Js.get data "type" with
| None => (st, [], [])
| Some ty =>
  let field k := default Js.Undefined (Js.get data k) in
  let confirmation st' :=
    if Js.truthy (field "awaiting_confirmation") &&
       Js.truthy (field "consequence_info")
    then setConfirmation true (field "consequence_info") st'
    else st' in
  match h with
  | useVoiceInteraction =>
    if Js.is_str ty "ready" then (st, [ConsoleLog "Voice session ready"], [])
    else if Js.is_str ty "transcription" then
      (pushVoiceMessage
         {| type := user; text := field "text";
            timestamp := now; audio := None |} st,
       [ConsoleLog "Transcription:"], [])
    else if Js.is_str ty "audio_response" then
      let st1 := setProcessingActive false st in
      let st2 := pushVoiceMessage (spoken now (field "text") (Some (field "data"))) st1 in
      let st3 := confirmation st2 in
      let '(st4, es) := playAudio (field "data") st3 in
      (st4, ConsoleLog "Received audio response" :: es, [])
    else if Js.is_str ty "error" then
      (setProcessingActive false st,
       [ConsoleError "Voice error:"],
       [field "message"])
    else (st, [], [])
  | useVoiceChat =>
    if Js.is_str ty "ready" then (st, [], [])
    else if Js.is_str ty "transcription" then
      (pushVoiceMessage
         {| type := user; text := field "text";
            timestamp := now; audio := None |} st,
       [], [])
    else if Js.is_str ty "processing" then (setProcessingActive true st, [], [])
    else if Js.is_str ty "text_chunk" then
      (setVoiceMessages (on_text_chunk now (field "text")) st, [], [])
    else if Js.is_str ty "text_response" then
      (confirmation
         (setVoiceMessages (on_text_response now (field "text"))
            (setProcessingActive true st)),
       [], [])
    else if Js.is_str ty "audio_response" then
      let st1 := setProcessingActive false st in
      let st2 :=
        setVoiceMessages (on_audio_response now (field "text") (field "data")) st1 in
      let st3 := confirmation st2 in
      let '(st4, es) := playAudio (field "data") st3 in
      (st4, es, [])
    else if Js.is_str ty "error" then
      (setProcessingActive false st, [], [field "message"])
    else (st, [], [])
  end
end
end.

(** What the two requests of [sendConfirmation] are answered and the
readings of the clock. *)
Record ConfirmAnswers := {
chat_answer : FetchResult;
tts_answer : FetchResult;
t_reply : Z;
}.

(** The [catch] block of [sendConfirmation]. *)
Definition confirmation_failed (st : State) (es : list Effect)
: State * list Effect * list Js.value :=
(setProcessingActive false st,
es ++ [ConsoleError "Error sending confirmation:"],
[Js.Str "Failed to send confirmation"]).

Definition sendConfirmation (sessionId contextPage : string)
(now : Z) (confirmed : bool) (net : ConfirmAnswers) (st : State)
: State * list Effect * list Js.value :=
let confirmMessage := if confirmed then "yes" else "no" in
let st1 :=
setConfirmation false Js.Null
(pushVoiceMessage
 {| type := user; text := Js.Str confirmMessage;
    timestamp := now; audio := None |} st) in
if socket_open st1 then
let st2 := setProcessingActive true st1 in
let sent :=
[PostChat {| message := confirmMessage; session_id := sessionId;
           context_page := contextPage; image_base64 := None |}] in
match chat_answer net with
| NetworkError => confirmation_failed st2 sent
| Responded response =>
match data ← json JSON_parse response; Js.get data "response" with
| None => confirmation_failed st2 sent
| Some reply =>
    let sent := sent ++ [PostTts reply] in
    match tts_answer net with
    | NetworkError => confirmation_failed st2 sent
    | Responded ttsResponse =>
        match audioData ← json JSON_parse ttsResponse;
              Js.get audioData "audio_base64" with
        | None => confirmation_failed st2 sent
        | Some audio_base64 =>
            let st3 :=
              pushVoiceMessage
                {| type := assistant; text := reply;
                   timestamp := t_reply net;
                   audio := Some audio_base64 |} st2 in
            let '(st4, es) := playAudio audio_base64 st3 in
            (setProcessingActive false st4, sent ++ es, [])
        end
    end
end
end
else (st1, [], []).

(** ** The hook as a transition system *)
Inductive Event :=
| Render (sessionId contextPage : string)
| SocketOpened
| SocketClosed
| SocketMessage (now : Z) (raw : string)
| RecorderStopped (base64Audio : string)
| Confirmation (now : Z) (confirmed : bool) (net : ConfirmAnswers).

(** [sendConfirmation] closes over the props of the last render, which
are the dependencies of the last effect run; before the first
render the functions of the hook do not exist yet. *)
Definition step (h : Hook) (ev : Event) (st : State) : State * list Effect :=
match ev with
| Render sid ctx => render h sid ctx st
| SocketOpened => onopen h st
| SocketClosed => onclose h st
| SocketMessage now raw =>
if socket_open st then
let '(st', es, _) := onmessage h now raw st in (st', es)
else (st, [])
| RecorderStopped a => recorderStopped a st
| Confirmation now b net =>
match effect_deps st with
| Some (sid, ctx) =>
  let '(st', es, _) := sendConfirmation sid ctx now b net st in (st', es)
| None => (st, [])
end
end.

Fixpoint run (h : Hook) (evs : list Event) (st : State) : State * list Effect :=
match evs with
| [] => (st, [])
| ev :: rest =>
let '(st1, es1) := step h ev st in
let '(st2, es2) := run h rest st1 in
(st2, es1 ++ es2)
end.
End WithRuntime.

End Voice.

(* ===================================================================== *)
(** * What React renders                                                   *)
(* ===================================================================== *)

Module React.


End React.

(* ===================================================================== *)
(** * The chat component: [FleetChatAssistant]                             *)
(* ===================================================================== *)

Module Chat.
Import Net.

Record Message := {
role : Role;
content : string;
timestamp : Z;
image : option string;
}.

Record ConfirmationState := {
isVisible : bool;
alertMessage : Js.value;
consequenceDetails : Js.value;
}.

(** The closed dialog: not visible, empty alert message, [null] details. *)
Definition dialog_closed : ConfirmationState :=
{| isVisible := false; alertMessage := Js.Str EmptyString;
 consequenceDetails := Js.Null |}.

(** The state cells of the component.  [imageFileInput] is the [value] of
the file input behind [imageFileInputRef]; it is [None] while the ref
is null (the chat window is closed). *)
Record State := {
chatWindowOpen : bool;
chatMessages : list Message;
userInput : string;
isProcessing : bool;
chatSessionId : string;
currentContextPage : string;
confirmationState : ConfirmationState;
isVoiceActive : bool;
uploadedImage : option string;
imagePreviewUrl : option string;
imageFileInput : option string;
}.

Definition greeting (now : Z) : Message :=
{| role := assistant;
 content := "Hi! I'm Movi, your AI assistant. How can I help you today?";
 timestamp := now; image := None |}.

(** The values passed to [useState] and [useRef]. *)
Definition initial (now : Z) : State := {|
chatWindowOpen := false;
chatMessages := [greeting now];
userInput := EmptyString;
isProcessing := false;
chatSessionId := EmptyString;
currentContextPage := "unknown";
confirmationState := dialog_closed;
isVoiceActive := false;
uploadedImage := None;
imagePreviewUrl := None;
imageFileInput := None;
|}.

(** [setChatMessages(prev => f prev)] *)
Definition setChatMessages (f : list Message → list Message) (st : State) : State :=
{| chatWindowOpen := chatWindowOpen st; chatMessages := f (chatMessages st);
 userInput := userInput st; isProcessing := isProcessing st;
 chatSessionId := chatSessionId st; currentContextPage := currentContextPage st;
 confirmationState := confirmationState st; isVoiceActive := isVoiceActive st;
 uploadedImage := uploadedImage st; imagePreviewUrl := imagePreviewUrl st;
 imageFileInput := imageFileInput st |}.

Definition setUserInput (v : string) (st : State) : State :=
{| chatWindowOpen := chatWindowOpen st; chatMessages := chatMessages st;
 userInput := v; isProcessing := isProcessing st;
 chatSessionId := chatSessionId st; currentContextPage := currentContextPage st;
 confirmationState := confirmationState st; isVoiceActive := isVoiceActive st;
 uploadedImage := uploadedImage st; imagePreviewUrl := imagePreviewUrl st;
 imageFileInput := imageFileInput st |}.

Definition setIsProcessing (b : bool) (st : State) : State :=
{| chatWindowOpen := chatWindowOpen st; chatMessages := chatMessages st;
 userInput := userInput st; isProcessing := b;
 chatSessionId := chatSessionId st; currentContextPage := currentContextPage st;
 confirmationState := confirmationState st; isVoiceActive := isVoiceActive st;
 uploadedImage := uploadedImage st; imagePreviewUrl := imagePreviewUrl st;
 imageFileInput := imageFileInput st |}.

Definition setChatSessionId (v : string) (st : State) : State :=
{| chatWindowOpen := chatWindowOpen st; chatMessages := chatMessages st;
 userInput := userInput st; isProcessing := isProcessing st;
 chatSessionId := v; currentContextPage := currentContextPage st;
 confirmationState := confirmationState st; isVoiceActive := isVoiceActive st;
 uploadedImage := uploadedImage st; imagePreviewUrl := imagePreviewUrl st;
 imageFileInput := imageFileInput st |}.

Definition setCurrentContextPage (v : string) (st : State) : State :=
{| chatWindowOpen := chatWindowOpen st; chatMessages := chatMessages st;
 userInput := userInput st; isProcessing := isProcessing st;
 chatSessionId := chatSessionId st; currentContextPage := v;
 confirmationState := confirmationState st; isVoiceActive := isVoiceActive st;
 uploadedImage := uploadedImage st; imagePreviewUrl := imagePreviewUrl st;
 imageFileInput := imageFileInput st |}.

Definition setConfirmationState (c : ConfirmationState) (st : State) : State :=
{| chatWindowOpen := chatWindowOpen st; chatMessages := chatMessages st;
 userInput := userInput st; isProcessing := isProcessing st;
 chatSessionId := chatSessionId st; currentContextPage := currentContextPage st;
 confirmationState := c; isVoiceActive := isVoiceActive st;
 uploadedImage := uploadedImage st; imagePreviewUrl := imagePreviewUrl st;
 imageFileInput := imageFileInput st |}.


(** The file input is rendered while the chat window is open in text
mode; a freshly rendered input is empty. *)
Definition rendered_input (window voice : bool) (old : option string) : option string :=
if window && negb voice then Some (default EmptyString old) else None.

Definition setIsVoiceActive (b : bool) (st : State) : State :=
{| chatWindowOpen := chatWindowOpen st; chatMessages := chatMessages st;
 userInput := userInput st; isProcessing := isProcessing st;
 chatSessionId := chatSessionId st; currentContextPage := currentContextPage st;
 confirmationState := confirmationState st; isVoiceActive := b;
 uploadedImage := uploadedImage st; imagePreviewUrl := imagePreviewUrl st;
 imageFileInput := rendered_input (chatWindowOpen st) b (imageFileInput st) |}.

Definition setChatWindowOpen (b : bool) (st : State) : State :=
{| chatWindowOpen := b; chatMessages := chatMessages st;
 userInput := userInput st; isProcessing := isProcessing st;
 chatSessionId := chatSessionId st; currentContextPage := currentContextPage st;
 confirmationState := confirmationState st; isVoiceActive := isVoiceActive st;
 uploadedImage := uploadedImage st; imagePreviewUrl := imagePreviewUrl st;
 imageFileInput := rendered_input b (isVoiceActive st) (imageFileInput st) |}.

(** [setUploadedImage(v); setImagePreviewUrl(v)] *)
Definition setImage (v : option string) (st : State) : State :=
{| chatWindowOpen := chatWindowOpen st; chatMessages := chatMessages st;
 userInput := userInput st; isProcessing := isProcessing st;
 chatSessionId := chatSessionId st; currentContextPage := currentContextPage st;
 confirmationState := confirmationState st; isVoiceActive := isVoiceActive st;
 uploadedImage := v; imagePreviewUrl := v;
 imageFileInput := imageFileInput st |}.

(** [if (imageFileInputRef.current)]: the [value] of the input is set to
the empty string. *)
Definition resetFileInput (st : State) : State :=
{| chatWindowOpen := chatWindowOpen st; chatMessages := chatMessages st;
 userInput := userInput st; isProcessing := isProcessing st;
 chatSessionId := chatSessionId st; currentContextPage := currentContextPage st;
 confirmationState := confirmationState st; isVoiceActive := isVoiceActive st;
 uploadedImage := uploadedImage st; imagePreviewUrl := imagePreviewUrl st;
 imageFileInput := match imageFileInput st with
                   | Some _ => Some EmptyString
                   | None => None
                   end |}.

(** ** Mount effects *)

(** The page detected from [window.location.pathname]. *)
Definition detectedPage (currentPath : string) : string :=
if Js.includes currentPath "/buses" then "busDashboard"
else if Js.includes currentPath "/routes" then "routes"
else if Js.includes currentPath "/stops-paths" then "stops_paths"
else if Js.includes currentPath "/vehicles" then "vehicles"
else if Js.includes currentPath "/drivers" then "drivers"
else "unknown".

(** The two effects with an empty dependency list.  [stamp] and [rnd] are
the texts of [Date.now()] and of
[Math.random().toString(36).substring(7)]. *)
Definition mount (stamp rnd : string) (pathname : string) (st : State) : State :=
setCurrentContextPage (detectedPage pathname)
(setChatSessionId ("chat-session-" +:+ stamp +:+ "-" +:+ rnd) st).

(** [reader.onloadend] of [handleImageFile]. *)
Definition imageLoaded (base64String : string) (st : State) : State :=
setImage (Some base64String) st.

(** [removeImage] *)
Definition removeImage (st : State) : State :=
resetFileInput (setImage None st).

(** ** One activation of a handler

[ui] is the component state, [accumulatedResponse] the local variable
of the stream loop, [log] what the activation did to the outside world
so far.  [render_error] is raised when a state updater throws: React
runs updaters while rendering, outside every [try] of the handler.
Whether the JSX of the component can be rendered in the state reached
is told by [render_throws]. *)
Record Progress := {
ui : State;
accumulatedResponse : string;
log : list Effect;
render_error : bool;
}.

Definition start (st : State) (es : list Effect) : Progress :=
{| ui := st; accumulatedResponse := EmptyString; log := es; render_error := false |}.

Definition with_ui (f : State → State) (p : Progress) : Progress :=
{| ui := f (ui p); accumulatedResponse := accumulatedResponse p;
 log := log p; render_error := render_error p |}.

Definition emit (e : Effect) (p : Progress) : Progress :=
{| ui := ui p; accumulatedResponse := accumulatedResponse p;
 log := log p ++ [e]; render_error := render_error p |}.

Definition set_content (c : string) (m : Message) : Message :=
{| role := role m; content := c; timestamp := timestamp m; image := image m |}.

(** The updater of the token branch:
[const updatedMessages = [...prev];
 const lastMessage = updatedMessages[updatedMessages.length - 1];
 if (lastMessage.role === "assistant") lastMessage.content = acc;
 return updatedMessages;]
[None]: [prev] is empty, [lastMessage] is [undefined] and reading its
[role] throws. *)
Definition write_last (acc : string) (prev : list Message) : option (list Message) :=
match last prev with
| None => None
| Some lastMessage =>
  match role lastMessage with
  | assistant => Some (<[ length prev - 1 := set_content acc lastMessage ]> prev)
  | user => Some prev
  end
end.

(** The token branch: [accumulatedResponse += data.content] and the
update of the last message. *)
Definition on_token (piece : string) (p : Progress) : Progress :=
let acc := accumulatedResponse p +:+ piece in
match write_last acc (chatMessages (ui p)) with
| Some updated =>
  {| ui := setChatMessages (λ _, updated) (ui p); accumulatedResponse := acc;
     log := log p; render_error := render_error p |}
| None =>
  {| ui := ui p; accumulatedResponse := acc;
     log := log p; render_error := true |}
end.

Definition placeholder (now : Z) : Message :=
{| role := assistant; content := EmptyString; timestamp := now; image := None |}.

Definition apology (now : Z) : Message :=
{| role := assistant;
 content := "Sorry, I encountered an error. Please try again.";
 timestamp := now; image := None |}.

Definition confirmation_apology (now : Z) : Message :=
{| role := assistant;
 content := "Sorry, I encountered an error processing your confirmation.";
 timestamp := now; image := None |}.

(** [setChatMessages(prev => [...prev, m])] *)
Definition push (m : Message) (st : State) : State :=
setChatMessages (λ prev, prev ++ [m]) st.

Section WithRuntime.
Context (JSON_parse : string → option Js.value).
Context (number_to_string : spec_float → string).

(** The body of the inner [try], after [JSON.parse].  [confirmations]
tells whether the loop has the ["confirmation"] branch: the loop of
[handleSend] has it, the loop of [handleConfirmAction] has not.
[None]: the body throws, and nothing was done before it threw. *)
Definition on_data (confirmations : bool) (data : Js.value) (p : Progress)
: option Progress :=
ty ← Js.get data "type";
if Js.is_str ty "token" then
piece ← Js.get data "content";
text ← Js.to_string number_to_string piece;
Some (on_token text p)
else if confirmations && Js.is_str ty "confirmation" then
payload ← Js.get data "payload";
msg ← Js.get payload "message";
Some (with_ui (setConfirmationState
             {| isVisible := true; alertMessage := msg;
                consequenceDetails := payload |}) p)
else if Js.is_str ty "error" then
Some (emit (ConsoleError "Stream error:") p)
else Some p.

(** One turn of [for (const line of lines)]. *)
Definition on_line (confirmations : bool) (p : Progress) (line : string) : Progress :=
if negb (Js.truthy_string (Js.trim line)) then p
else
match data ← JSON_parse line; on_data confirmations data p with
| Some p' => p'
| None => emit (ConsoleError "Error parsing stream line:") p
end.

(** One turn of [while (true)] in which [reader.read()] yields a value. *)
Definition on_chunk (confirmations : bool) (p : Progress) (chunk : string) : Progress :=
fold_left (on_line confirmations) (Js.split chunk (String "010" EmptyString)) p.

(** ** [handleSend] *)

(** [(!userInput.trim() && !uploadedImage) || isProcessing] *)
Definition send_refused (st : State) : bool :=
(negb (Js.truthy_string (Js.trim (userInput st))) &&
negb (Js.truthy_opt (uploadedImage st)))
|| isProcessing st.

(** [imageToSend.includes("base64,") ? imageToSend.split("base64,")[1]
: imageToSend] *)
Definition base64Data (imageToSend : string) : option string :=
if Js.includes imageToSend "base64,"
then Js.split imageToSend "base64," !! 1%nat
else Some imageToSend.

(** From the call to the [fetch]: the state after the synchronous part
and the body of the request.  [None]: the guard returned. *)
Definition send_begin (now : Z) (st : State) : option (State * ChatBody) :=
if send_refused st then None
else
let userMessage :=
if Js.truthy_string (userInput st) then userInput st
else "What's in this image?" in
let imageToSend := uploadedImage st in
let st1 := setUserInput EmptyString st in
let st2 :=
push {| role := user; content := userMessage; timestamp := now;
      image := if Js.truthy_opt imageToSend then imageToSend else None |}
   st1 in
let st3 := resetFileInput (setImage None st2) in
let st4 := setIsProcessing true st3 in
let requestBody :=
{| message := userMessage;
 session_id := chatSessionId st;
 context_page := currentContextPage st;
 image_base64 :=
   match imageToSend with
   | Some img => if Js.truthy_string img then base64Data img else None
   | None => None
   end |} in
Some (st4, requestBody).

(** The [catch] and the [finally] of [handleSend]. *)
Definition send_catch (now : Z) (p : Progress) : Progress :=
with_ui (push (apology now)) (emit (ConsoleError "Error calling Movi:") p).

Definition finally (p : Progress) : Progress :=
with_ui (setIsProcessing false) p.

(** What the request is answered, the clock when the [fetch] settles and
the clock when a [reader.read()] throws.  The clock does not move
inside one piece of synchronous code. *)
Record Answer := {
fetched : FetchResult;
t_settled : Z;
t_read_failure : Z;
}.

(** The rest of an activation once the request is out: the [try] block
from the answer of [fetch] on, then [catch] and [finally].
[confirmations] and [catch] are what tells the two handlers apart. *)
Definition complete (confirmations : bool) (catch : Z → Progress → Progress)
(net : Answer) (p : Progress) : Progress :=
match fetched net with
| NetworkError => finally (catch (t_settled net) p)
| Responded response =>
if negb (ok response) then finally (catch (t_settled net) p)
else
let p1 := with_ui (push (placeholder (t_settled net))) p in
match body response with
| None => finally (catch (t_settled net) p1)
| Some b =>
    let p2 := fold_left (on_chunk confirmations) (chunks b) p1 in
    match ending b with
    | StreamDone => finally p2
    | ReadThrows => finally (catch (t_read_failure net) p2)
    end
end
end.

Definition handleSend (now : Z) (net : Answer) (st : State) : Progress :=
match send_begin now st with
| None => start st []
| Some (st1, requestBody) =>
complete true send_catch net (start st1 [PostChat requestBody])
end.

(** ** [handleConfirmAction], text mode *)

(** From [const confirmMessage = ...] to the [fetch]. *)
Definition confirm_begin (now : Z) (confirmed : bool) (st : State)
: State * ChatBody :=
let confirmMessage := if confirmed then "yes" else "no" in
let st1 :=
push {| role := user; content := confirmMessage; timestamp := now;
    image := None |} st in
let st2 := setIsProcessing true st1 in
(st2, {| message := confirmMessage;
   session_id := chatSessionId st;
   context_page := currentContextPage st;
   image_base64 := None |}).

Definition confirm_catch (now : Z) (p : Progress) : Progress :=
with_ui (push (confirmation_apology now))
  (emit (ConsoleError "Error sending confirmation:") p).

Definition confirmInText (now : Z) (confirmed : bool) (net : Answer) (st : State)
: Progress :=
let '(st1, requestBody) := confirm_begin now confirmed st in
complete false confirm_catch net (start st1 [PostChat requestBody]).

(** ** Callbacks and effects that connect the component to the hook *)

(** [error.split('\n').map((line, idx) => idx === 0 ?
`**Voice Error:** ${line}` : line).join('\n')] *)
Definition formattedError (error : string) : string :=
match Js.split error (String "010" EmptyString) with
| first :: rest =>
Js.join (("**Voice Error:** " +:+ first) :: rest) (String "010" EmptyString)
| [] => EmptyString
end.

(** The [onError] callback given to the hook.  For an argument that is
not a string [error.split] is not a function: the callback throws
after its [console.error]. *)
Definition onError (now : Z) (error : Js.value) (p : Progress) : Progress :=
let p1 := emit (ConsoleError "Voice error:") p in
match error with
| Js.Str text =>
with_ui (push {| role := assistant; content := formattedError text;
               timestamp := now; image := None |}) p1
| _ => p1
end.

End WithRuntime.

End Chat.

(* ===================================================================== *)
(** * The component together with its hook                                 *)
(* ===================================================================== *)

(** [FleetChatAssistant] calls [useVoiceInteraction], which throws in its
    [return] statement ([Voice.hook_return]): as the two files stand, the
    component never gets through its first render, and what this
    development says of its handlers is said of the functions.  The
    handlers meet a hook that returns in [MoviAssistant], which calls
    [useVoiceChat] and has the same mount effects, the same effect on the
    confirmation that the hook requests and the same voice branch in
    [handleConfirmAction]; its other handlers differ and are not modelled.

    A handler is followed here up to its last state update.  The effect of
    [FleetChatAssistant] that copies the newest voice message to the chat
    on a later render is not part of the model: the text of a voice message
    is of type [any], which the [content] of a [Chat.Message] cannot
    hold. *)
Module Assistant.
Import Net.

Record World := {
chat : Chat.State;
voice : Voice.State;
}.

(** What a handler leaves behind. *)
Record Outcome := {
world : World;
effects : list Effect;
render_error : bool;
}.

(** The props the component gives the hook:
[sessionId: chatSessionId || ''] and [contextPage: currentContextPage]. *)
Definition hook_sessionId (st : Chat.State) : string :=
if Js.truthy_string (Chat.chatSessionId st) then Chat.chatSessionId st
else EmptyString.

Definition of_progress (v : Voice.State) (p : Chat.Progress) : Outcome :=
{| world := {| chat := Chat.ui p; voice := v |};
 effects := Chat.log p;
 render_error := Chat.render_error p |}.

(** The effect on [requiresConfirmation] and [consequenceInfo], which the
component reads from what the hook returned:
[if (chatSessionId && requiresConfirmation && consequenceInfo)
   setConfirmationState({ isVisible: true,
     alertMessage: consequenceInfo.message,
     consequenceDetails: consequenceInfo })]
[MoviAssistant] has the same effect on what [useVoiceChat] returns.  When
the hook throws, the component does not render and no effect runs. *)
Definition voiceConfirmationEffect (h : Voice.Hook) (w : World) : World :=
match Voice.hook_return h (voice w) with
| None => w
| Some returned =>
if Js.truthy_string (Chat.chatSessionId (chat w)) &&
   Voice.requiresConfirmation returned &&
   Js.truthy (Voice.consequenceInfo returned)
then
  match Js.get (Voice.consequenceInfo returned) "message" with
  | Some msg =>
      {| chat :=
           Chat.setConfirmationState
             {| Chat.isVisible := true; Chat.alertMessage := msg;
                Chat.consequenceDetails := Voice.consequenceInfo returned |}
             (chat w);
         voice := voice w |}
  | None => w
  end
else w
end.

Section WithRuntime.
Context (JSON_parse : string → option Js.value).
Context (number_to_string : spec_float → string).

(** What the network answers to a confirmation, in either mode. *)
Record ConfirmNet := {
text_net : Chat.Answer;
voice_net : Voice.ConfirmAnswers;
}.

Definition handleConfirmAction (now : Z) (confirmed : bool) (net : ConfirmNet)
(w : World) : Outcome :=
let st1 := Chat.setConfirmationState Chat.dialog_closed (chat w) in
if Chat.isVoiceActive st1 then
let '(v', es, errors) :=
Voice.sendConfirmation JSON_parse (hook_sessionId st1)
(Chat.currentContextPage st1) now confirmed (voice_net net) (voice w) in
of_progress v'
(fold_left (λ p error, Chat.onError (Voice.t_reply (voice_net net)) error p)
         errors (Chat.start st1 es))
else
of_progress (voice w)
(Chat.confirmInText JSON_parse number_to_string now confirmed (text_net net) st1).

Definition handleSend (now : Z) (net : Chat.Answer) (w : World) : Outcome :=
of_progress (voice w) (Chat.handleSend JSON_parse number_to_string now net (chat w)).

End WithRuntime.

End Assistant.

(* ===================================================================== *)
(** * The text-mode interface as a transition system                       *)
(* ===================================================================== *)

(** Between two [await]s a handler runs without interruption; at an [await]
    the event loop may run anything else: another handler, or the next
    piece of another activation.  The machine below lets the environment
    choose.  It is the text-mode interface: the hook is left out and nothing
    in it enters voice mode; of an answer to the dialog in voice mode it
    shows the closing of the dialog, the rest being the hook's
    [sendConfirmation]. *)
Module Loop.
Import Net.

Inductive RunKind := SendRun | ConfirmRun.

(** Where an activation waits: for the answer of its [fetch], for the
next [reader.read()], or nowhere because it has returned. *)
Inductive Phase := AwaitingResponse | Reading | Returned.

Record Run := {
kind : RunKind;
phase : Phase;
request : ChatBody;
acc : string;
}.

Record Machine := {
ui : Chat.State;
runs : list Run;
trace : list Effect;
broken : bool;
}.

(** How a [fetch] settles: the promise rejects, or a response arrives
with its [ok] flag and with or without a readable body. *)
Inductive Arrival := Rejected | Status (ok readable : bool).

Inductive Event :=
| Typed (text : string)
| ImageLoaded (base64String : string)
| ImageRemoved
| SendPressed (now : Z)
| DialogAnswered (now : Z) (confirmed : bool)
| FetchSettled (i : nat) (now : Z) (a : Arrival)
| ChunkRead (i : nat) (chunk : string)
| StreamEnded (i : nat)
| ReadFailed (i : nat) (now : Z).

Definition boot (st : Chat.State) : Machine :=
{| ui := st; runs := []; trace := []; broken := false |}.

Definition in_flight (r : Run) : bool :=
match phase r with Returned => false | _ => true end.

(** The activations that have not returned yet. *)
Definition still_running (rs : list Run) : list Run :=
filter (λ r, in_flight r = true) rs.

Definition active (m : Machine) : list Run := still_running (runs m).

Definition spawn (k : RunKind) (st : Chat.State) (b : ChatBody) (m : Machine) : Machine :=
{| ui := st;
 runs := runs m ++ [{| kind := k; phase := AwaitingResponse; request := b;
                       acc := EmptyString |}];
 trace := trace m ++ [PostChat b];
 broken := broken m |}.

(** An activation takes its next piece: [f] runs on the current state of
the component with the local variable of the activation, and adds to
the trace. *)
Definition advance (i : nat) (r : Run) (next : Phase)
(f : Chat.Progress → Chat.Progress) (m : Machine) : Machine :=
let p := f {| Chat.ui := ui m; Chat.accumulatedResponse := acc r;
            Chat.log := trace m; Chat.render_error := broken m |} in
{| ui := Chat.ui p;
 runs := <[ i := {| kind := kind r; phase := next; request := request r;
                    acc := Chat.accumulatedResponse p |} ]> (runs m);
 trace := Chat.log p;
 broken := Chat.render_error p |}.

Definition catch_of (k : RunKind) : Z → Chat.Progress → Chat.Progress :=
match k with
| SendRun => Chat.send_catch
| ConfirmRun => Chat.confirm_catch
end.

Definition confirmations_of (k : RunKind) : bool :=
match k with SendRun => true | ConfirmRun => false end.

Section WithRuntime.
Context (JSON_parse : string → option Js.value).
Context (number_to_string : spec_float → string).

Definition step (ev : Event) (m : Machine) : Machine :=
match ev with
| Typed text =>
{| ui := Chat.setUserInput text (ui m); runs := runs m;
 trace := trace m; broken := broken m |}
| ImageLoaded data =>
{| ui := Chat.imageLoaded data (ui m); runs := runs m;
 trace := trace m; broken := broken m |}
| ImageRemoved =>
{| ui := Chat.removeImage (ui m); runs := runs m;
 trace := trace m; broken := broken m |}
| SendPressed now =>
match Chat.send_begin now (ui m) with
| Some (st, b) => spawn SendRun st b m
| None => m
end
| DialogAnswered now confirmed =>
let st1 := Chat.setConfirmationState Chat.dialog_closed (ui m) in
if Chat.isVoiceActive st1
then {| ui := st1; runs := runs m; trace := trace m; broken := broken m |}
else
let '(st2, b) := Chat.confirm_begin now confirmed st1 in
spawn ConfirmRun st2 b m
| FetchSettled i now a =>
match runs m !! i with
| Some r =>
  match phase r, a with
  | AwaitingResponse, Status true true =>
      advance i r Reading
        (Chat.with_ui (Chat.push (Chat.placeholder now))) m
  | AwaitingResponse, Status true false =>
      advance i r Returned
        (λ p, Chat.finally
                (catch_of (kind r) now
                   (Chat.with_ui (Chat.push (Chat.placeholder now)) p))) m
  | AwaitingResponse, _ =>
      advance i r Returned (λ p, Chat.finally (catch_of (kind r) now p)) m
  | _, _ => m
  end
| None => m
end
| ChunkRead i chunk =>
match runs m !! i with
| Some r =>
  match phase r with
  | Reading =>
      advance i r Reading
        (λ p, Chat.on_chunk JSON_parse number_to_string
                (confirmations_of (kind r)) p chunk) m
  | _ => m
  end
| None => m
end
| StreamEnded i =>
match runs m !! i with
| Some r =>
  match phase r with
  | Reading => advance i r Returned Chat.finally m
  | _ => m
  end
| None => m
end
| ReadFailed i now =>
match runs m !! i with
| Some r =>
  match phase r with
  | Reading =>
      advance i r Returned (λ p, Chat.finally (catch_of (kind r) now p)) m
  | _ => m
  end
| None => m
end
end.

Definition exec (evs : list Event) (m : Machine) : Machine :=
fold_left (λ m ev, step ev m) evs m.

(** The events of one activation that nothing interrupts. *)
Definition script (i : nat) (net : Chat.Answer) : list Event :=
match Chat.fetched net with
| NetworkError => [FetchSettled i (Chat.t_settled net) Rejected]
| Responded response =>
if negb (ok response) then [FetchSettled i (Chat.t_settled net) (Status false false)]
else
match body response with
| None => [FetchSettled i (Chat.t_settled net) (Status true false)]
| Some b =>
    FetchSettled i (Chat.t_settled net) (Status true true)
    :: map (ChunkRead i) (chunks b)
    ++ [match ending b with
        | StreamDone => StreamEnded i
        | ReadThrows => ReadFailed i (Chat.t_read_failure net)
        end]
end
end.

End WithRuntime.

End Loop.

(* ===================================================================== *)
(** * Numbers and the [ProgressBar] component                              *)
(* ===================================================================== *)

(** A JavaScript [number] is an IEEE 754 binary64 value: [spec_float] with
    53 bits of mantissa and exponents up to 1024, rounded to nearest even. *)
Module Number.

Definition prec : Z := 53.
Definition emax : Z := 1024.

Definition NaN : spec_float := S754_nan.
Definition Infinity : spec_float := S754_infinity false.

(** The number denoted by an integer literal. *)
Definition of_Z (z : Z) : spec_float := binary_normalize prec emax z 0 false.

Definition zero : spec_float := Eval vm_compute in of_Z 0.
Definition hundred : spec_float := Eval vm_compute in of_Z 100.

Definition div (x y : spec_float) : spec_float := SFdiv prec emax x y.
Definition mul (x y : spec_float) : spec_float := SFmul prec emax x y.

Definition isNaN (x : spec_float) : bool :=
match x with S754_nan => true | _ => false end.

Definition isInfinite (x : spec_float) : bool :=
match x with S754_infinity _ => true | _ => false end.

(** [x < y] and [x <= y]; both are false when an operand is NaN. *)
Definition lt (x y : spec_float) : bool := SFltb x y.
Definition le (x y : spec_float) : bool := SFleb x y.

(** [Math.max(a, b)]: NaN if an argument is NaN, and +0 is larger
than -0. *)
Definition Math_max (a b : spec_float) : spec_float :=
match a, b with
| S754_nan, _ | _, S754_nan => S754_nan
| S754_zero sa, S754_zero sb => S754_zero (sa && sb)
| _, _ => if SFltb a b then b else a
end.

(** [Math.min(a, b)]: NaN if an argument is NaN, and -0 is smaller
than +0. *)
Definition Math_min (a b : spec_float) : spec_float :=
match a, b with
| S754_nan, _ | _, S754_nan => S754_nan
| S754_zero sa, S754_zero sb => S754_zero (sa || sb)
| _, _ => if SFltb b a then b else a
end.

End Number.

Module ProgressBar.
Import Number.

(** [const percentage = Math.min(Math.max((value / max) * 100, 0), 100)]
with the default [max = 100] of the props. *)
Definition percentage (value : spec_float) (max : option spec_float) : spec_float :=
let max := default hundred max in
Math_min (Math_max (mul (div value max) hundred) zero) hundred.

End ProgressBar.

(* ===================================================================== *)
(** * The orchestration pipeline                                           *)
(* ===================================================================== *)

(** The pipeline runs in the backend service, whose code is not among the
    sources at hand; its definitions below follow the specification text.
    The persistence collaborator is a type [DB] of states, a tool handler a
    function on it.  The checkpoint store is a finite map; outages of the
    store are outside the model. *)
Module Engine.

Inductive UiContext := busDashboard | routes | stops_paths | vehicles | drivers | unknown.

Global Instance UiContext_eq_dec : EqDecision UiContext.
Proof. solve_decision. Defined.

Inductive ImpactLevel := normal | high.

Record Turn := { role : Role; content : string }.

Definition Entities := gmap string Js.value.

Record ExecutionResult := {
success : bool;
payload : Js.value;
error : option string;
}.

(** Modelled from the spec: the [InterruptPayload] of section 6,
[{message: string, structured_consequence: any}]. *)
Record InterruptPayload := {
message : string;
structured_consequence : Js.value;
}.

(** Modelled from the spec: the [AgentState] of section 3, the value
threaded through all stages. *)
Record AgentState := {
raw_message : string;
ui_context : UiContext;
conversation_history : list Turn;
image_payload : option string;
derived_image_summary : option string;
intent : option string;
selected_tool : option string;
extracted_entities : option Entities;
needs_clarification : bool;
impact_assessment : option InterruptPayload;
awaiting_confirmation : bool;
execution_result : option ExecutionResult;
}.

Inductive Stage := safety_gate.

(** Modelled from the spec: the [Checkpoint] of section 3; the session id
is the key under which the store holds it. *)
Record Checkpoint := {
agent_state_snapshot : AgentState;
suspended_at_stage : Stage;
}.

Record ParamSpec := {
param_name : string;
expected_type : string;
required : bool;
}.

(** What [submit] and [resume] give back to the transport layer; a run
that finds the lease of its session taken is rejected. *)
Inductive Outcome :=
| Reply (tokens : list string)
| Interrupt (p : InterruptPayload)
| Rejected.

Section Pipeline.
(** The persistence collaborator. *)
Context {DB : Type}.

(** Modelled from the spec: the tool descriptor of section 3.  The
handler performs the single side-effecting operation; it gives the
new state of the persistence collaborator and either a result
payload ([inl]) or the message of the exception it throws ([inr]). *)
Record ToolDescriptor := {
schema : list ParamSpec;
contexts : list UiContext;
impact : ImpactLevel;
handler : Entities → DB → DB * (Js.value + string);
}.

(** Modelled from the spec: the state of the engine, namely the
persistence collaborator, the latest [AgentState] of every session,
and the Checkpoint Store with its entries and its leases. *)
Record World := {
db : DB;
sessions : gmap string AgentState;
checkpoints : gmap string Checkpoint;
leases : gset string;
}.

(** The answer of the completion collaborator to [classify]. *)
Record Classification := {
c_intent : string;
c_tool : string;
c_entities : Entities;
}.

(** The Tool Registry, immutable after startup, and the collaborators
behind the interfaces of section 6.  [classify] takes the number of
the attempt; [None] is an error or a timeout of the collaborator. *)
Context (registry : gmap string ToolDescriptor).
Context (classify : nat → list Turn → string → list string → option Classification).
Context (describeImage : string → string).
Context (synthesize : list Turn → option ExecutionResult → option InterruptPayload
              → option (list string)).
Context (resolve_consequence : string → Entities → DB → InterruptPayload).

(** Checkpoint Store interface. *)
Definition put (sid : string) (c : Checkpoint) (w : World) : World :=
{| db := db w; sessions := sessions w;
checkpoints := <[ sid := c ]> (checkpoints w); leases := leases w |}.

Definition get (sid : string) (w : World) : option Checkpoint :=
checkpoints w !! sid.

Definition delete_checkpoint (sid : string) (w : World) : World :=
{| db := db w; sessions := sessions w;
checkpoints := delete sid (checkpoints w); leases := leases w |}.

Definition acquireLease (sid : string) (w : World) : option World :=
if decide (sid ∈ leases w) then None
else Some {| db := db w; sessions := sessions w;
       checkpoints := checkpoints w; leases := {[ sid ]} ∪ leases w |}.

Definition releaseLease (sid : string) (w : World) : World :=
{| db := db w; sessions := sessions w;
checkpoints := checkpoints w; leases := leases w ∖ {[ sid ]} |}.

Definition save (sid : string) (s : AgentState) (w : World) : World :=
{| db := db w; sessions := <[ sid := s ]> (sessions w);
checkpoints := checkpoints w; leases := leases w |}.

Definition set_db (d : DB) (w : World) : World :=
{| db := d; sessions := sessions w;
checkpoints := checkpoints w; leases := leases w |}.

(** The state a run starts from: the history of the session so far and
the input of this turn. *)
Definition fresh (history : list Turn) (raw : string) (ctx : UiContext)
(img : option string) : AgentState :=
{| raw_message := raw; ui_context := ctx; conversation_history := history;
image_payload := img; derived_image_summary := None;
intent := None; selected_tool := None; extracted_entities := None;
needs_clarification := false; impact_assessment := None;
awaiting_confirmation := false; execution_result := None |}.

(** Modelled from the spec: page-aware filtering (4.1, step 2). *)
Definition candidates (ctx : UiContext) : list string :=
(filter (λ entry, ctx ∈ contexts entry.2) (map_to_list registry)).*1.

(** The required parameters of the schema that the entities lack. *)
Definition missing_required (d : ToolDescriptor) (es : Entities) : list string :=
param_name <$>
filter (λ p, required p = true ∧ es !! param_name p = None) (schema d).

Definition with_selection (s : AgentState) (summary : option string)
(i : option string) (tool : option string) (es : option Entities)
(clarify : bool) : AgentState :=
{| raw_message := raw_message s; ui_context := ui_context s;
conversation_history := conversation_history s;
image_payload := image_payload s; derived_image_summary := summary;
intent := i; selected_tool := tool; extracted_entities := es;
needs_clarification := clarify;
impact_assessment := impact_assessment s;
awaiting_confirmation := awaiting_confirmation s;
execution_result := execution_result s |}.

(** Modelled from the spec: the Intent & Tool Selector (4.1).  The
image summary is concatenated to the message before classification;
the collaborator is tried twice; a tool outside the candidates of
the page, or one with a required entity missing, ends in a request
for clarification with no tool selected. *)
Definition select (s : AgentState) : AgentState :=
let summary := describeImage <$> image_payload s in
let composed :=
match summary with
| Some text => raw_message s +:+ " " +:+ text
| None => raw_message s
end in
let cands := candidates (ui_context s) in
let answer :=
match classify 0 (conversation_history s) composed cands with
| Some c => Some c
| None => classify 1 (conversation_history s) composed cands
end in
match answer with
| None => with_selection s summary None None None true
| Some c =>
match registry !! c_tool c with
| Some d =>
  if bool_decide (c_tool c ∈ cands) &&
     bool_decide (missing_required d (c_entities c) = [])
  then with_selection s summary (Some (c_intent c)) (Some (c_tool c))
         (Some (c_entities c)) false
  else with_selection s summary (Some (c_intent c)) None None true
| None => with_selection s summary (Some (c_intent c)) None None true
end
end.

Definition with_gate (s : AgentState) (impact : option InterruptPayload)
(awaiting : bool) : AgentState :=
{| raw_message := raw_message s; ui_context := ui_context s;
conversation_history := conversation_history s;
image_payload := image_payload s;
derived_image_summary := derived_image_summary s;
intent := intent s; selected_tool := selected_tool s;
extracted_entities := extracted_entities s;
needs_clarification := needs_clarification s;
impact_assessment := impact; awaiting_confirmation := awaiting;
execution_result := execution_result s |}.

Definition with_result (s : AgentState) (r : ExecutionResult) : AgentState :=
{| raw_message := raw_message s; ui_context := ui_context s;
conversation_history := conversation_history s;
image_payload := image_payload s;
derived_image_summary := derived_image_summary s;
intent := intent s; selected_tool := selected_tool s;
extracted_entities := extracted_entities s;
needs_clarification := needs_clarification s;
impact_assessment := impact_assessment s;
awaiting_confirmation := false;
execution_result := Some r |}.

Definition with_history (s : AgentState) (h : list Turn) : AgentState :=
{| raw_message := raw_message s; ui_context := ui_context s;
conversation_history := h;
image_payload := image_payload s;
derived_image_summary := derived_image_summary s;
intent := intent s; selected_tool := selected_tool s;
extracted_entities := extracted_entities s;
needs_clarification := needs_clarification s;
impact_assessment := impact_assessment s;
awaiting_confirmation := awaiting_confirmation s;
execution_result := execution_result s |}.

(** Modelled from the spec: the Safety Gate (4.2, steps 1 to 3).  A tool
of impact [normal] passes through; for a tool of impact [high] the
Consequence Resolver reads the persisted state and the gate asks
for suspension ([Some]). *)
Definition gate (s : AgentState) (d : DB) : AgentState * option InterruptPayload :=
match selected_tool s with
| Some tool =>
match impact <$> registry !! tool with
| Some high =>
  let assessment :=
    resolve_consequence tool (default ∅ (extracted_entities s)) d in
  (with_gate s (Some assessment) true, Some assessment)
| _ => (with_gate s (impact_assessment s) false, None)
end
| None => (with_gate s (impact_assessment s) false, None)
end.

Definition failure (msg : string) : ExecutionResult :=
{| success := false; payload := Js.Null; error := Some msg |}.

(** Modelled from the spec: the Action Executor (4.3). *)
Definition execute (s : AgentState) (d : DB) : DB * ExecutionResult :=
match selected_tool s with
| None => (d, failure "unknown_tool")
| Some tool =>
match registry !! tool with
| None => (d, failure "unknown_tool")
| Some desc =>
  let es := default ∅ (extracted_entities s) in
  match missing_required desc es with
  | [] =>
      match handler desc es d with
      | (d', inl result) =>
          (d', {| success := true; payload := result; error := None |})
      | (d', inr msg) => (d', failure msg)
      end
  | missing =>
      (d, failure ("missing required parameters: " +:+ Js.join missing ", "))
  end
end
end.

(** Modelled from the spec: the templated fallback of the Reply
Synthesizer (4.4), derived from the fields of the result alone. *)
Definition fallback_reply (r : option ExecutionResult) : list string :=
match r with
| Some {| success := true |} => ["The action was completed."]
| Some {| success := false; error := Some msg |} =>
["The action was not carried out: "; msg]
| Some {| success := false; error := None |} => ["The action was not carried out."]
| None => ["Could you rephrase your request?"]
end.

(** Modelled from the spec: the Reply Synthesizer (4.4).  The reply is
appended to the history as an assistant turn. *)
Definition reply (s : AgentState) : AgentState * list string :=
let tokens :=
match synthesize (conversation_history s) (execution_result s)
    (impact_assessment s) with
| Some tokens => tokens
| None => fallback_reply (execution_result s)
end in
(with_history s
(conversation_history s ++
[{| role := assistant; content := Js.join tokens EmptyString |}]),
tokens).

(** The last two stages and the end of a run: the Reply Synthesizer
speaks, the terminal state is kept, the lease is released. *)
Definition finish (sid : string) (s : AgentState) (w : World) : World * Outcome :=
let '(s', tokens) := reply s in
(releaseLease sid (save sid s' w), Reply tokens).

(** Modelled from the spec: [submit] of section 6, the control flow of
section 2. *)
Definition submit (sid raw : string) (ctx : UiContext) (img : option string)
(w : World) : World * Outcome :=
match acquireLease sid w with
| None => (w, Rejected)
| Some w1 =>
let history :=
default [] (conversation_history <$> sessions w1 !! sid) in
let s0 := fresh (history ++ [{| role := user; content := raw |}]) raw ctx img in
let s1 := select s0 in
if needs_clarification s1 then finish sid s1 w1
else
match gate s1 (db w1) with
| (s2, Some assessment) =>
    let w2 :=
      put sid {| agent_state_snapshot := s2;
                 suspended_at_stage := safety_gate |} (save sid s2 w1) in
    (releaseLease sid w2, Interrupt assessment)
| (s2, None) =>
    let '(d', r) := execute s2 (db w1) in
    finish sid (with_result s2 r) (set_db d' w1)
end
end.

(** Modelled from the spec: [resume] of section 6 and step 4 of the
Safety Gate.  The checkpoint is consumed and deleted; a rejection
goes straight to the Reply Synthesizer, an approval to the Action
Executor with the checkpointed tool and entities.  A resume without
a checkpoint finds nothing to run and is rejected. *)
Definition resume (sid : string) (approved : bool) (w : World) : World * Outcome :=
match acquireLease sid w with
| None => (w, Rejected)
| Some w1 =>
match get sid w1 with
| None => (w, Rejected)
| Some c =>
  let w2 := delete_checkpoint sid w1 in
  let s := agent_state_snapshot c in
  if approved then
    let '(d', r) := execute s (db w2) in
    finish sid (with_result s r) (set_db d' w2)
  else
    finish sid (with_result s (failure "cancelled_by_user")) w2
end
end.

End Pipeline.
End Engine.

(* ===================================================================== *)
(** * More of [String.prototype]                                           *)
(* ===================================================================== *)

Module Text.

(** [s.indexOf(sub)]: the first position at which [sub] starts, or -1. *)
Fixpoint indexOf (s sub : string) : Z :=
if Js.startsWith s sub then 0%Z
else
match s with
| EmptyString => (-1)%Z
| String _ s' =>
let i := indexOf s' sub in
if Z.eqb i (-1) then (-1)%Z else (i + 1)%Z
end.

(** The lower case of a code unit below 256: the letters A to Z and the
capital letters of Latin-1 from U+00C0 to U+00DE, the multiplication
sign U+00D7 apart, move up by 32; every other code unit stays. *)
Definition lower (c : ascii) : ascii :=
let n := nat_of_ascii c in
if (Nat.leb 65 n && Nat.leb n 90)
|| (Nat.leb 192 n && Nat.leb n 222 && negb (Nat.eqb n 215))
then ascii_of_nat (n + 32) else c.

(** [s.toLowerCase()] of a string whose code units are all below 256.
There the lower case is taken code unit by code unit: the rules of the
standard that look at the context of a character or that change the
length of the text (the final sigma, the dotted capital I) concern code
units from U+0130 on, which a [string] of this development cannot
hold. *)
Fixpoint toLowerCase (s : string) : string :=
match s with
| EmptyString => EmptyString
| String c s' => String (lower c) (toLowerCase s')
end.

(** The class [[\d.]]: a decimal digit or a dot. *)
Definition is_digit_or_dot (c : ascii) : bool :=
let n := nat_of_ascii c in
(Nat.leb 48 n && Nat.leb n 57) || Nat.eqb n 46.

(** [[\d.]*] at the start of [s], greedy: the longest run of digits and
dots, and what follows it. *)
Fixpoint span_digits (s : string) : string * string :=
match s with
| EmptyString => (EmptyString, EmptyString)
| String c s' =>
if is_digit_or_dot c
then let '(ds, rest) := span_digits s' in (String c ds, rest)
else (EmptyString, s)
end.

(** [/h-[\d.]+/] tried at the start of [s]: the text matched and the
rest. *)
Definition match_here (s : string) : option (string * string) :=
match s with
| String "h" (String "-" t) =>
match span_digits t with
| (EmptyString, _) => None
| (ds, rest) => Some ("h-" +:+ ds, rest)
end
| _ => None
end.

(** The leftmost match of [/h-[\d.]+/] in [s]: the text before it, the
match and the text after it.  [s.match(re)] is null when there is
none. *)
Fixpoint search (s : string) : option (string * string * string) :=
match match_here s with
| Some (m, rest) => Some (EmptyString, m, rest)
| None =>
match s with
| EmptyString => None
| String c s' =>
  match search s' with
  | Some (before, m, rest) => Some (String c before, m, rest)
  | None => None
  end
end
end.

End Text.

(* ===================================================================== *)
(** * [FleetChatAssistant]: the image inputs and the Send button           *)
(* ===================================================================== *)

Module Panel.
Import Net.

(** A [File] or [Blob]: its MIME [type] and what
[FileReader.readAsDataURL] leaves in [reader.result] when [onloadend]
fires, which is [null] after a failed read. *)
Record File := {
file_type : string;
read_result : option string;
}.

(** An entry of [e.clipboardData.items]. *)
Record ClipboardItem := {
item_type : string;
getAsFile : option File;
}.

(** [handleImageFile], at [reader.onloadend]:
[setUploadedImage(base64String); setImagePreviewUrl(base64String)] *)
Definition handleImageFile (file : File) (st : Chat.State) : Chat.State :=
Chat.setImage (read_result file) st.

(** [items[i].type.indexOf("image") !== -1] *)
Definition is_image_item (it : ClipboardItem) : bool :=
negb (Z.eqb (Text.indexOf (item_type it) "image") (-1)).

(** The [for] loop of [handlePaste]: it stops at the first item whose
type mentions an image, calls [preventDefault] and hands the file of
that item, if it has one, to [handleImageFile]. *)
Fixpoint scan (items : list ClipboardItem) : option ClipboardItem :=
match items with
| [] => None
| it :: rest => if is_image_item it then Some it else scan rest
end.

(** [handlePaste] for a paste event whose [clipboardData?.items] is
[items].  The result tells whether [preventDefault] was called, and
gives the state once the file reader is done. *)
Definition handlePaste (items : option (list ClipboardItem)) (st : Chat.State)
: bool * Chat.State :=
if negb (Chat.chatWindowOpen st) then (false, st)
else
match items with
| None => (false, st)
| Some items =>
match scan items with
| Some it =>
  (true, match getAsFile it with
         | Some blob => handleImageFile blob st
         | None => st
         end)
| None => (false, st)
end
end.

(** [handleFileSelect]: [e.target.files?.[0]], taken when its type starts
with [image/]. *)
Definition handleFileSelect (files : option (list File)) (st : Chat.State)
: Chat.State :=
match files with
| Some (file :: _) =>
if Js.startsWith (file_type file) "image/" then handleImageFile file st else st
| _ => st
end.

(** [disabled={isProcessing || (!userInput.trim() && !uploadedImage)}] of
the Send button. *)
Definition sendDisabled (st : Chat.State) : bool :=
Chat.isProcessing st
|| (negb (Js.truthy_string (Js.trim (Chat.userInput st)))
&& negb (Js.truthy_opt (Chat.uploadedImage st))).

(** The microphone button: [disabled={!chatSessionId}], and its
[onClick], which warns and returns while there is no session id. *)
Definition micDisabled (st : Chat.State) : bool :=
negb (Js.truthy_string (Chat.chatSessionId st)).

Definition micClicked (st : Chat.State) : Chat.State * list Effect :=
if negb (Js.truthy_string (Chat.chatSessionId st))
then (st, [ConsoleWarn "Session not ready yet"])
else (Chat.setIsVoiceActive true st, []).

(** The quick actions are rendered while [chatMessages.length === 1]. *)
Definition quickActionsShown (st : Chat.State) : bool :=
Nat.eqb (length (Chat.chatMessages st)) 1.

End Panel.

(* ===================================================================== *)
(** * [ProgressBar]: the classes of the bar                                *)
(* ===================================================================== *)

Module Bar.

(** [const heightMatch = className?.match(/h-[\d.]+/);
const heightClass = heightMatch ? heightMatch[0] : "h-2.5"] *)
Definition heightClass (className : option string) : string :=
match className with
| Some cn =>
match Text.search cn with
| Some (_, m, _) => m
| None => "h-2.5"
end
| None => "h-2.5"
end.

(** [className.replace(/h-[\d.]+/, "")]: the first match is taken out. *)
Definition without_height (cn : string) : string :=
match Text.search cn with
| Some (before, _, rest) => before +:+ rest
| None => cn
end.

(** [const otherClasses = className?.replace(/h-[\d.]+/, "").trim() || ""] *)
Definition otherClasses (className : option string) : string :=
match className with
| Some cn => Js.trim (without_height cn)
| None => EmptyString
end.

(** [minWidth: percentage > 0 ? "4px" : "0"] *)
Definition minWidth (percentage : spec_float) : string :=
if Number.lt Number.zero percentage then "4px" else "0".

End Bar.

(* ===================================================================== *)
(** * The pages around the assistant                                       *)
(* ===================================================================== *)

(** What a page gets back from a [fetch] of JSON: the promise rejects, or
a response arrives with its [ok] flag and, when [response.json()] does
not throw, the value read from its body. *)
Inductive Reply (A : Type) :=
| Rejected
| Status (ok : bool) (json : option A).

Arguments Rejected {A}.
Arguments Status {A} ok json.

(** [x === y] on numbers: NaN equals nothing, and the two zeros are
equal. *)
Definition same_number (x y : spec_float) : bool := SFeqb x y.

(** [StatusBadge] and its use on the trip cards of [BusDashboard]. *)
Module StatusBadge.

Inductive Status := success | warning | error | info | pending | in_progress.

Definition is_in_progress (status : Status) : bool :=
match status with in_progress => true | _ => false end.

(** [animated && status === "in_progress" && "animate-pulse"] *)
Definition pulses (status : Status) (animated : bool) : bool :=
animated && is_in_progress status.

(** The icon, when shown: [status === "in_progress" && "animate-spin"] *)
Definition spins (status : Status) : bool := is_in_progress status.

End StatusBadge.

Module Dashboard.

(** [trip.live_status === lit], for a status that may be missing. *)
Definition status_is (live_status : option string) (lit : string) : bool :=
match live_status with
| Some s => String.eqb s lit
| None => false
end.

(** The [status] prop of the badge of a trip. *)
Definition badgeStatus (live_status : option string) : StatusBadge.Status :=
if status_is live_status "scheduled" then StatusBadge.success
else if status_is live_status "in_progress" || status_is live_status "in-progress"
then StatusBadge.in_progress
else if status_is live_status "completed" then StatusBadge.info
else if status_is live_status "cancelled" then StatusBadge.error
else StatusBadge.pending.

(** The [animated] prop of the badge of a trip. *)
Definition badgeAnimated (live_status : option string) : bool :=
status_is live_status "in_progress" || status_is live_status "in-progress".

(** [trip.booking_status_percentage || 0], for a percentage that may be
missing. *)
Definition bookingValue (booking : option spec_float) : spec_float :=
match booking with
| Some x => if Js.truthy (Js.Num x) then x else Number.zero
| None => Number.zero
end.

(** The fill of [<ProgressBar value={trip.booking_status_percentage || 0}
max={100} ... />]. *)
Definition tripFill (booking : option spec_float) : spec_float :=
ProgressBar.percentage (bookingValue booking) (Some Number.hundred).

End Dashboard.

(** The page [StopsPaths]. *)
Module StopsPaths.

Record Stop := {
stop_id : spec_float;
name : string;
latitude : spec_float;
longitude : spec_float;
}.

Record StopCreate := {
new_name : string;
new_latitude : spec_float;
new_longitude : spec_float;
}.

Record PathStop := {
path_stop_id : spec_float;
stop_order : spec_float;
}.

Record Path := {
path_id : spec_float;
path_name : string;
stops : list PathStop;
}.

Inductive DeleteType := stop | path.

Definition type_name (t : DeleteType) : string :=
match t with stop => "stop" | path => "path" end.

(** The state cells that the handlers below read or write; the cells
[loading], [stopModalOpen], [pathModalOpen] and [editingPath] are not
among them. *)
Record State := {
stopsList : list Stop;
pathsList : list Path;
editingStop : option Stop;
deleteDialogOpen : bool;
deleteType : DeleteType;
deletingId : option spec_float;
searchTerm : string;
}.

(** What a handler does besides updating the state: its request and its
toast. *)
Inductive Call :=
| FetchDelete (what : DeleteType) (id : option spec_float)
| FetchPutStop (id : spec_float) (data : StopCreate)
| FetchPostStop (data : StopCreate)
| Toast (title : string) (description : option string) (destructive : bool).

Definition setStopsList (v : list Stop) (st : State) : State :=
{| stopsList := v; pathsList := pathsList st; editingStop := editingStop st;
deleteDialogOpen := deleteDialogOpen st; deleteType := deleteType st;
deletingId := deletingId st; searchTerm := searchTerm st |}.

Definition setPathsList (v : list Path) (st : State) : State :=
{| stopsList := stopsList st; pathsList := v; editingStop := editingStop st;
deleteDialogOpen := deleteDialogOpen st; deleteType := deleteType st;
deletingId := deletingId st; searchTerm := searchTerm st |}.

Definition setEditingStop (v : option Stop) (st : State) : State :=
{| stopsList := stopsList st; pathsList := pathsList st; editingStop := v;
deleteDialogOpen := deleteDialogOpen st; deleteType := deleteType st;
deletingId := deletingId st; searchTerm := searchTerm st |}.

(** [setDeleteDialogOpen(false); setDeletingId(null)] *)
Definition closeDeleteDialog (st : State) : State :=
{| stopsList := stopsList st; pathsList := pathsList st; editingStop := editingStop st;
deleteDialogOpen := false; deleteType := deleteType st;
deletingId := None; searchTerm := searchTerm st |}.

(** [id !== deletingId], where [deletingId] is a number or [null]. *)
Definition other_than (deletingId : option spec_float) (id : spec_float) : bool :=
match deletingId with
| Some d => negb (same_number id d)
| None => true
end.

(** [handleDelete]: the [try] with its [catch], then the [finally]. *)
Definition handleDelete (answer : Reply unit) (st : State) : State * list Call :=
let request := FetchDelete (deleteType st) (deletingId st) in
let '(st1, calls) :=
match answer with
| Status true _ =>
match deleteType st with
| stop =>
  (setStopsList
     (List.filter (λ s, other_than (deletingId st) (stop_id s)) (stopsList st)) st,
   [request; Toast "Stop deleted successfully!" None false])
| path =>
  (setPathsList
     (List.filter (λ p, other_than (deletingId st) (path_id p)) (pathsList st)) st,
   [request; Toast "Path deleted successfully!" None false])
end
| _ =>
(st, [request;
    Toast "Error" (Some ("Failed to delete " +:+ type_name (deleteType st))) true])
end in
(closeDeleteDialog st1, calls).

(** [handleEditStop].  The body of the response is taken for the stop it
is typed as. *)
Definition handleEditStop (data : StopCreate) (answer : Reply Stop) (st : State)
: State * list Call :=
match editingStop st with
| None => (st, [])
| Some editing =>
let request := FetchPutStop (stop_id editing) data in
match answer with
| Status true (Some updatedStop) =>
  (setEditingStop None
     (setStopsList
        (map (λ s, if same_number (stop_id s) (stop_id editing)
                   then updatedStop else s)
             (stopsList st)) st),
   [request; Toast "Stop updated successfully!" None false])
| _ => (st, [request; Toast "Error" (Some "Failed to update stop") true])
end
end.

(** [handleCreateStop] *)
Definition handleCreateStop (data : StopCreate) (answer : Reply Stop) (st : State)
: State * list Call :=
match answer with
| Status true (Some newStop) =>
(setStopsList (stopsList st ++ [newStop]) st,
[FetchPostStop data; Toast "Stop created successfully!" None false])
| _ => (st, [FetchPostStop data; Toast "Error" (Some "Failed to create stop") true])
end.

(** [stopsList.filter((stop) =>
stop.name.toLowerCase().includes(searchTerm.toLowerCase()))] *)
Definition filteredStops (st : State) : list Stop :=
List.filter
(λ s, Js.includes (Text.toLowerCase (name s)) (Text.toLowerCase (searchTerm st)))
(stopsList st).

(** The edit dialog of a stop is [open={!!editingStop}]. *)
Definition editDialogOpen (st : State) : bool :=
match editingStop st with Some _ => true | None => false end.

End StopsPaths.

(** The component [NotificationCenter]. *)
Module NotificationCenter.

Inductive Kind := success | error | warning | info.

Record Notification := {
id : string;
type : Kind;
title : string;
message : string;
timestamp : Z;
read : bool;
}.

(** [notifications.filter(n => !n.read).length] *)
Definition unreadCount (notifications : list Notification) : nat :=
length (List.filter (λ n, negb (read n)) notifications).

(** [prev.map(n => n.id === id ? { ...n, read: true } : n)] *)
Definition markAsRead (i : string) (prev : list Notification) : list Notification :=
map (λ n, if String.eqb (id n) i
    then {| id := id n; type := type n; title := title n;
            message := message n; timestamp := timestamp n; read := true |}
    else n) prev.

(** [prev.filter(n => n.id !== id)] *)
Definition removeNotification (i : string) (prev : list Notification)
: list Notification :=
List.filter (λ n, negb (String.eqb (id n) i)) prev.

(** The red dot on the bell: [unreadCount > 0]. *)
Definition dotShown (notifications : list Notification) : bool :=
Nat.ltb 0 (unreadCount notifications).

End NotificationCenter.

(** The page [Analytics]: the figures computed in [fetchAllData]. *)
Module Analytics.

(** A trip, with the two fields the figures read. *)
Record DailyTrip := {
live_status : option string;
booking_status_percentage : spec_float;
}.

Record AnalyticsData := {
totalTrips : nat;
totalVehicles : nat;
activeVehicles : nat;
totalDrivers : nat;
totalRoutes : nat;
activeRoutes : nat;
totalStops : nat;
totalPaths : nat;
totalDeployments : nat;
avgBookingRate : spec_float;
scheduledTrips : nat;
inProgressTrips : nat;
completedTrips : nat;
cancelledTrips : nat;
}.

Definition count {A : Type} (f : A → bool) (l : list A) : nat :=
length (List.filter f l).

Definition add (x y : spec_float) : spec_float :=
SFadd Number.prec Number.emax x y.

(** [tripsData.length > 0 ? tripsData.reduce((sum, trip) =>
sum + trip.booking_status_percentage, 0) / tripsData.length : 0] *)
Definition avgBooking (tripsData : list DailyTrip) : spec_float :=
if Nat.ltb 0 (length tripsData)
then Number.div
 (fold_left (λ sum trip, add sum (booking_status_percentage trip))
            tripsData Number.zero)
 (Number.of_Z (Z.of_nat (length tripsData)))
else Number.zero.

(** The argument of [setAnalytics].  Of a route and of a vehicle only the
[status] is read, which may be missing; of the drivers, stops, paths and
deployments only their number. *)
Definition figures {D S P Q : Type} (tripsData : list DailyTrip)
(routesData vehiclesData : list (option string))
(driversData : list D) (stopsData : list S) (pathsData : list P)
(deploymentsData : list Q) : AnalyticsData :=
{| totalTrips := length tripsData;
totalVehicles := length vehiclesData;
activeVehicles := count (λ v, Dashboard.status_is v "active") vehiclesData;
totalDrivers := length driversData;
totalRoutes := length routesData;
activeRoutes := count (λ r, Dashboard.status_is r "active") routesData;
totalStops := length stopsData;
totalPaths := length pathsData;
totalDeployments := length deploymentsData;
avgBookingRate := avgBooking tripsData;
scheduledTrips :=
count (λ t, Dashboard.status_is (live_status t) "scheduled") tripsData;
inProgressTrips :=
count (λ t, Dashboard.status_is (live_status t) "in_progress"
           || Dashboard.status_is (live_status t) "in-progress") tripsData;
completedTrips :=
count (λ t, Dashboard.status_is (live_status t) "completed") tripsData;
cancelledTrips :=
count (λ t, Dashboard.status_is (live_status t) "cancelled") tripsData |}.

End Analytics.

(* ===================================================================== *)
(** * The embedding on concrete inputs                                     *)
(* ===================================================================== *)

Example split_lines :
Js.split ("ab" +:+ String "010" "cd" +:+ String "010" EmptyString) (String "010" EmptyString)
= ["ab"; "cd"; EmptyString].
Proof. reflexivity. Qed.

Example split_data_url :
Js.split "data:image/png;base64,iVBORw0KGgo" "base64," = ["data:image/png;"; "iVBORw0KGgo"].
Proof. reflexivity. Qed.

Example split_overlapping : Js.split "aaa" "aa" = [EmptyString; "a"].
Proof. reflexivity. Qed.

Example trim_blank : Js.trim (String "009" "  ") = EmptyString.
Proof. reflexivity. Qed.

Example trim_inner : Js.trim "  list all  vehicles " = "list all  vehicles".
Proof. reflexivity. Qed.

Example page_of_buses : Chat.detectedPage "/dashboard/buses" = "busDashboard".
Proof. reflexivity. Qed.

Example page_of_stops : Chat.detectedPage "/dashboard/stops-paths" = "stops_paths".
Proof. reflexivity. Qed.

Example page_of_analytics : Chat.detectedPage "/dashboard/analytics" = "unknown".
Proof. reflexivity. Qed.

Example page_first_match : Chat.detectedPage "/dashboard/drivers/buses" = "busDashboard".
Proof. reflexivity. Qed.

Example base64_of_data_url :
Chat.base64Data "data:image/png;base64,iVBORw0KGgo" = Some "iVBORw0KGgo".
Proof. reflexivity. Qed.

Example base64_of_bare_data : Chat.base64Data "iVBORw0KGgo" = Some "iVBORw0KGgo".
Proof. reflexivity. Qed.

Example voice_error_text :
Chat.formattedError ("Microphone access was denied." +:+ String "010" "Allow it.")
= "**Voice Error:** Microphone access was denied." +:+ String "010" "Allow it.".
Proof. reflexivity. Qed.

Example fill_of_75 : ProgressBar.percentage (Number.of_Z 75) None = Number.of_Z 75.
Proof. reflexivity. Qed.

Example fill_of_negative : ProgressBar.percentage (Number.of_Z (-5)) None = Number.zero.
Proof. reflexivity. Qed.

Example fill_of_3_out_of_4 :
ProgressBar.percentage (Number.of_Z 3) (Some (Number.of_Z 4)) = Number.of_Z 75.
Proof. reflexivity. Qed.

Example fill_over_zero :
ProgressBar.percentage (Number.of_Z 1) (Some Number.zero) = Number.hundred.
Proof. reflexivity. Qed.

Example max_of_zeros : Number.Math_max (S754_zero true) Number.zero = S754_zero false.
Proof. reflexivity. Qed.

Example connect_with_session (h : Voice.Hook) :
Voice.connectWebSocket h "chat-session-1" "routes" Voice.initial
= (Voice.setWebsocketRef
     (Some {| Voice.readyState := Voice.CONNECTING;
              Voice.init_session_id := "chat-session-1";
              Voice.init_context_page := "routes" |}) Voice.initial,
   [Net.NewWebSocket]).
Proof. reflexivity. Qed.

(* ===================================================================== *)
(** * Properties                                                           *)
(* ===================================================================== *)

(** ** Strings *)

Lemma string_app_cons (c : ascii) (s t : string) : String c s +:+ t = String c (s +:+ t).
Proof. reflexivity. Qed.

Lemma string_app_nil_l (s : string) : EmptyString +:+ s = s.
Proof. reflexivity. Qed.

Lemma string_app_nil_r (s : string) : s +:+ EmptyString = s.
Proof.
  induction s as [|c s IH]; [done|]. by rewrite string_app_cons, IH.
Qed.

Lemma string_app_assoc (s t u : string) : (s +:+ t) +:+ u = s +:+ t +:+ u.
Proof.
  induction s as [|c s IH]; [done|]. by rewrite !string_app_cons, IH.
Qed.

(** [sub] occurs in [s]: some text, then [sub], then some text. *)
Definition Contains (s sub : string) : Prop :=
  ∃ pre post, s = pre +:+ sub +:+ post.

Lemma startsWith_spec (s p : string) :
  Js.startsWith s p = true ↔ ∃ t, s = p +:+ t.
Proof.
  revert s. induction p as [|a p IH]; intros s; simpl.
  - split; [intros _; exists s; reflexivity|by intros _].
  - destruct s as [|b s]; simpl.
    + split; [done|intros [t Ht]; discriminate Ht].
    + destruct (Ascii.eqb a b) eqn:E.
      * apply Ascii.eqb_eq in E as ->. rewrite IH. split.
        -- intros [t ->]. exists t. reflexivity.
        -- intros [t Ht]. rewrite string_app_cons in Ht.
           injection Ht as ->. by exists t.
      * split; [done|]. intros [t Ht]. rewrite string_app_cons in Ht.
        injection Ht as -> _. by rewrite Ascii.eqb_refl in E.
Qed.

Lemma includes_spec (s sub : string) : Js.includes s sub = true ↔ Contains s sub.
Proof.
  induction s as [|c s IH]; simpl.
  - rewrite orb_false_r, startsWith_spec. split.
    + intros [t Ht]. exists EmptyString, t. exact Ht.
    + intros (pre & post & H). destruct pre; [by exists post|discriminate H].
  - rewrite orb_true_iff, IH, startsWith_spec. split.
    + intros [[t Ht]|(pre & post & ->)].
      * exists EmptyString, t. exact Ht.
      * exists (String c pre), post. reflexivity.
    + intros (pre & post & H). destruct pre as [|c' pre].
      * left. by exists post.
      * right. rewrite string_app_cons in H. injection H as -> ->.
        by exists pre, post.
Qed.

Global Instance Contains_dec (s sub : string) : Decision (Contains s sub).
Proof.
  destruct (Js.includes s sub) eqn:E.
  - left. by apply includes_spec.
  - right. intros H%includes_spec. congruence.
Defined.

(** ** What the pieces of a handler leave alone *)

(** The two cells that identify the conversation to the backend. *)
Definition identity (st : Chat.State) : string * string :=
  (Chat.chatSessionId st, Chat.currentContextPage st).

(** An observation of the component that looks neither at the messages
    nor at the dialog. *)
Definition blind {A : Type} (proj : Chat.State → A) : Prop :=
  (∀ f st, proj (Chat.setChatMessages f st) = proj st) ∧
  (∀ c st, proj (Chat.setConfirmationState c st) = proj st).

(** A piece of a handler keeps an observation. *)
Definition keeps {A : Type} (proj : Chat.State → A)
    (f : Chat.Progress → Chat.Progress) : Prop :=
  ∀ p, proj (Chat.ui (f p)) = proj (Chat.ui p).

Definition keeps_identity : (Chat.Progress → Chat.Progress) → Prop := keeps identity.

Lemma blind_identity : blind identity.
Proof. by split. Qed.

Lemma blind_isProcessing : blind Chat.isProcessing.
Proof. by split. Qed.

Lemma blind_image : blind (λ st, (Chat.uploadedImage st, Chat.imagePreviewUrl st)).
Proof. by split. Qed.

Section Keeps.
Context {A : Type} (proj : Chat.State → A) (Hblind : blind proj).
Context (JSON_parse : string → option Js.value).
Context (number_to_string : spec_float → string).

Lemma keeps_compose (f g : Chat.Progress → Chat.Progress) :
keeps proj f → keeps proj g → keeps proj (λ p, f (g p)).
Proof. intros Hf Hg p. by rewrite Hf, Hg. Qed.

Lemma keeps_push (m : Chat.Message) : keeps proj (Chat.with_ui (Chat.push m)).
Proof. intros p. apply Hblind. Qed.

Lemma keeps_on_token (piece : string) : keeps proj (Chat.on_token piece).
Proof.
intros p. unfold Chat.on_token.
destruct (Chat.write_last _ _); [apply Hblind|done].
Qed.

Lemma keeps_emit (e : Net.Effect) : keeps proj (Chat.emit e).
Proof. by intros p. Qed.

Lemma keeps_send_catch (now : Z) : keeps proj (Chat.send_catch now).
Proof. intros p. apply Hblind. Qed.

Lemma keeps_confirm_catch (now : Z) : keeps proj (Chat.confirm_catch now).
Proof. intros p. apply Hblind. Qed.

Lemma on_data_keeps (c : bool) (data : Js.value) (p p' : Chat.Progress) :
Chat.on_data number_to_string c data p = Some p' →
proj (Chat.ui p') = proj (Chat.ui p).
Proof.
unfold Chat.on_data. intros H.
destruct (Js.get data "type") as [ty|]; simpl in H; [|done].
destruct (Js.is_str ty "token").
{ destruct (Js.get data "content") as [piece|]; simpl in H; [|done].
destruct (Js.to_string number_to_string piece) as [text|]; simpl in H; [|done].
injection H as <-. apply keeps_on_token. }
destruct (c && Js.is_str ty "confirmation").
{ destruct (Js.get data "payload") as [payload|]; simpl in H; [|done].
destruct (Js.get payload "message") as [msg|]; simpl in H; [|done].
injection H as <-. apply Hblind. }
destruct (Js.is_str ty "error"); by injection H as <-.
Qed.

Lemma keeps_on_line (c : bool) (line : string) :
keeps proj (λ p, Chat.on_line JSON_parse number_to_string c p line).
Proof.
intros p. unfold Chat.on_line.
destruct (negb _); [done|].
destruct (JSON_parse line) as [data|]; simpl; [|done].
destruct (Chat.on_data _ _ _ _) as [p'|] eqn:E; [|done].
by eapply on_data_keeps.
Qed.

Lemma keeps_on_chunk (c : bool) (chunk : string) :
keeps proj (λ p, Chat.on_chunk JSON_parse number_to_string c p chunk).
Proof.
intros p. unfold Chat.on_chunk.
generalize (Js.split chunk (String "010" EmptyString)). intros lines.
revert p. induction lines as [|line lines IH]; intros p; simpl; [done|].
rewrite IH. apply keeps_on_line.
Qed.

Lemma keeps_chunks (c : bool) (chunks : list string) :
keeps proj (λ p, fold_left (Chat.on_chunk JSON_parse number_to_string c) chunks p).
Proof.
induction chunks as [|chunk chunks IH]; intros p; simpl; [done|].
rewrite IH. apply keeps_on_chunk.
Qed.

(** From the request to the end of the handler only [finally] is left to
judge: an observation that does not look at the processing flag is
kept by the whole rest of the handler. *)
Lemma keeps_complete (c : bool) (catch : Z → Chat.Progress → Chat.Progress)
(net : Chat.Answer) :
keeps proj Chat.finally →
(∀ now, keeps proj (catch now)) →
keeps proj (Chat.complete JSON_parse number_to_string c catch net).
Proof.
intros Hfinally Hcatch p. unfold Chat.complete.
destruct (Chat.fetched net) as [|response].
{ by rewrite Hfinally, Hcatch. }
destruct (negb (Net.ok response)).
{ by rewrite Hfinally, Hcatch. }
destruct (Net.body response) as [b|].
- destruct (Net.ending b);
  rewrite Hfinally, ?Hcatch, keeps_chunks; apply Hblind.
- rewrite Hfinally, Hcatch. apply Hblind.
Qed.

End Keeps.

Lemma keeps_identity_on_token (piece : string) : keeps_identity (Chat.on_token piece).
Proof. apply keeps_on_token, blind_identity. Qed.

Lemma keeps_identity_emit (e : Net.Effect) : keeps_identity (Chat.emit e).
Proof. apply keeps_emit. Qed.

Lemma keeps_identity_finally : keeps_identity Chat.finally.
Proof. by intros p. Qed.

Lemma keeps_identity_send_catch (now : Z) : keeps_identity (Chat.send_catch now).
Proof. apply keeps_send_catch, blind_identity. Qed.

Lemma keeps_identity_confirm_catch (now : Z) : keeps_identity (Chat.confirm_catch now).
Proof. apply keeps_confirm_catch, blind_identity. Qed.

Lemma keeps_identity_compose (f g : Chat.Progress → Chat.Progress) :
  keeps_identity f → keeps_identity g → keeps_identity (λ p, f (g p)).
Proof. apply keeps_compose. Qed.

Section Identity.
Context (JSON_parse : string → option Js.value).
Context (number_to_string : spec_float → string).

Lemma keeps_identity_on_chunk (c : bool) (chunk : string) :
keeps_identity (λ p, Chat.on_chunk JSON_parse number_to_string c p chunk).
Proof. apply keeps_on_chunk, blind_identity. Qed.

Lemma keeps_identity_complete (c : bool) (catch : Z → Chat.Progress → Chat.Progress)
(net : Chat.Answer) :
(∀ now, keeps_identity (catch now)) →
keeps_identity (Chat.complete JSON_parse number_to_string c catch net).
Proof.
intros H. apply keeps_complete; [apply blind_identity|apply keeps_identity_finally|done].
Qed.

Lemma send_begin_identity (now : Z) (st st1 : Chat.State) (b : Net.ChatBody) :
Chat.send_begin now st = Some (st1, b) →
identity st1 = identity st ∧
(Net.session_id b, Net.context_page b) = identity st.
Proof.
unfold Chat.send_begin. destruct (Chat.send_refused st); [done|].
intros H. by injection H as <- <-.
Qed.

Lemma confirm_begin_identity (now : Z) (confirmed : bool) (st : Chat.State) :
identity (Chat.confirm_begin now confirmed st).1 = identity st ∧
(Net.session_id (Chat.confirm_begin now confirmed st).2,
Net.context_page (Chat.confirm_begin now confirmed st).2) = identity st.
Proof. done. Qed.

Lemma handleSend_identity (now : Z) (net : Chat.Answer) (st : Chat.State) :
identity (Chat.ui (Chat.handleSend JSON_parse number_to_string now net st)) = identity st.
Proof.
unfold Chat.handleSend.
destruct (Chat.send_begin now st) as [[st1 b]|] eqn:E; [|done].
rewrite keeps_identity_complete by apply keeps_identity_send_catch.
apply send_begin_identity in E as [E _]. exact E.
Qed.

(** The requests a handler has logged all carry the identity [id]. *)
Definition requests_of (id : string * string) (es : list Net.Effect) : Prop :=
Forall (λ b, (Net.session_id b, Net.context_page b) = id) (Net.chat_requests es).

Lemma requests_of_app (id : string * string) (es es' : list Net.Effect) :
requests_of id (es ++ es') ↔ requests_of id es ∧ requests_of id es'.
Proof. unfold requests_of, Net.chat_requests. by rewrite omap_app, Forall_app. Qed.

(** The pieces after the [fetch] send nothing to the chat endpoint. *)
Definition silent (f : Chat.Progress → Chat.Progress) : Prop :=
∀ p, Net.chat_requests (Chat.log (f p)) = Net.chat_requests (Chat.log p).

Lemma silent_on_token (piece : string) : silent (Chat.on_token piece).
Proof. intros p. unfold Chat.on_token. by destruct (Chat.write_last _ _). Qed.

Lemma silent_emit_console (label : string) : silent (Chat.emit (Net.ConsoleError label)).
Proof.
intros p. simpl. unfold Net.chat_requests. rewrite omap_app. simpl.
by rewrite app_nil_r.
Qed.

Lemma silent_finally : silent Chat.finally.
Proof. by intros p. Qed.

Lemma silent_send_catch (now : Z) : silent (Chat.send_catch now).
Proof. intros p. unfold Chat.send_catch. simpl. apply silent_emit_console. Qed.

Lemma silent_confirm_catch (now : Z) : silent (Chat.confirm_catch now).
Proof. intros p. unfold Chat.confirm_catch. simpl. apply silent_emit_console. Qed.

Lemma on_data_silent (c : bool) (data : Js.value) (p p' : Chat.Progress) :
Chat.on_data number_to_string c data p = Some p' →
Net.chat_requests (Chat.log p') = Net.chat_requests (Chat.log p).
Proof.
unfold Chat.on_data. intros H.
destruct (Js.get data "type") as [ty|]; simpl in H; [|done].
destruct (Js.is_str ty "token").
{ destruct (Js.get data "content") as [piece|]; simpl in H; [|done].
destruct (Js.to_string number_to_string piece) as [text|]; simpl in H; [|done].
injection H as <-. apply silent_on_token. }
destruct (c && Js.is_str ty "confirmation").
{ destruct (Js.get data "payload") as [payload|]; simpl in H; [|done].
destruct (Js.get payload "message") as [msg|]; simpl in H; [|done].
by injection H as <-. }
destruct (Js.is_str ty "error"); injection H as <-; [|done].
apply silent_emit_console.
Qed.

Lemma silent_on_line (c : bool) (line : string) :
silent (λ p, Chat.on_line JSON_parse number_to_string c p line).
Proof.
intros p. unfold Chat.on_line.
destruct (negb _); [done|].
destruct (JSON_parse line) as [data|]; simpl; [|apply silent_emit_console].
destruct (Chat.on_data _ _ _ _) as [p'|] eqn:E; [|apply silent_emit_console].
by eapply on_data_silent.
Qed.

Lemma silent_on_chunk (c : bool) (chunk : string) :
silent (λ p, Chat.on_chunk JSON_parse number_to_string c p chunk).
Proof.
intros p. unfold Chat.on_chunk.
generalize (Js.split chunk (String "010" EmptyString)). intros lines.
revert p. induction lines as [|line lines IH]; intros p; simpl; [done|].
rewrite IH. apply silent_on_line.
Qed.

Lemma silent_chunks (c : bool) (chunks : list string) :
silent (λ p, fold_left (Chat.on_chunk JSON_parse number_to_string c) chunks p).
Proof.
induction chunks as [|chunk chunks IH]; intros p; simpl; [done|].
rewrite IH. apply silent_on_chunk.
Qed.

Lemma silent_complete (c : bool) (catch : Z → Chat.Progress → Chat.Progress)
(net : Chat.Answer) :
(∀ now, silent (catch now)) →
silent (Chat.complete JSON_parse number_to_string c catch net).
Proof.
intros Hcatch p. unfold Chat.complete.
destruct (Chat.fetched net) as [|response].
{ by rewrite silent_finally, Hcatch. }
destruct (negb (Net.ok response)).
{ by rewrite silent_finally, Hcatch. }
destruct (Net.body response) as [b|].
- destruct (Net.ending b);
  rewrite silent_finally, ?Hcatch, silent_chunks; done.
- by rewrite silent_finally, Hcatch.
Qed.

End Identity.

(** ** The transition system keeps the identity and stamps every request *)

Section LoopIdentity.
Context (JSON_parse : string → option Js.value).
Context (number_to_string : spec_float → string).

Lemma advance_identity (i : nat) (r : Loop.Run) (next : Loop.Phase)
(f : Chat.Progress → Chat.Progress) (m : Loop.Machine) :
keeps_identity f → silent f →
identity (Loop.ui (Loop.advance i r next f m)) = identity (Loop.ui m) ∧
Net.chat_requests (Loop.trace (Loop.advance i r next f m))
= Net.chat_requests (Loop.trace m).
Proof.
intros Hid Hsilent. unfold Loop.advance. simpl. split.
- by rewrite Hid.
- by rewrite Hsilent.
Qed.

Lemma keeps_identity_catch_of (k : Loop.RunKind) (now : Z) :
keeps_identity (Loop.catch_of k now).
Proof. destruct k; [apply keeps_identity_send_catch|apply keeps_identity_confirm_catch]. Qed.

Lemma silent_catch_of (k : Loop.RunKind) (now : Z) : silent (Loop.catch_of k now).
Proof. destruct k; [apply silent_send_catch|apply silent_confirm_catch]. Qed.

Lemma keeps_identity_placeholder (now : Z) :
keeps_identity (Chat.with_ui (Chat.push (Chat.placeholder now))).
Proof. by intros p. Qed.

Lemma silent_placeholder (now : Z) :
silent (Chat.with_ui (Chat.push (Chat.placeholder now))).
Proof. by intros p. Qed.

Lemma silent_compose (f g : Chat.Progress → Chat.Progress) :
silent f → silent g → silent (λ p, f (g p)).
Proof. intros Hf Hg p. by rewrite Hf, Hg. Qed.

(** One step: the identity stays, and a request that is sent carries it. *)
Lemma step_identity (ev : Loop.Event) (m : Loop.Machine) :
identity (Loop.ui (Loop.step JSON_parse number_to_string ev m)) = identity (Loop.ui m) ∧
(requests_of (identity (Loop.ui m)) (Loop.trace m) →
requests_of (identity (Loop.ui m))
           (Loop.trace (Loop.step JSON_parse number_to_string ev m))).
Proof.
assert (Hadv : ∀ i r next f,
keeps_identity f → silent f →
identity (Loop.ui (Loop.advance i r next f m)) = identity (Loop.ui m) ∧
(requests_of (identity (Loop.ui m)) (Loop.trace m) →
 requests_of (identity (Loop.ui m)) (Loop.trace (Loop.advance i r next f m)))).
{ intros i r next f Hid Hs.
destruct (advance_identity i r next f m Hid Hs) as [H1 H2].
split; [done|]. unfold requests_of. by rewrite H2. }
destruct ev as [text|data| |now|now confirmed|i now a|i chunk|i|i now]; simpl;
try done.
- destruct (Chat.send_begin now (Loop.ui m)) as [[st b]|] eqn:E; [|done].
apply send_begin_identity in E as [E1 E2]. simpl. split; [done|].
intros H. apply requests_of_app. split; [done|].
by repeat constructor.
- destruct (Chat.isVoiceActive _); [done|]. simpl. split; [done|].
intros H. apply requests_of_app. split; [done|].
by repeat constructor.
- destruct (Loop.runs m !! i) as [r|]; [|done].
destruct (Loop.phase r); [|done..].
destruct a as [|[] []].
+ apply Hadv.
  * apply keeps_identity_compose;
      [apply keeps_identity_finally|apply keeps_identity_catch_of].
  * apply silent_compose; [apply silent_finally|apply silent_catch_of].
+ apply Hadv; [apply keeps_identity_placeholder|apply silent_placeholder].
+ apply Hadv.
  * apply keeps_identity_compose; [apply keeps_identity_finally|].
    apply keeps_identity_compose;
      [apply keeps_identity_catch_of|apply keeps_identity_placeholder].
  * apply silent_compose; [apply silent_finally|].
    apply silent_compose; [apply silent_catch_of|apply silent_placeholder].
+ apply Hadv.
  * apply keeps_identity_compose;
      [apply keeps_identity_finally|apply keeps_identity_catch_of].
  * apply silent_compose; [apply silent_finally|apply silent_catch_of].
+ apply Hadv.
  * apply keeps_identity_compose;
      [apply keeps_identity_finally|apply keeps_identity_catch_of].
  * apply silent_compose; [apply silent_finally|apply silent_catch_of].
- destruct (Loop.runs m !! i) as [r|]; [|done].
destruct (Loop.phase r); [done| |done].
apply Hadv; [apply keeps_identity_on_chunk|apply silent_on_chunk].
- destruct (Loop.runs m !! i) as [r|]; [|done].
destruct (Loop.phase r); [done| |done].
apply Hadv; [apply keeps_identity_finally|apply silent_finally].
- destruct (Loop.runs m !! i) as [r|]; [|done].
destruct (Loop.phase r); [done| |done].
apply Hadv.
+ apply keeps_identity_compose;
    [apply keeps_identity_finally|apply keeps_identity_catch_of].
+ apply silent_compose; [apply silent_finally|apply silent_catch_of].
Qed.

Lemma exec_identity (evs : list Loop.Event) (m : Loop.Machine) :
requests_of (identity (Loop.ui m)) (Loop.trace m) →
identity (Loop.ui (Loop.exec JSON_parse number_to_string evs m)) = identity (Loop.ui m) ∧
requests_of (identity (Loop.ui m))
          (Loop.trace (Loop.exec JSON_parse number_to_string evs m)).
Proof.
revert m. induction evs as [|ev evs IH]; intros m H; [done|]. simpl.
destruct (step_identity ev m) as [H1 H2].
specialize (IH (Loop.step JSON_parse number_to_string ev m)).
rewrite H1 in IH. apply IH, H2, H.
Qed.

End LoopIdentity.

(** ** The page sent with every request *)

Definition pages : list string :=
  ["busDashboard"; "routes"; "stops_paths"; "vehicles"; "drivers"; "unknown"].

(** C6. The page of the component is a total function of the pathname,
    decided by the first of [/buses], [/routes], [/stops-paths],
    [/vehicles], [/drivers] that occurs in it and [unknown] when none does;
    it is one of six values, and once the component is mounted every chat
    request, whatever the user and the network do, carries exactly it. *)
Theorem context_page_of_pathname (pathname : string) :
  Chat.detectedPage pathname
  = (if decide (Contains pathname "/buses") then "busDashboard"
     else if decide (Contains pathname "/routes") then "routes"
     else if decide (Contains pathname "/stops-paths") then "stops_paths"
     else if decide (Contains pathname "/vehicles") then "vehicles"
     else if decide (Contains pathname "/drivers") then "drivers"
     else "unknown")
  ∧ Chat.detectedPage pathname ∈ pages
  ∧ ∀ JSON_parse number_to_string now stamp rnd evs,
      Forall (λ body, Net.context_page body = Chat.detectedPage pathname)
        (Net.chat_requests
           (Loop.trace
              (Loop.exec JSON_parse number_to_string evs
                 (Loop.boot (Chat.mount stamp rnd pathname (Chat.initial now)))))).
Proof.
  assert (Hcascade :
    Chat.detectedPage pathname
    = (if decide (Contains pathname "/buses") then "busDashboard"
       else if decide (Contains pathname "/routes") then "routes"
       else if decide (Contains pathname "/stops-paths") then "stops_paths"
       else if decide (Contains pathname "/vehicles") then "vehicles"
       else if decide (Contains pathname "/drivers") then "drivers"
       else "unknown")).
  { unfold Chat.detectedPage.
    repeat match goal with
    | |- context [Js.includes ?s ?sub] =>
        let E := fresh "E" in
        destruct (Js.includes s sub) eqn:E;
        [apply includes_spec in E
        |assert (¬ Contains s sub) by (rewrite <- includes_spec; congruence); clear E]
    end;
    repeat case_decide; done. }
  split; [exact Hcascade|]. split.
  - rewrite Hcascade. unfold pages. repeat case_decide; set_solver.
  - intros JSON_parse number_to_string now stamp rnd evs.
    set (m := Loop.boot _).
    destruct (exec_identity JSON_parse number_to_string evs m) as [_ H].
    { constructor. }
    eapply Forall_impl; [exact H|]. intros body Hb. simpl in Hb.
    by injection Hb as _ ->.
Qed.

(** ** The voice hook and the session id *)

(** [s] is empty or made of white space only. *)
Fixpoint only_white_space (s : string) : Prop :=
  match s with
  | EmptyString => True
  | String c s' => Js.is_white_space c = true ∧ only_white_space s'
  end.

Lemma trimStart_only_white_space (s : string) :
  only_white_space s ↔ Js.trimStart s = EmptyString.
Proof.
  induction s as [|c s IH]; simpl; [done|].
  destruct (Js.is_white_space c); [|split; [by intros [? _]|done]].
  rewrite <- IH. tauto.
Qed.

Lemma only_white_space_rev_app (s acc : string) :
  only_white_space (String.rev_app s acc) ↔ only_white_space s ∧ only_white_space acc.
Proof.
  revert acc. induction s as [|c s IH]; intros acc; simpl; [tauto|].
  rewrite IH. simpl. tauto.
Qed.

Lemma only_white_space_rev (s : string) :
  only_white_space (String.rev s) ↔ only_white_space s.
Proof. unfold String.rev. rewrite only_white_space_rev_app. simpl. tauto. Qed.

Lemma rev_app_empty (s acc : string) :
  String.rev_app s acc = EmptyString → s = EmptyString ∧ acc = EmptyString.
Proof.
  revert acc. induction s as [|c s IH]; intros acc; simpl; [done|].
  intros H. by apply IH in H as [_ ?].
Qed.

(** What [trimStart] leaves is empty or starts with a visible character. *)
Lemma trimStart_head (s : string) :
  match Js.trimStart s with
  | EmptyString => only_white_space s
  | String c _ => Js.is_white_space c = false
  end.
Proof.
  induction s as [|c s IH]; simpl; [done|].
  destruct (Js.is_white_space c) eqn:E; [|done].
  destruct (Js.trimStart s); [by split|done].
Qed.

Lemma trim_only_white_space (s : string) :
  only_white_space s ↔ Js.trim s = EmptyString.
Proof.
  unfold Js.trim, Js.trimEnd. split.
  - intros H. apply trimStart_only_white_space in H. by rewrite H.
  - intros H. apply rev_app_empty in H as [H _].
    rewrite <- trimStart_only_white_space, only_white_space_rev in H.
    pose proof (trimStart_head s) as Hhead.
    destruct (Js.trimStart s) as [|c t]; [done|].
    simpl in H, Hhead. destruct H as [H _]. congruence.
Qed.

(** The guard of the hook fires exactly on the blank session ids. *)
Lemma no_session_spec (sessionId : string) :
  Voice.no_session sessionId = true ↔ only_white_space sessionId.
Proof.
  unfold Voice.no_session. rewrite orb_true_iff, String.eqb_eq, <- trim_only_white_space.
  split; [|tauto]. intros [H|H]; [|done]. by destruct sessionId.
Qed.

(** Effects that touch neither the network nor the socket. *)
Definition console_only (e : Net.Effect) : Prop :=
  match e with
  | Net.ConsoleError _ | Net.ConsoleWarn _ | Net.ConsoleLog _ => True
  | _ => False
  end.

(** The hook holds no socket and owes no cleanup. *)
Definition unconnected (st : Voice.State) : Prop :=
  Voice.websocketRef st = None ∧ Voice.cleanup_pending st = false.

(** The socket of the hook, if any, was created for a session id that
    passed the guard. *)
Definition socket_has_session (st : Voice.State) : Prop :=
  ∀ sock, Voice.websocketRef st = Some sock →
          Voice.no_session (Voice.init_session_id sock) = false.

Definition init_frame_has_session (e : Net.Effect) : Prop :=
  match e with
  | Net.WsSend (Net.FrameInit sid _) => Voice.no_session sid = false
  | _ => True
  end.

Lemma stopAudio_websocketRef (st : Voice.State) :
  Voice.websocketRef (Voice.stopAudio st) = Voice.websocketRef st.
Proof. unfold Voice.stopAudio. by destruct (Voice.activeAudioRef st). Qed.

Lemma stopAudio_cleanup_pending (st : Voice.State) :
  Voice.cleanup_pending (Voice.stopAudio st) = Voice.cleanup_pending st.
Proof. unfold Voice.stopAudio. by destruct (Voice.activeAudioRef st). Qed.

Lemma stopAudio_effect_deps (st : Voice.State) :
  Voice.effect_deps (Voice.stopAudio st) = Voice.effect_deps st.
Proof. unfold Voice.stopAudio. by destruct (Voice.activeAudioRef st). Qed.

(** A render either commits or, when the hook throws, changes nothing. *)
Lemma render_cases (h : Voice.Hook) (sid ctx : string) (st : Voice.State) :
  Voice.render h sid ctx st = Voice.commit h sid ctx st
  ∨ Voice.render h sid ctx st = (st, []).
Proof. unfold Voice.render. destruct (Voice.hook_return h st); auto. Qed.

Lemma console_all (P : Net.Effect → Prop) (h : Voice.Hook) (e : Net.Effect) :
  P e → Forall P (Voice.console h e).
Proof. intros He. destruct h; by repeat constructor. Qed.

(** Effects one after the other: each piece is taken apart. *)
Ltac each_effect :=
  repeat first [ apply Forall_nil
               | apply Forall_app; split
               | apply Forall_cons; split
               | apply console_all ].

Section VoiceTraces.
Context (JSON_parse : string → option Js.value).
Context (h : Voice.Hook).

Lemma onmessage_websocketRef (now : Z) (raw : string) (st : Voice.State) :
Voice.websocketRef (Voice.onmessage JSON_parse h now raw st).1.1 = Voice.websocketRef st ∧
Voice.cleanup_pending (Voice.onmessage JSON_parse h now raw st).1.1
= Voice.cleanup_pending st ∧
Forall init_frame_has_session (Voice.onmessage JSON_parse h now raw st).1.2.
Proof.
unfold Voice.onmessage.
destruct (JSON_parse raw) as [data|]; [|by repeat constructor].
destruct (Js.get data "type") as [ty|]; [|by repeat constructor].
destruct h;
repeat match goal with
| |- context [if Js.is_str ty ?lit then _ else _] => destruct (Js.is_str ty lit)
end; simpl; try by (repeat constructor; simpl; auto).
all: destruct (_ && _); simpl;
rewrite ?stopAudio_websocketRef, ?stopAudio_cleanup_pending; simpl;
by repeat constructor.
Qed.

Lemma sendConfirmation_websocketRef (sid ctx : string) (now : Z) (b : bool)
(net : Voice.ConfirmAnswers) (st : Voice.State) :
Voice.websocketRef (Voice.sendConfirmation JSON_parse sid ctx now b net st).1.1
= Voice.websocketRef st ∧
Voice.cleanup_pending (Voice.sendConfirmation JSON_parse sid ctx now b net st).1.1
= Voice.cleanup_pending st ∧
Voice.effect_deps (Voice.sendConfirmation JSON_parse sid ctx now b net st).1.1
= Voice.effect_deps st.
Proof.
unfold Voice.sendConfirmation, Voice.confirmation_failed.
destruct (Voice.socket_open _); [|done].
destruct (Voice.chat_answer net) as [|response]; [done|].
destruct (_ ≫= _) as [reply|]; [|done].
destruct (Voice.tts_answer net) as [|ttsResponse]; [done|].
destruct (_ ≫= _) as [audio|]; [|done].
simpl.
by rewrite stopAudio_websocketRef, stopAudio_cleanup_pending, stopAudio_effect_deps.
Qed.

Lemma sendConfirmation_unconnected (sid ctx : string) (now : Z) (b : bool)
(net : Voice.ConfirmAnswers) (st : Voice.State) :
Voice.socket_open st = false →
(Voice.sendConfirmation JSON_parse sid ctx now b net st).1.2 = [].
Proof.
intros H. unfold Voice.sendConfirmation.
replace (Voice.socket_open _) with false; done.
Qed.

End VoiceTraces.

Section VoiceInvariants.
Context (JSON_parse : string → option Js.value).
Context (h : Voice.Hook).

Definition blank_render (ev : Voice.Event) : Prop :=
match ev with
| Voice.Render sid _ => only_white_space sid
| _ => True
end.

Lemma socket_open_unconnected (st : Voice.State) :
Voice.websocketRef st = None → Voice.socket_open st = false.
Proof. unfold Voice.socket_open. by intros ->. Qed.

Lemma step_unconnected (ev : Voice.Event) (st : Voice.State) :
unconnected st → blank_render ev →
unconnected (Voice.step JSON_parse h ev st).1 ∧
Forall console_only (Voice.step JSON_parse h ev st).2.
Proof.
intros [Href Hclean] Hev.
pose proof (socket_open_unconnected st Href) as Hopen.
destruct ev as [sid ctx| | |now raw|a|now b net]; simpl.
- apply no_session_spec in Hev.
destruct (render_cases h sid ctx st) as [-> | ->]; [|by split].
unfold Voice.commit, Voice.mountEffect. rewrite Hclean, Hev.
assert (Hctx : Voice.contextEffect ctx
                 (Voice.setEffectRun (sid, ctx) false st) = []).
{ unfold Voice.contextEffect.
  by rewrite (socket_open_unconnected (Voice.setEffectRun (sid, ctx) false st)). }
assert (Hwarn : ∀ tail : list Net.Effect, tail = [] →
          Forall console_only
            ([] ++ Voice.console h
                     (Net.ConsoleWarn "Session ID not ready, delaying WebSocket connection")
                ++ tail)).
{ intros tail ->. rewrite app_nil_r. by apply console_all. }
destruct (Voice.effect_deps st) as [[sid' ctx']|]; simpl.
+ destruct (negb (String.eqb sid' sid && String.eqb ctx' ctx)); simpl.
  * rewrite Hctx. split; [done|].
    apply (Hwarn (if negb (String.eqb ctx' ctx) then [] else [])).
    by destruct (negb (String.eqb ctx' ctx)).
  * by split.
+ rewrite Hctx. split; [done|]. by apply (Hwarn []).
- unfold Voice.onopen. rewrite Href. by split.
- unfold Voice.onclose. rewrite Href. by split.
- rewrite Hopen. by split.
- unfold Voice.recorderStopped. rewrite Hopen. by split.
- destruct (Voice.effect_deps st) as [[sid ctx]|]; [|by split].
pose proof (sendConfirmation_websocketRef JSON_parse sid ctx now b net st)
  as (H1 & H2 & _).
pose proof (sendConfirmation_unconnected JSON_parse sid ctx now b net st Hopen) as H3.
destruct (Voice.sendConfirmation _ _ _ _ _ _ _) as [[st' es] errs]. simpl in *.
subst es. split; [|done]. split; congruence.
Qed.

Lemma run_unconnected (evs : list Voice.Event) (st : Voice.State) :
unconnected st → Forall blank_render evs →
unconnected (Voice.run JSON_parse h evs st).1 ∧
Forall console_only (Voice.run JSON_parse h evs st).2.
Proof.
revert st. induction evs as [|ev evs IH]; intros st Hst Hevs; simpl; [by split|].
apply Forall_cons in Hevs as [Hev Hevs].
destruct (step_unconnected ev st Hst Hev) as [H1 H2].
destruct (Voice.step JSON_parse h ev st) as [st1 es1]. simpl in *.
destruct (IH st1 H1 Hevs) as [H3 H4].
destruct (Voice.run JSON_parse h evs st1) as [st2 es2]. simpl in *.
split; [done|]. by apply Forall_app.
Qed.

Lemma step_socket_has_session (ev : Voice.Event) (st : Voice.State) :
socket_has_session st →
socket_has_session (Voice.step JSON_parse h ev st).1 ∧
Forall init_frame_has_session (Voice.step JSON_parse h ev st).2.
Proof.
intros Hst.
destruct ev as [sid ctx| | |now raw|a|now b net]; simpl.
- destruct (render_cases h sid ctx st) as [-> | ->]; [|by split].
unfold Voice.commit.
destruct (match Voice.effect_deps st with
          | Some (sid', ctx') => negb (String.eqb sid' sid && String.eqb ctx' ctx)
          | None => true
          end); [|by split].
assert (Hclean : ∀ st1 es1,
  (if Voice.cleanup_pending st then Voice.mountCleanup st else (st, [])) = (st1, es1) →
  socket_has_session st1 ∧ Forall init_frame_has_session es1).
{ intros st1 es1. destruct (Voice.cleanup_pending st).
  - unfold Voice.mountCleanup.
    destruct (Voice.websocketRef st) as [sock|] eqn:Hsock.
    + intros H. injection H as <- <-. split.
      * intros sock'. rewrite stopAudio_websocketRef. simpl.
        intros H. injection H as <-. simpl. by apply Hst.
      * apply Forall_app. split; [|by repeat constructor].
        destruct (Voice.readyState sock); by repeat constructor.
    + intros H. injection H as <- <-. split; [|done].
      intros sock'. rewrite stopAudio_websocketRef. apply Hst.
  - intros H. by injection H as <- <-. }
destruct (if Voice.cleanup_pending st then _ else _) as [st1 es1].
destruct (Hclean st1 es1 eq_refl) as [Hst1 Hes1].
assert (Hctx : ∀ (due : bool) st',
  Forall init_frame_has_session
         (if due then Voice.contextEffect ctx st' else [])).
{ intros [] st'; [|done]. unfold Voice.contextEffect.
  destruct (Voice.socket_open st'); by repeat constructor. }
unfold Voice.mountEffect, Voice.connectWebSocket.
destruct (Voice.no_session sid) eqn:Hsid; simpl.
+ split; [done|]. each_effect; done.
+ split.
  * intros sock. simpl. intros H. by injection H as <-.
  * each_effect; done.
- unfold Voice.onopen.
destruct (Voice.websocketRef st) as [[[] sid ctx]|] eqn:Hsock; try by split.
split.
+ intros sock. simpl. intros H. injection H as <-. simpl.
  by apply (Hst _ Hsock).
+ each_effect; try done. simpl. by apply (Hst _ Hsock).
- unfold Voice.onclose.
destruct (Voice.websocketRef st) as [sock|] eqn:Hsock; [|by split].
split; [|by each_effect].
intros sock'. simpl. intros H. injection H as <-. simpl. by apply Hst.
- destruct (Voice.socket_open st); [|by split].
pose proof (onmessage_websocketRef JSON_parse h now raw st) as (H1 & _ & H3).
destruct (Voice.onmessage _ _ _ _) as [[st' es] errs]. simpl in *.
split; [|done]. intros sock. rewrite H1. apply Hst.
- unfold Voice.recorderStopped.
destruct (Voice.socket_open st); [|by split].
split; [exact Hst|by repeat constructor].
- destruct (Voice.effect_deps st) as [[sid ctx]|]; [|by split].
pose proof (sendConfirmation_websocketRef JSON_parse sid ctx now b net st)
  as (H1 & _ & _).
assert (H2 : Forall init_frame_has_session
               (Voice.sendConfirmation JSON_parse sid ctx now b net st).1.2).
{ unfold Voice.sendConfirmation, Voice.confirmation_failed.
  destruct (Voice.socket_open _); [|done].
  destruct (Voice.chat_answer net) as [|response]; [by repeat constructor|].
  destruct (_ ≫= _) as [reply|]; [|by repeat constructor].
  destruct (Voice.tts_answer net) as [|ttsResponse]; [by repeat constructor|].
  destruct (_ ≫= _) as [audio|]; by repeat constructor. }
destruct (Voice.sendConfirmation _ _ _ _ _ _ _) as [[st' es] errs]. simpl in *.
split; [|done]. intros sock. rewrite H1. apply Hst.
Qed.

Lemma run_socket_has_session (evs : list Voice.Event) (st : Voice.State) :
socket_has_session st →
socket_has_session (Voice.run JSON_parse h evs st).1 ∧
Forall init_frame_has_session (Voice.run JSON_parse h evs st).2.
Proof.
revert st. induction evs as [|ev evs IH]; intros st Hst; simpl; [by split|].
destruct (step_socket_has_session ev st Hst) as [H1 H2].
destruct (Voice.step JSON_parse h ev st) as [st1 es1]. simpl in *.
destruct (IH st1 H1) as [H3 H4].
destruct (Voice.run JSON_parse h evs st1) as [st2 es2]. simpl in *.
split; [done|]. by apply Forall_app.
Qed.

End VoiceInvariants.

(** C10. For a session id that is empty or white space only, both
    [connectWebSocket] and the mount effect return at their guard: the state
    is as before, the only effect is a warning on the console (in
    [useVoiceInteraction]; its twin [useVoiceChat] returns in silence), and
    no cleanup is registered.  As long as every render has such a session id
    the hook holds no socket and all it ever does is write to the console,
    whatever events arrive.  And whatever the renders are, every [init]
    frame the hook sends carries a session id that is not empty and not
    white space only.  This holds of either copy of the hook. *)
Theorem voice_session_needs_id (sessionId contextPage : string)
    (Hblank : only_white_space sessionId) :
  (∀ st, Voice.connectWebSocket Voice.useVoiceInteraction sessionId contextPage st
         = (st, [Net.ConsoleWarn "Cannot connect WebSocket without valid session ID"]))
  ∧ (∀ st, Voice.mountEffect Voice.useVoiceInteraction sessionId contextPage st
           = (st, false,
              [Net.ConsoleWarn "Session ID not ready, delaying WebSocket connection"]))
  ∧ (∀ st, Voice.connectWebSocket Voice.useVoiceChat sessionId contextPage st = (st, [])
           ∧ Voice.mountEffect Voice.useVoiceChat sessionId contextPage st
             = (st, false, []))
  ∧ (∀ JSON_parse h evs,
       Forall blank_render evs →
       Voice.websocketRef (Voice.run JSON_parse h evs Voice.initial).1 = None ∧
       Forall console_only (Voice.run JSON_parse h evs Voice.initial).2)
  ∧ (∀ JSON_parse h evs sid ctx,
       Net.WsSend (Net.FrameInit sid ctx) ∈ (Voice.run JSON_parse h evs Voice.initial).2 →
       sid ≠ EmptyString ∧ ¬ only_white_space sid).
Proof.
  apply no_session_spec in Hblank.
  split; [|split; [|split; [|split]]].
  - intros st. unfold Voice.connectWebSocket. by rewrite Hblank.
  - intros st. unfold Voice.mountEffect. by rewrite Hblank.
  - intros st. unfold Voice.mountEffect, Voice.connectWebSocket. by rewrite Hblank.
  - intros JSON_parse h evs Hevs.
    destruct (run_unconnected JSON_parse h evs Voice.initial) as [[H1 _] H2]; done.
  - intros JSON_parse h evs sid ctx Hin.
    destruct (run_socket_has_session JSON_parse h evs Voice.initial) as [_ H].
    { by intros sock. }
    rewrite Forall_forall in H. specialize (H _ Hin). simpl in H.
    split.
    + intros ->. done.
    + intros Hws%no_session_spec. congruence.
Qed.

(** The theorem at the session id of three spaces. *)
Lemma voice_session_needs_id_witness :
  only_white_space "   " ∧
  Voice.connectWebSocket Voice.useVoiceInteraction "   " "routes" Voice.initial
  = (Voice.initial, [Net.ConsoleWarn "Cannot connect WebSocket without valid session ID"]).
Proof.
  assert (H : only_white_space "   ") by (simpl; auto).
  split; [exact H|].
  exact (proj1 (voice_session_needs_id "   " "routes" H) Voice.initial).
Defined.

(** ** The stream of a reply *)

(** Concatenation of texts, in order. *)
Definition concatenation (parts : list string) : string :=
  foldr String.append EmptyString parts.

Lemma concatenation_app (xs ys : list string) :
  concatenation (xs ++ ys) = concatenation xs +:+ concatenation ys.
Proof.
  induction xs as [|x xs IH]; simpl; [done|].
  by rewrite IH, string_app_assoc.
Qed.

Section Stream.
Context (JSON_parse : string → option Js.value).
Context (number_to_string : spec_float → string).

(** The stream event a line holds: lines that are blank or that
[JSON.parse] rejects hold none. *)
Definition event_of_line (line : string) : option Js.value :=
if Js.truthy_string (Js.trim line) then JSON_parse line else None.

(** The stream events received in the chunks, in arrival order. *)
Definition received (chunks : list string) : list Js.value :=
chunk ← chunks; omap event_of_line (Js.split chunk (String "010" EmptyString)).

(** The text a stream event contributes to the reply: the [content] of
an event whose [type] is ["token"], nothing for any other event. *)
Definition token_content (data : Js.value) : option string :=
ty ← Js.get data "type";
if Js.is_str ty "token"
then Js.get data "content" ≫= Js.to_string number_to_string
else None.

(** The concatenation of the [content] fields of the token events. *)
Definition reply_text (events : list Js.value) : string :=
concatenation (omap token_content events).

Lemma reply_text_app (xs ys : list Js.value) :
reply_text (xs ++ ys) = reply_text xs +:+ reply_text ys.
Proof. unfold reply_text. by rewrite omap_app, concatenation_app. Qed.

Lemma received_app (xs ys : list string) :
received (xs ++ ys) = received xs ++ received ys.
Proof. unfold received. by rewrite bind_app. Qed.

(** The reply under construction: the last message is the assistant
message pushed when the response arrived, and it shows the local
variable [accumulatedResponse]. *)
Definition streaming (base : list Chat.Message) (t : Z) (acc : string)
(p : Chat.Progress) : Prop :=
Chat.chatMessages (Chat.ui p) = base ++ [Chat.set_content acc (Chat.placeholder t)] ∧
Chat.accumulatedResponse p = acc.

Lemma write_last_streaming (base : list Chat.Message) (t : Z) (old acc : string) :
Chat.write_last acc (base ++ [Chat.set_content old (Chat.placeholder t)])
= Some (base ++ [Chat.set_content acc (Chat.placeholder t)]).
Proof.
unfold Chat.write_last. rewrite last_snoc. simpl. f_equal.
rewrite length_app. simpl.
replace (length base + 1 - 1)%nat with (length base + 0)%nat by lia.
by rewrite insert_app_r.
Qed.

Lemma on_token_streaming base t acc piece p :
streaming base t acc p →
streaming base t (acc +:+ piece) (Chat.on_token piece p)
∧ Chat.render_error (Chat.on_token piece p) = Chat.render_error p
∧ Chat.log (Chat.on_token piece p) = Chat.log p
∧ Chat.confirmationState (Chat.ui (Chat.on_token piece p))
= Chat.confirmationState (Chat.ui p)
∧ Chat.isProcessing (Chat.ui (Chat.on_token piece p)) = Chat.isProcessing (Chat.ui p).
Proof.
intros [Hmsgs Hacc]. unfold Chat.on_token.
rewrite Hmsgs, Hacc, write_last_streaming. by repeat split.
Qed.

(** What a line does to the reply under construction. *)
Lemma on_line_streaming (c : bool) base t acc line p :
streaming base t acc p →
streaming base t
(acc +:+ reply_text (option_list (event_of_line line)))
(Chat.on_line JSON_parse number_to_string c p line)
∧ Chat.render_error (Chat.on_line JSON_parse number_to_string c p line)
= Chat.render_error p.
Proof.
intros Hp. pose proof Hp as [Hmsgs Hacc].
unfold Chat.on_line, event_of_line.
destruct (Js.truthy_string (Js.trim line)); simpl;
[|unfold reply_text; simpl; by rewrite string_app_nil_r].
destruct (JSON_parse line) as [data|]; simpl;
[|unfold reply_text; simpl; by rewrite string_app_nil_r].
unfold reply_text, Chat.on_data, token_content. simpl.
destruct (Js.get data "type") as [ty|]; simpl;
[|by rewrite string_app_nil_r].
destruct (Js.is_str ty "token").
{ destruct (Js.get data "content") as [piece|]; simpl;
  [|by rewrite string_app_nil_r].
destruct (Js.to_string number_to_string piece) as [text|]; simpl;
  [|by rewrite string_app_nil_r].
rewrite string_app_nil_r.
by destruct (on_token_streaming base t acc text p Hp) as (? & ? & _). }
destruct (c && Js.is_str ty "confirmation").
{ destruct (Js.get data "payload") as [payload|]; simpl;
  [|by rewrite string_app_nil_r].
destruct (Js.get payload "message") as [msg|]; simpl;
  by rewrite string_app_nil_r. }
destruct (Js.is_str ty "error"); simpl; by rewrite string_app_nil_r.
Qed.

Lemma on_lines_streaming (c : bool) base t lines : ∀ acc p,
streaming base t acc p →
streaming base t
(acc +:+ reply_text (omap event_of_line lines))
(fold_left (Chat.on_line JSON_parse number_to_string c) lines p)
∧ Chat.render_error (fold_left (Chat.on_line JSON_parse number_to_string c) lines p)
= Chat.render_error p.
Proof.
induction lines as [|line lines IH]; intros acc p Hp.
{ unfold reply_text. simpl. by rewrite string_app_nil_r. }
assert (Heq : acc +:+ reply_text (omap event_of_line (line :: lines))
            = (acc +:+ reply_text (option_list (event_of_line line)))
              +:+ reply_text (omap event_of_line lines)).
{ rewrite string_app_assoc. f_equal.
rewrite <- reply_text_app. f_equal. simpl.
by destruct (event_of_line line). }
rewrite Heq. simpl fold_left.
destruct (on_line_streaming c base t acc line p Hp) as [H1 H2].
destruct (IH _ _ H1) as [H3 H4].
rewrite H4, H2. by split.
Qed.

Lemma on_chunks_streaming (c : bool) base t chunks : ∀ acc p,
streaming base t acc p →
streaming base t
(acc +:+ reply_text (received chunks))
(fold_left (Chat.on_chunk JSON_parse number_to_string c) chunks p)
∧ Chat.render_error (fold_left (Chat.on_chunk JSON_parse number_to_string c) chunks p)
= Chat.render_error p.
Proof.
induction chunks as [|chunk chunks IH]; intros acc p Hp.
{ unfold reply_text. simpl. by rewrite string_app_nil_r. }
assert (Heq : acc +:+ reply_text (received (chunk :: chunks))
            = (acc +:+ reply_text
                         (omap event_of_line
                               (Js.split chunk (String "010" EmptyString))))
              +:+ reply_text (received chunks)).
{ rewrite string_app_assoc. f_equal. by rewrite <- reply_text_app. }
rewrite Heq. simpl fold_left.
destruct (on_lines_streaming c base t
          (Js.split chunk (String "010" EmptyString)) acc p Hp) as [H1 H2].
destruct (IH _ _ H1) as [H3 H4].
unfold Chat.on_chunk at 2 4. rewrite H4, H2. by split.
Qed.

End Stream.

(** ** An activation that nothing interrupts *)

Section Uninterrupted.
Context (JSON_parse : string → option Js.value).
Context (number_to_string : spec_float → string).

(** The machine seen from the activation [r]: the state of the component
with the local variable of [r]. *)
Definition view (m : Loop.Machine) (r : Loop.Run) : Chat.Progress :=
{| Chat.ui := Loop.ui m; Chat.accumulatedResponse := Loop.acc r;
 Chat.log := Loop.trace m; Chat.render_error := Loop.broken m |}.

(** [m'] is [m] after the activation at [i] has moved to [p] and [next],
all other activations being where they were. *)
Definition moved (i : nat) (next : Loop.Phase) (p : Chat.Progress)
(m m' : Loop.Machine) : Prop :=
∃ r r', Loop.runs m !! i = Some r ∧ Loop.runs m' !! i = Some r' ∧
      Loop.kind r' = Loop.kind r ∧ Loop.phase r' = next ∧
      view m' r' = p ∧
      length (Loop.runs m') = length (Loop.runs m) ∧
      ∀ j, j ≠ i → Loop.runs m' !! j = Loop.runs m !! j.

Lemma advance_moved (i : nat) (r : Loop.Run) (next : Loop.Phase)
(f : Chat.Progress → Chat.Progress) (m : Loop.Machine) :
Loop.runs m !! i = Some r →
moved i next (f (view m r)) m (Loop.advance i r next f m).
Proof.
intros Hr. pose proof (lookup_lt_Some _ _ _ Hr) as Hlt.
eexists r, _. unfold Loop.advance. simpl.
split; [done|]. split; [by apply list_lookup_insert_eq|].
split; [done|]. split; [done|]. split.
{ unfold view. simpl. by destruct (f _). }
split; [by rewrite length_insert|].
intros j Hj. by rewrite list_lookup_insert_ne.
Qed.

Lemma moved_trans (i : nat) (n1 n2 : Loop.Phase) (p1 p2 : Chat.Progress)
(m m1 m2 : Loop.Machine) :
moved i n1 p1 m m1 → moved i n2 p2 m1 m2 → moved i n2 p2 m m2.
Proof.
intros (r & r1 & Hr & Hr1 & Hk1 & Hph1 & Hv1 & Hlen1 & Hoth1)
     (r1' & r2 & Hr1' & Hr2 & Hk2 & Hph2 & Hv2 & Hlen2 & Hoth2).
assert (r1' = r1) as -> by congruence.
exists r, r2. repeat split; try done; try congruence.
intros j Hj. by rewrite Hoth2, Hoth1.
Qed.

(** Reading the chunks [cs] one after the other is the fold of the
stream loop. *)
Lemma exec_chunks (i : nat) (cs : list string) : ∀ (m : Loop.Machine) (r : Loop.Run),
Loop.runs m !! i = Some r → Loop.phase r = Loop.Reading →
moved i Loop.Reading
(fold_left (Chat.on_chunk JSON_parse number_to_string
              (Loop.confirmations_of (Loop.kind r))) cs (view m r))
m (Loop.exec JSON_parse number_to_string (map (Loop.ChunkRead i) cs) m).
Proof.
induction cs as [|c cs IH]; intros m r Hr Hph; simpl.
- exists r, r. by repeat split.
- unfold Loop.exec in *. simpl. rewrite Hr, Hph.
set (f := λ p, Chat.on_chunk JSON_parse number_to_string
                 (Loop.confirmations_of (Loop.kind r)) p c).
pose proof (advance_moved i r Loop.Reading f m Hr) as Hstep.
destruct Hstep as (r0 & r1 & Hr0 & Hr1 & Hk & Hph1 & Hv & Hlen & Hoth).
assert (r0 = r) as -> by congruence.
specialize (IH _ r1 Hr1 Hph1). rewrite Hv, Hk in IH.
eapply moved_trans; [|exact IH].
exists r, r1. by repeat split.
Qed.

End Uninterrupted.

Section Script.
Context (JSON_parse : string → option Js.value).
Context (number_to_string : spec_float → string).

Local Abbreviation exec := (Loop.exec JSON_parse number_to_string).
Local Abbreviation complete := (Chat.complete JSON_parse number_to_string).

Lemma exec_app (evs evs' : list Loop.Event) (m : Loop.Machine) :
exec (evs ++ evs') m = exec evs' (exec evs m).
Proof. unfold Loop.exec. apply fold_left_app. Qed.

Lemma exec_cons (ev : Loop.Event) (evs : list Loop.Event) (m : Loop.Machine) :
exec (ev :: evs) m = exec evs (Loop.step JSON_parse number_to_string ev m).
Proof. done. Qed.

(** The script of an answer drives an activation that waits for its
response through the rest of its handler. *)
Lemma exec_script (i : nat) (net : Chat.Answer) (m : Loop.Machine) (r : Loop.Run) :
Loop.runs m !! i = Some r → Loop.phase r = Loop.AwaitingResponse →
moved i Loop.Returned
(complete (Loop.confirmations_of (Loop.kind r)) (Loop.catch_of (Loop.kind r))
          net (view m r))
m (exec (Loop.script i net) m).
Proof.
intros Hr Hph. unfold Loop.script, Chat.complete.
destruct (Chat.fetched net) as [|response].
{ rewrite exec_cons. simpl. rewrite Hr, Hph. by apply advance_moved. }
destruct (negb (Net.ok response)).
{ rewrite exec_cons. simpl. rewrite Hr, Hph. by apply advance_moved. }
destruct (Net.body response) as [b|].
2: { rewrite exec_cons. simpl. rewrite Hr, Hph.
   by apply (advance_moved i r Loop.Returned
               (λ p, Chat.finally
                       (Loop.catch_of (Loop.kind r) (Chat.t_settled net)
                          (Chat.with_ui (Chat.push (Chat.placeholder
                                                      (Chat.t_settled net))) p)))). }
rewrite exec_cons, exec_app. simpl Loop.step. rewrite Hr, Hph.
set (f1 := Chat.with_ui (Chat.push (Chat.placeholder (Chat.t_settled net)))).
pose proof (advance_moved i r Loop.Reading f1 m Hr) as H1.
set (m1 := Loop.advance i r Loop.Reading f1 m) in *.
destruct H1 as (r0 & r1 & Hr0 & Hr1 & Hk1 & Hph1 & Hv1 & Hlen1 & Hoth1).
assert (r0 = r) as -> by congruence.
pose proof (exec_chunks JSON_parse number_to_string i (Net.chunks b) m1 r1 Hr1 Hph1)
as H2.
rewrite Hv1, Hk1 in H2.
set (m2 := exec (map (Loop.ChunkRead i) (Net.chunks b)) m1) in *.
destruct H2 as (r1' & r2 & Hr1' & Hr2 & Hk2 & Hph2 & Hv2 & Hlen2 & Hoth2).
assert (r1' = r1) as -> by congruence.
assert (Hm2 : moved i Loop.Reading
              (fold_left (Chat.on_chunk JSON_parse number_to_string
                            (Loop.confirmations_of (Loop.kind r)))
                         (Net.chunks b) (f1 (view m r))) m m2).
{ exists r, r2. repeat split; try done; try congruence.
intros j Hj. by rewrite Hoth2, Hoth1. }
eapply moved_trans; [exact Hm2|].
rewrite <- Hv2.
destruct (Net.ending b); rewrite exec_cons; simpl Loop.step; rewrite Hr2, Hph2.
- apply (advance_moved i r2 Loop.Returned Chat.finally m2 Hr2).
- assert (Hk : Loop.kind r2 = Loop.kind r) by congruence. rewrite <- Hk.
apply (advance_moved i r2 Loop.Returned
         (λ p, Chat.finally
                 (Loop.catch_of (Loop.kind r2) (Chat.t_read_failure net) p))
         m2 Hr2).
Qed.

(** [handleSend] is the transition system left alone: pressing Send and
then letting the answer arrive, with no other event in between. *)
Lemma handleSend_exec (now : Z) (net : Chat.Answer) (st : Chat.State) :
let m := exec (Loop.SendPressed now :: Loop.script 0 net) (Loop.boot st) in
let p := Chat.handleSend JSON_parse number_to_string now net st in
Loop.ui m = Chat.ui p ∧ Loop.trace m = Chat.log p ∧
Loop.broken m = Chat.render_error p.
Proof.
cbv zeta. rewrite exec_cons. unfold Chat.handleSend. simpl Loop.step.
destruct (Chat.send_begin now st) as [[st1 b]|] eqn:E.
- set (r := {| Loop.kind := Loop.SendRun; Loop.phase := Loop.AwaitingResponse;
             Loop.request := b; Loop.acc := EmptyString |}).
pose proof (exec_script 0 net (Loop.spawn Loop.SendRun st1 b (Loop.boot st)) r
              eq_refl eq_refl)
  as (r0 & r' & _ & _ & _ & _ & Hv & _).
set (m' := exec _ _) in *.
assert (Hp : complete true Chat.send_catch net
               (Chat.start st1 [Net.PostChat b]) = view m' r')
  by (symmetry; exact Hv).
rewrite Hp. by repeat split.
- assert (H : ∀ evs, Forall (λ ev, match ev with
                                 | Loop.FetchSettled _ _ _ | Loop.ChunkRead _ _
                                 | Loop.StreamEnded _ | Loop.ReadFailed _ _ => True
                                 | _ => False
                                 end) evs →
                   exec evs (Loop.boot st) = Loop.boot st).
{ induction evs as [|ev evs IH]; [done|].
  intros [Hev Hevs]%Forall_cons.
  rewrite (exec_cons ev evs (Loop.boot st)).
  destruct ev; try done; simpl; by apply IH. }
rewrite H; [done|]. unfold Loop.script.
destruct (Chat.fetched net) as [|response]; [by repeat constructor|].
destruct (negb (Net.ok response)); [by repeat constructor|].
destruct (Net.body response) as [body|]; [|by repeat constructor].
constructor; [done|]. apply Forall_app. split.
+ apply Forall_map. by apply Forall_true.
+ destruct (Net.ending body); by repeat constructor.
Qed.


End Script.

(** ** A runtime for the examples *)

(** A stand-in for [JSON.parse] on a compact line format: [T:text] is a
    token event with that content, [C:text] a confirmation event whose
    payload has that message, [O:text] a confirmation event whose payload
    has an object as message, with that text inside, [E:text] an error
    event; [R:text] and [A:text] are what the voice endpoints answer; any
    other line is rejected. *)
Definition wire_parse (line : string) : option Js.value :=
  match line with
  | String "T" (String ":" rest) =>
      Some (Js.Obj [("type", Js.Str "token"); ("content", Js.Str rest)])
  | String "C" (String ":" rest) =>
      Some (Js.Obj [("type", Js.Str "confirmation");
                    ("payload", Js.Obj [("message", Js.Str rest);
                                        ("tool", Js.Str "delete_trip")])])
  | String "O" (String ":" rest) =>
      Some (Js.Obj [("type", Js.Str "confirmation");
                    ("payload", Js.Obj [("message", Js.Obj [("text", Js.Str rest)]);
                                        ("tool", Js.Str "delete_trip")])])
  | String "E" (String ":" rest) =>
      Some (Js.Obj [("type", Js.Str "error"); ("content", Js.Str rest)])
  | String "R" (String ":" rest) =>
      Some (Js.Obj [("response", Js.Str rest); ("audio_base64", Js.Str rest)])
  | String "A" (String ":" rest) =>
      Some (Js.Obj [("type", Js.Str "audio_response"); ("text", Js.Str rest);
                    ("data", Js.Str "UklGRg");
                    ("awaiting_confirmation", Js.Bool true);
                    ("consequence_info", Js.Obj [("message", Js.Str rest)])])
  | _ => None
  end.

(** A stand-in for the formatting of numbers. *)
Definition wire_number (x : spec_float) : string := "0".

Definition line_feed : string := String "010" EmptyString.

(** ** The reply of a turn *)

(** The user message that [handleSend] appends for the input in [st]. *)
Definition asked (now : Z) (st : Chat.State) : Chat.Message :=
  {| Chat.role := user;
     Chat.content := if Js.truthy_string (Chat.userInput st) then Chat.userInput st
                     else "What's in this image?";
     Chat.timestamp := now;
     Chat.image := if Js.truthy_opt (Chat.uploadedImage st) then Chat.uploadedImage st
                   else None |}.

(** The assistant message of a turn, showing [text]. *)
Definition replied (t : Z) (text : string) : Chat.Message :=
  {| Chat.role := assistant; Chat.content := text; Chat.timestamp := t;
     Chat.image := None |}.

Lemma send_begin_messages (now : Z) (st st1 : Chat.State) (b : Net.ChatBody) :
  Chat.send_begin now st = Some (st1, b) →
  Chat.chatMessages st1 = Chat.chatMessages st ++ [asked now st].
Proof.
  unfold Chat.send_begin. destruct (Chat.send_refused st); [done|].
  intros H. by injection H as <- _.
Qed.

(** ** The confirmation dialog *)

Section Dialog.
Context (JSON_parse : string → option Js.value).
Context (number_to_string : spec_float → string).

(** The dialog a stream event asks for: an event whose [type] is
["confirmation"] and whose payload can be read asks for the dialog
with the [message] of the payload and the payload itself. *)
Definition confirmation_of (data : Js.value) : option Chat.ConfirmationState :=
ty ← Js.get data "type";
if Js.is_str ty "confirmation" then
payload ← Js.get data "payload";
msg ← Js.get payload "message";
Some {| Chat.isVisible := true; Chat.alertMessage := msg;
        Chat.consequenceDetails := payload |}
else None.

(** The dialog after a sequence of stream events: the last request wins. *)
Definition dialog_after (events : list Js.value) (d : Chat.ConfirmationState)
: Chat.ConfirmationState :=
fold_left (λ d data, default d (confirmation_of data)) events d.

Lemma dialog_after_app (xs ys : list Js.value) (d : Chat.ConfirmationState) :
dialog_after (xs ++ ys) d = dialog_after ys (dialog_after xs d).
Proof. apply fold_left_app. Qed.

Lemma on_token_dialog (piece : string) (p : Chat.Progress) :
Chat.confirmationState (Chat.ui (Chat.on_token piece p))
= Chat.confirmationState (Chat.ui p).
Proof. unfold Chat.on_token. by destruct (Chat.write_last _ _). Qed.

Lemma is_str_token_confirmation (ty : Js.value) :
Js.is_str ty "token" = true → Js.is_str ty "confirmation" = false.
Proof.
destruct ty as [| | | |s| |]; simpl; try done.
intros ->%String.eqb_eq. done.
Qed.

Lemma on_line_dialog (p : Chat.Progress) (line : string) :
Chat.confirmationState
(Chat.ui (Chat.on_line JSON_parse number_to_string true p line))
= dialog_after (option_list (event_of_line JSON_parse line))
             (Chat.confirmationState (Chat.ui p)).
Proof.
unfold Chat.on_line, event_of_line.
destruct (Js.truthy_string (Js.trim line)); simpl; [|done].
destruct (JSON_parse line) as [data|]; simpl; [|done].
unfold Chat.on_data, confirmation_of.
destruct (Js.get data "type") as [ty|]; simpl; [|done].
destruct (Js.is_str ty "token") eqn:Etoken.
{ rewrite (is_str_token_confirmation ty Etoken). simpl.
destruct (Js.get data "content") as [piece|]; simpl; [|done].
destruct (Js.to_string number_to_string piece) as [text|]; simpl; [|done].
apply on_token_dialog. }
destruct (Js.is_str ty "confirmation"); simpl.
{ destruct (Js.get data "payload") as [payload|]; simpl; [|done].
by destruct (Js.get payload "message") as [msg|]. }
by destruct (Js.is_str ty "error").
Qed.

Lemma on_lines_dialog (lines : list string) : ∀ p,
Chat.confirmationState
(Chat.ui (fold_left (Chat.on_line JSON_parse number_to_string true) lines p))
= dialog_after (omap (event_of_line JSON_parse) lines)
             (Chat.confirmationState (Chat.ui p)).
Proof.
induction lines as [|line lines IH]; intros p; [done|].
simpl fold_left. rewrite IH, on_line_dialog.
assert (Heq : omap (event_of_line JSON_parse) (line :: lines)
            = option_list (event_of_line JSON_parse line)
              ++ omap (event_of_line JSON_parse) lines).
{ simpl. by destruct (event_of_line JSON_parse line). }
by rewrite Heq, dialog_after_app.
Qed.

Lemma on_chunks_dialog (chunks : list string) : ∀ p,
Chat.confirmationState
(Chat.ui (fold_left (Chat.on_chunk JSON_parse number_to_string true) chunks p))
= dialog_after (received JSON_parse chunks) (Chat.confirmationState (Chat.ui p)).
Proof.
induction chunks as [|chunk chunks IH]; intros p; [done|].
simpl fold_left. rewrite IH. unfold Chat.on_chunk.
rewrite on_lines_dialog.
assert (Heq : received JSON_parse (chunk :: chunks)
            = omap (event_of_line JSON_parse) (Js.split chunk (String "010" EmptyString))
              ++ received JSON_parse chunks) by done.
by rewrite Heq, dialog_after_app.
Qed.

Lemma send_begin_dialog (now : Z) (st st1 : Chat.State) (b : Net.ChatBody) :
Chat.send_begin now st = Some (st1, b) →
Chat.confirmationState st1 = Chat.confirmationState st.
Proof.
unfold Chat.send_begin. destruct (Chat.send_refused st); [done|].
intros H. by injection H as <- _.
Qed.

End Dialog.

(** C4. A stream event of type ["confirmation"] read by the loop of
    [handleSend] makes the dialog visible, with the [message] of the payload
    as alert message and the whole payload as consequence details; the
    messages of the chat and the reply text under construction stay as they
    are, and the event counts for nothing in the text of the reply.  Over a
    whole stream that ends, the dialog is the one the last confirmation
    event asked for. *)
Theorem confirmation_event_opens_dialog
    (JSON_parse : string → option Js.value) (number_to_string : spec_float → string)
    (line : string) (data payload msg : Js.value)
    (Hline : event_of_line JSON_parse line = Some data)
    (Htype : Js.get data "type" = Some (Js.Str "confirmation"))
    (Hpayload : Js.get data "payload" = Some payload)
    (Hmessage : Js.get payload "message" = Some msg) :
  (∀ p,
     let p' := Chat.on_line JSON_parse number_to_string true p line in
     Chat.confirmationState (Chat.ui p')
     = {| Chat.isVisible := true; Chat.alertMessage := msg;
          Chat.consequenceDetails := payload |}
     ∧ Chat.chatMessages (Chat.ui p') = Chat.chatMessages (Chat.ui p)
     ∧ Chat.accumulatedResponse p' = Chat.accumulatedResponse p
     ∧ Chat.log p' = Chat.log p)
  ∧ token_content number_to_string data = None
  ∧ (∀ now net st st1 request chunks,
       Chat.send_begin now st = Some (st1, request) →
       Chat.fetched net
       = Net.Responded {| Net.ok := true;
                          Net.body := Some {| Net.chunks := chunks;
                                              Net.ending := Net.StreamDone |} |} →
       Chat.confirmationState
         (Chat.ui (Chat.handleSend JSON_parse number_to_string now net st))
       = dialog_after (received JSON_parse chunks) (Chat.confirmationState st)).
Proof.
  split; [|split].
  - intros p. unfold Chat.on_line. unfold event_of_line in Hline.
    destruct (Js.truthy_string (Js.trim line)); [|done]. simpl.
    rewrite Hline. simpl. unfold Chat.on_data. rewrite Htype. simpl.
    rewrite Hpayload. simpl. by rewrite Hmessage.
  - unfold token_content. by rewrite Htype.
  - intros now net st st1 request chunks Hsend Hfetch.
    unfold Chat.handleSend, Chat.complete. rewrite Hsend, Hfetch. simpl.
    rewrite on_chunks_dialog. simpl.
    by rewrite (send_begin_dialog now st st1 request Hsend).
Qed.

(** The theorem at the line [C:sure?] of the example format. *)
Lemma confirmation_event_opens_dialog_witness :
  let payload := Js.Obj [("message", Js.Str "sure?"); ("tool", Js.Str "delete_trip")] in
  let p := Chat.start (Chat.initial 0) [] in
  Chat.confirmationState (Chat.ui (Chat.on_line wire_parse wire_number true p "C:sure?"))
  = {| Chat.isVisible := true; Chat.alertMessage := Js.Str "sure?";
       Chat.consequenceDetails := payload |}.
Proof.
  intros payload p.
  exact (proj1 (proj1 (confirmation_event_opens_dialog wire_parse wire_number "C:sure?"
                         (Js.Obj [("type", Js.Str "confirmation"); ("payload", payload)])
                         payload (Js.Str "sure?") eq_refl eq_refl eq_refl eq_refl) p)).
Defined.

(** ** Lines and chunks *)

(** The text ends where a line ends: it is empty or its last character
    is a line feed. *)
Fixpoint ends_line (text : string) : bool :=
  match text with
  | EmptyString => true
  | String c rest =>
      match rest with
      | EmptyString => Ascii.eqb "010" c
      | _ => ends_line rest
      end
  end.

(** No line is cut between two chunks: every chunk but the last ends
    where a line ends. *)
Fixpoint whole_lines (chunks : list string) : bool :=
  match chunks with
  | [] => true
  | chunk :: rest =>
      match rest with
      | [] => true
      | _ => ends_line chunk && whole_lines rest
      end
  end.

Lemma split_go_line_end (chunk : string) :
  chunk ≠ EmptyString → ends_line chunk = true →
  ∀ cur, ∃ lines, ∀ rest,
    Js.split_go line_feed 0 cur (chunk +:+ rest)
    = lines ++ Js.split_go line_feed 0 EmptyString rest.
Proof.
  induction chunk as [|c chunk IH]; [done|]. intros _ Hend cur.
  destruct chunk as [|c' chunk'].
  - simpl in Hend. exists [String.rev cur]. intros rest.
    rewrite string_app_cons, string_app_nil_l. simpl. by rewrite Hend.
  - assert (Hrest : ends_line (String c' chunk') = true) by exact Hend.
    destruct (Ascii.eqb "010" c) eqn:Hc.
    + destruct (IH ltac:(done) Hrest EmptyString) as [lines Hlines].
      exists (String.rev cur :: lines). intros rest.
      rewrite string_app_cons. unfold line_feed in *.
      cbn [Js.split_go Js.startsWith String.length Nat.sub].
      rewrite Hc. cbn [Js.startsWith]. by rewrite Hlines.
    + destruct (IH ltac:(done) Hrest (String c cur)) as [lines Hlines].
      exists lines. intros rest.
      rewrite string_app_cons. unfold line_feed in *.
      cbn [Js.split_go Js.startsWith String.length Nat.sub].
      rewrite Hc. apply Hlines.
Qed.

Section Lines.
Context (JSON_parse : string → option Js.value).

(** The events of a stream: the text of the response is a sequence of
lines, and every line that is not blank and that [JSON.parse] accepts
is an event.  This is the stream as the server wrote it, whatever the
chunks are in which it arrives. *)
Definition stream_events (text : string) : list Js.value :=
omap (event_of_line JSON_parse) (Js.split text line_feed).

Lemma stream_events_app (chunk rest : string) :
ends_line chunk = true →
stream_events (chunk +:+ rest) = stream_events chunk ++ stream_events rest.
Proof.
intros Hend. unfold stream_events, Js.split, line_feed.
destruct chunk as [|c chunk]; [done|].
destruct (split_go_line_end (String c chunk) ltac:(done) Hend EmptyString)
as [lines Hlines]. unfold line_feed in Hlines.
rewrite Hlines.
pose proof (Hlines EmptyString) as Hlast. rewrite string_app_nil_r in Hlast.
rewrite Hlast, !omap_app. simpl. by rewrite app_nil_r.
Qed.

Lemma whole_lines_cons (chunk : string) (chunks : list string) :
whole_lines (chunk :: chunks) = true →
(chunks = [] ∨ ends_line chunk = true) ∧ whole_lines chunks = true.
Proof.
destruct chunks as [|next chunks]; [by split; [left|]|].
intros [H1 H2]%andb_true_iff. by split; [right|].
Qed.

Lemma whole_lines_app (xs ys : list string) :
whole_lines (xs ++ ys) = true → whole_lines xs = true ∧ whole_lines ys = true.
Proof.
induction xs as [|x xs IH]; [done|]. intros H.
change ((x :: xs) ++ ys) with (x :: (xs ++ ys)) in H.
apply whole_lines_cons in H as [Hx H]. destruct (IH H) as [IH1 IH2].
split; [|done].
destruct xs as [|x' xs]; [done|].
destruct Hx as [Hx|Hx]; [done|].
change (ends_line x && whole_lines (x' :: xs) = true). by rewrite Hx, IH1.
Qed.

(** When no line is cut between two chunks, the events the loop finds
chunk by chunk are the events of the stream. *)
Lemma received_whole_lines (chunks : list string) :
whole_lines chunks = true →
received JSON_parse chunks = stream_events (concatenation chunks).
Proof.
induction chunks as [|chunk chunks IH]; [done|]. intros H.
apply whole_lines_cons in H as [Hchunk H]. specialize (IH H).
change (received JSON_parse (chunk :: chunks))
with (stream_events chunk ++ received JSON_parse chunks).
rewrite IH. simpl concatenation.
destruct Hchunk as [-> | Hend]; [|by rewrite stream_events_app].
simpl. rewrite string_app_nil_r.
change (stream_events EmptyString) with (@nil Js.value). by rewrite app_nil_r.
Qed.

End Lines.

(** ** One activation of [handleSend] while its stream is read *)

(** What may happen while the activation at [i] reads its stream and
    nobody answers the confirmation dialog: typing, choosing an image,
    pressing Send, the next chunk, and events of other activations. *)
Definition during (i : nat) (ev : Loop.Event) : Prop :=
  match ev with
  | Loop.DialogAnswered _ _ => False
  | Loop.StreamEnded j | Loop.ReadFailed j _ => j ≠ i
  | _ => True
  end.

(** The chunks that the activation at [i] reads in the events [evs]. *)
Definition chunks_read (i : nat) (evs : list Loop.Event) : list string :=
  omap (λ ev, match ev with
              | Loop.ChunkRead j chunk => if Nat.eqb j i then Some chunk else None
              | _ => None
              end) evs.

Lemma chunks_read_app (i : nat) (evs evs' : list Loop.Event) :
  chunks_read i (evs ++ evs') = chunks_read i evs ++ chunks_read i evs'.
Proof. apply omap_app. Qed.

Lemma send_begin_isProcessing (now : Z) (st st1 : Chat.State) (b : Net.ChatBody) :
  Chat.send_begin now st = Some (st1, b) → Chat.isProcessing st1 = true.
Proof.
  unfold Chat.send_begin. destruct (Chat.send_refused st); [done|].
  intros H. by injection H as <- _.
Qed.

Section Alone.
Context (JSON_parse : string → option Js.value).
Context (number_to_string : spec_float → string).

Local Abbreviation exec := (Loop.exec JSON_parse number_to_string).
Local Abbreviation step := (Loop.step JSON_parse number_to_string).

(** The machine while the only activation there is, one of [handleSend],
reads its stream, after the chunks [chunks]: the flag is set, the last
message is the reply under construction, which shows the text of the
token events found so far, and the dialog is the one the events found
so far ask for. *)
Definition reading (base : list Chat.Message) (t : Z) (d0 : Chat.ConfirmationState)
(chunks : list string) (m : Loop.Machine) : Prop :=
∃ r, Loop.runs m = [r] ∧ Loop.kind r = Loop.SendRun ∧ Loop.phase r = Loop.Reading
   ∧ Chat.isProcessing (Loop.ui m) = true
   ∧ streaming base t (reply_text number_to_string (received JSON_parse chunks))
       (view m r)
   ∧ Chat.confirmationState (Loop.ui m) = dialog_after (received JSON_parse chunks) d0
   ∧ Loop.broken m = false.

Lemma step_reading base t d0 chunks (m : Loop.Machine) (ev : Loop.Event) :
reading base t d0 chunks m → during 0 ev →
reading base t d0 (chunks ++ chunks_read 0 [ev]) (step ev m).
Proof.
intros (r & Hruns & Hkind & Hphase & Hflag & [Hmsgs Hacc] & Hdialog & Hbroken) Hev.
destruct ev as [text|data| |now|now confirmed|i now a|i chunk|i|i now];
simpl in Hev; try done.
- (* typing *)
rewrite app_nil_r. exists r. by repeat split.
- rewrite app_nil_r. exists r. by repeat split.
- rewrite app_nil_r. exists r. by repeat split.
- (* Send is pressed: the guard returns *)
rewrite app_nil_r. simpl.
assert (Hrefused : Chat.send_begin now (Loop.ui m) = None).
{ unfold Chat.send_begin, Chat.send_refused. by rewrite Hflag, orb_true_r. }
rewrite Hrefused. exists r. by repeat split.
- (* a fetch settles: none is awaited *)
rewrite app_nil_r. simpl. rewrite Hruns.
destruct i as [|i]; simpl.
+ rewrite Hphase. exists r. by repeat split.
+ exists r. by repeat split.
- (* a chunk *)
simpl. rewrite Hruns. destruct i as [|i]; simpl.
2: { rewrite app_nil_r. exists r. by repeat split. }
rewrite Hphase, Hkind. simpl.
set (p := {| Chat.ui := Loop.ui m; Chat.accumulatedResponse := Loop.acc r;
             Chat.log := Loop.trace m; Chat.render_error := Loop.broken m |}).
assert (Hp : streaming base t
               (reply_text number_to_string (received JSON_parse chunks)) p)
  by (by split).
destruct (on_chunks_streaming JSON_parse number_to_string true base t [chunk] _ p Hp)
  as [[H1 H2] H3].
pose proof (on_chunks_dialog JSON_parse number_to_string [chunk] p) as H4.
pose proof (keeps_on_chunk Chat.isProcessing blind_isProcessing
              JSON_parse number_to_string true chunk p) as H5.
simpl fold_left in H1, H2, H3, H4. simpl in H5.
set (q := Chat.on_chunk JSON_parse number_to_string true p chunk) in *.
unfold Loop.advance. fold p. fold q. rewrite Hruns. simpl.
eexists. split; [reflexivity|]. simpl.
rewrite received_app, reply_text_app, dialog_after_app.
split; [done|]. split; [done|]. split; [by rewrite H5|].
split; [by split|]. split; [by rewrite H4, <- Hdialog|].
by rewrite H3.
- (* the end of another stream *)
rewrite app_nil_r. simpl. rewrite Hruns.
destruct i as [|i]; [done|]. exists r. by repeat split.
- rewrite app_nil_r. simpl. rewrite Hruns.
destruct i as [|i]; [done|]. exists r. by repeat split.
Qed.

Lemma exec_reading base t d0 (evs : list Loop.Event) : ∀ chunks m,
reading base t d0 chunks m → Forall (during 0) evs →
reading base t d0 (chunks ++ chunks_read 0 evs) (exec evs m).
Proof.
induction evs as [|ev evs IH]; intros chunks m Hm Hevs.
{ by rewrite app_nil_r. }
apply Forall_cons in Hevs as [Hev Hevs].
change (ev :: evs) with ([ev] ++ evs).
rewrite chunks_read_app, app_assoc.
change (exec ([ev] ++ evs) m) with (exec evs (step ev m)).
apply IH; [|done]. by apply step_reading.
Qed.

(** Send is pressed and the response arrives: the activation starts to
read. *)
Lemma begin_reading (now t : Z) (st st1 : Chat.State) (request : Net.ChatBody) :
Chat.send_begin now st = Some (st1, request) →
reading (Chat.chatMessages st ++ [asked now st]) t (Chat.confirmationState st) []
(exec [Loop.SendPressed now; Loop.FetchSettled 0 t (Loop.Status true true)]
      (Loop.boot st)).
Proof.
intros Hsend.
pose proof (send_begin_messages now st st1 request Hsend) as Hmsgs.
pose proof (send_begin_isProcessing now st st1 request Hsend) as Hflag.
pose proof (send_begin_dialog now st st1 request Hsend) as Hdialog.
unfold Loop.exec. simpl. rewrite Hsend. simpl.
eexists. split; [reflexivity|]. simpl.
split; [done|]. split; [done|]. split; [done|].
split; [|by split]. split; [|done]. simpl. by rewrite Hmsgs.
Qed.

(** The machine while the activation reads, from the press on Send on. *)
Lemma turn_reading (now t : Z) (st st1 : Chat.State) (request : Net.ChatBody)
(evs : list Loop.Event) :
Chat.send_begin now st = Some (st1, request) →
Forall (during 0) evs →
reading (Chat.chatMessages st ++ [asked now st]) t (Chat.confirmationState st)
(chunks_read 0 evs)
(exec (Loop.SendPressed now :: Loop.FetchSettled 0 t (Loop.Status true true) :: evs)
      (Loop.boot st)).
Proof.
intros Hsend Hevs.
change (Loop.SendPressed now :: Loop.FetchSettled 0 t (Loop.Status true true) :: evs)
with ([Loop.SendPressed now; Loop.FetchSettled 0 t (Loop.Status true true)] ++ evs).
rewrite exec_app.
apply (exec_reading _ t _ evs [] _ (begin_reading now t st st1 request Hsend) Hevs).
Qed.

(** The stream ends: the messages stay and the flag is cleared. *)
Lemma reading_ended base t d0 chunks (m : Loop.Machine) :
reading base t d0 chunks m →
let m' := step (Loop.StreamEnded 0) m in
Chat.chatMessages (Loop.ui m') = Chat.chatMessages (Loop.ui m)
∧ Chat.confirmationState (Loop.ui m') = Chat.confirmationState (Loop.ui m)
∧ Chat.isProcessing (Loop.ui m') = false
∧ Loop.active m' = [].
Proof.
intros (r & Hruns & Hkind & Hphase & _). simpl. rewrite Hruns. simpl.
rewrite Hphase. unfold Loop.advance, Loop.active. rewrite Hruns. by simpl.
Qed.

End Alone.

(** ** The reply of a turn, streamed *)

(** C3, as the code has it.  Send is pressed, the response arrives and the
    activation reads its stream, while the user may type, choose an image
    or press Send again, but does not answer the confirmation dialog.  If
    no line of the stream is cut between two chunks, then at every point
    the assistant message appended for the turn shows the concatenation, in
    arrival order, of the texts of the [content] of the token events in the
    part of the stream received so far; whatever chunks are still to come,
    that text is a prefix of the one over the whole stream; and when the
    stream ends the message shows the same text and the processing flag is
    cleared.  The events are those of the stream itself, line by line,
    whatever the chunks are.  The handler run without any interruption
    gives the same messages. *)
Theorem streamed_reply_is_token_concatenation
    (JSON_parse : string → option Js.value) (number_to_string : spec_float → string)
    (now t : Z) (st st1 : Chat.State) (request : Net.ChatBody)
    (evs : list Loop.Event)
    (Hsend : Chat.send_begin now st = Some (st1, request))
    (Hquiet : Forall (during 0) evs)
    (Hwhole : whole_lines (chunks_read 0 evs) = true) :
  let text s := reply_text number_to_string (stream_events JSON_parse s) in
  let got := concatenation (chunks_read 0 evs) in
  let m := Loop.exec JSON_parse number_to_string
             (Loop.SendPressed now
              :: Loop.FetchSettled 0 t (Loop.Status true true) :: evs)
             (Loop.boot st) in
  let m' := Loop.step JSON_parse number_to_string (Loop.StreamEnded 0) m in
  Chat.chatMessages (Loop.ui m)
  = Chat.chatMessages st ++ [asked now st; replied t (text got)]
  ∧ (∀ more, whole_lines (chunks_read 0 evs ++ more) = true →
       text (got +:+ concatenation more) = text got +:+ text (concatenation more))
  ∧ Chat.chatMessages (Loop.ui m')
    = Chat.chatMessages st ++ [asked now st; replied t (text got)]
  ∧ Chat.isProcessing (Loop.ui m') = false
  ∧ (∀ net b,
       Chat.fetched net = Net.Responded {| Net.ok := true; Net.body := Some b |} →
       Net.ending b = Net.StreamDone →
       whole_lines (Net.chunks b) = true →
       Chat.chatMessages (Chat.ui (Chat.handleSend JSON_parse number_to_string now net st))
       = Chat.chatMessages st
         ++ [asked now st;
             replied (Chat.t_settled net) (text (concatenation (Net.chunks b)))]).
Proof.
  intros text got m m'.
  pose proof (turn_reading JSON_parse number_to_string now t st st1 request evs
                Hsend Hquiet) as Hreading.
  fold m in Hreading.
  pose proof (reading_ended JSON_parse number_to_string _ _ _ _ m Hreading)
    as (Hend & _ & Hflag & _).
  fold m' in Hend, Hflag.
  destruct Hreading as (r & _ & _ & _ & _ & [Hmsgs _] & _).
  assert (Hshown : Chat.chatMessages (Loop.ui m)
                   = Chat.chatMessages st ++ [asked now st; replied t (text got)]).
  { change (Chat.chatMessages (Loop.ui m)) with (Chat.chatMessages (Chat.ui (view m r))).
    rewrite Hmsgs, <- app_assoc. unfold text, got.
    by rewrite <- (received_whole_lines JSON_parse _ Hwhole). }
  split; [exact Hshown|]. split; [|split; [by rewrite Hend|split; [exact Hflag|]]].
  - intros more Hmore. unfold text, got.
    destruct (whole_lines_app _ _ Hmore) as [_ Hrest].
    rewrite <- concatenation_app.
    rewrite <- !(received_whole_lines JSON_parse) by done.
    by rewrite received_app, reply_text_app.
  - intros net b Hfetch Hdone Hlines.
    pose proof (send_begin_messages now st st1 request Hsend) as Hfirst.
    unfold Chat.handleSend, Chat.complete. rewrite Hsend, Hfetch. simpl.
    rewrite Hdone.
    destruct (on_chunks_streaming JSON_parse number_to_string true
                (Chat.chatMessages st1) (Chat.t_settled net) (Net.chunks b) EmptyString
                (Chat.with_ui (Chat.push (Chat.placeholder (Chat.t_settled net)))
                   (Chat.start st1 [Net.PostChat request])))
      as [[H _] _]; [done|].
    change (Chat.chatMessages (Chat.ui (Chat.finally ?p)))
      with (Chat.chatMessages (Chat.ui p)).
    rewrite H, Hfirst, <- app_assoc. unfold text.
    by rewrite <- (received_whole_lines JSON_parse _ Hlines).
Qed.

(** The theorem on a stream of two chunks, a token, a confirmation event
    and an unreadable line in the first and two tokens in the second, with
    the user typing and pressing Send in between. *)
Lemma streamed_reply_is_token_concatenation_witness :
  let st := Chat.setUserInput "list all vehicles" (Chat.initial 0) in
  let evs :=
    [Loop.ChunkRead 0 ("T:Twelve " +:+ line_feed +:+ "C:sure?" +:+ line_feed
                       +:+ "{" +:+ line_feed);
     Loop.Typed "and the buses?";
     Loop.SendPressed 5;
     Loop.ChunkRead 0 ("T:vehicles" +:+ line_feed +:+ "T:." +:+ line_feed)] in
  Chat.chatMessages
    (Loop.ui (Loop.exec wire_parse wire_number
                (Loop.SendPressed 1
                 :: Loop.FetchSettled 0 2 (Loop.Status true true) :: evs)
                (Loop.boot st)))
  = [Chat.greeting 0; asked 1 st; replied 2 "Twelve vehicles."].
Proof.
  intros st evs.
  destruct (Chat.send_begin 1 st) as [[st1 request]|] eqn:E; [|discriminate E].
  assert (Hquiet : Forall (during 0) evs) by (by repeat constructor).
  exact (proj1 (streamed_reply_is_token_concatenation wire_parse wire_number 1 2 st st1
                  request evs E Hquiet eq_refl)).
Defined.

(** C3 fails as stated: the user answers the confirmation dialog while
    the stream of the turn is still read.  The answer is appended to the
    chat, the write of the next token finds a user message in the last
    place and leaves the chat alone, and the reply of the turn stays short
    of the text of the stream. *)
Lemma answer_during_the_stream_cuts_the_reply :
  let st := Chat.setUserInput "remove the vehicle from Morning Express"
              (Chat.mount "1700000000000" "k3x9" "/dashboard/buses" (Chat.initial 0)) in
  let first := "T:Morning Express is 75% booked. " +:+ line_feed
               +:+ "C:Remove the vehicle?" +:+ line_feed in
  let second := "T:Say yes to go on." +:+ line_feed in
  let m := Loop.exec wire_parse wire_number
             [Loop.SendPressed 1;
              Loop.FetchSettled 0 2 (Loop.Status true true);
              Loop.ChunkRead 0 first;
              Loop.DialogAnswered 3 true;
              Loop.ChunkRead 0 second;
              Loop.StreamEnded 0]
             (Loop.boot st) in
  reply_text wire_number (stream_events wire_parse (first +:+ second))
  = "Morning Express is 75% booked. Say yes to go on."
  ∧ Chat.chatMessages (Loop.ui m) !! 2%nat
    = Some (replied 2 "Morning Express is 75% booked. ")
  ∧ Forall (λ message,
              Chat.content message ≠ "Morning Express is 75% booked. Say yes to go on.")
           (Chat.chatMessages (Loop.ui m)).
Proof.
  split; [reflexivity|]. split; [reflexivity|].
  vm_compute. repeat constructor; discriminate.
Qed.

(** A line cut between two chunks is lost as well: the loop parses each
    chunk by itself, and neither half of the line is an event.  Here the
    token of the stream arrives in two pieces and the reply stays empty. *)
Example token_cut_between_chunks_is_lost :
  let st := Chat.setUserInput "list all vehicles" (Chat.initial 0) in
  let chunks := ["T"; ":Twelve vehicles." +:+ line_feed] in
  let net := {| Chat.fetched :=
                  Net.Responded {| Net.ok := true;
                                   Net.body := Some {| Net.chunks := chunks;
                                                       Net.ending := Net.StreamDone |} |};
                Chat.t_settled := 2; Chat.t_read_failure := 3 |} in
  reply_text wire_number (stream_events wire_parse (concatenation chunks))
  = "Twelve vehicles."
  ∧ Chat.chatMessages (Chat.ui (Chat.handleSend wire_parse wire_number 1 net st))
    = [Chat.greeting 0; asked 1 st; replied 2 EmptyString].
Proof. by vm_compute. Qed.

(** ** How a turn ends *)

(** The request of a turn fails: the [fetch] rejects, the response is not
    [ok], it has no body to read, or reading the body throws. *)
Definition request_failed (net : Chat.Answer) : bool :=
  match Chat.fetched net with
  | Net.NetworkError => true
  | Net.Responded response =>
      negb (Net.ok response) ||
      match Net.body response with
      | None => true
      | Some b => match Net.ending b with
                  | Net.ReadThrows => true
                  | Net.StreamDone => false
                  end
      end
  end.

(** The chunks that the loop reads before the stream ends or breaks. *)
Definition arrived (net : Chat.Answer) : list string :=
  match Chat.fetched net with
  | Net.Responded {| Net.ok := true; Net.body := Some b |} => Net.chunks b
  | _ => []
  end.

(** The apology of a failed turn, in its own words. *)
Definition sorry (t : Z) : Chat.Message :=
  replied t "Sorry, I encountered an error. Please try again.".

(** The assistant messages a failed turn leaves: the reply begun before
    the failure, if the response was [ok], and the apology. *)
Definition failure_messages (reply : string) (net : Chat.Answer) : list Chat.Message :=
  match Chat.fetched net with
  | Net.NetworkError => [sorry (Chat.t_settled net)]
  | Net.Responded response =>
      if negb (Net.ok response) then [sorry (Chat.t_settled net)]
      else
        match Net.body response with
        | None => [replied (Chat.t_settled net) EmptyString;
                   sorry (Chat.t_settled net)]
        | Some _ => [replied (Chat.t_settled net) reply;
                     sorry (Chat.t_read_failure net)]
        end
  end.



(** The reply under construction after the chunks [chunks] of a turn. *)
Lemma stream_of_turn
    (JSON_parse : string → option Js.value) (number_to_string : spec_float → string)
    (now : Z) (t : Z) (st st1 : Chat.State) (request : Net.ChatBody)
    (chunks : list string) :
Chat.send_begin now st = Some (st1, request) →
let q := fold_left (Chat.on_chunk JSON_parse number_to_string true) chunks
           (Chat.with_ui (Chat.push (Chat.placeholder t))
              (Chat.start st1 [Net.PostChat request])) in
Chat.chatMessages (Chat.ui q)
= Chat.chatMessages st
  ++ [asked now st;
      replied t (reply_text number_to_string (received JSON_parse chunks))]
∧ Chat.render_error q = false.
Proof.
  intros Hsend.
  pose proof (send_begin_messages now st st1 request Hsend) as Hmsgs.
  destruct (on_chunks_streaming JSON_parse number_to_string true
              (Chat.chatMessages st1) t chunks EmptyString
              (Chat.with_ui (Chat.push (Chat.placeholder t))
                 (Chat.start st1 [Net.PostChat request]))) as [[H1 _] H2]; [done|].
  cbv zeta. rewrite H1, H2, Hmsgs, <- app_assoc. done.
Qed.

(** The messages a turn of [handleSend] leaves in the chat. *)
Lemma handleSend_messages
    (JSON_parse : string → option Js.value) (number_to_string : spec_float → string)
    (now : Z) (net : Chat.Answer) (st st1 : Chat.State) (request : Net.ChatBody) :
Chat.send_begin now st = Some (st1, request) →
let p := Chat.handleSend JSON_parse number_to_string now net st in
let reply := reply_text number_to_string (received JSON_parse (arrived net)) in
if request_failed net
then Chat.chatMessages (Chat.ui p)
     = Chat.chatMessages st ++ [asked now st] ++ failure_messages reply net
     ∧ last (Chat.log p) = Some (Net.ConsoleError "Error calling Movi:")
else Chat.chatMessages (Chat.ui p)
     = Chat.chatMessages st ++ [asked now st; replied (Chat.t_settled net) reply].
Proof.
  intros Hsend p reply.
  pose proof (send_begin_messages now st st1 request Hsend) as Hmsgs.
  subst p reply.
  unfold Chat.handleSend, Chat.complete, request_failed, failure_messages, arrived.
  rewrite Hsend.
  destruct (Chat.fetched net) as [|[ok body]]; simpl.
  { split; [by rewrite Hmsgs, <- app_assoc|]. first [done | by rewrite last_snoc]. }
  destruct ok; simpl.
  2: { split; [by rewrite Hmsgs, <- app_assoc|]. first [done | by rewrite last_snoc]. }
  destruct body as [b|]; simpl.
  2: { split; [by rewrite Hmsgs, <- !app_assoc|]. first [done | by rewrite last_snoc]. }
  destruct (stream_of_turn JSON_parse number_to_string now (Chat.t_settled net)
              st st1 request (Net.chunks b) Hsend) as [H _]. cbv zeta in H.
  destruct (Net.ending b); simpl.
  - exact H.
  - split; [|first [done | by rewrite last_snoc]]. rewrite H, <- app_assoc. done.
Qed.





(** ** Answering the confirmation dialog *)

(** The request that resumes a suspended turn with the decision
    [confirmed], for the conversation of [st]. *)
Definition resume_request (confirmed : bool) (st : Chat.State) : Net.ChatBody :=
{| Net.message := if confirmed then "yes" else "no";
   Net.session_id := Chat.chatSessionId st;
   Net.context_page := Chat.currentContextPage st;
   Net.image_base64 := None |}.

(** A component in voice mode whose socket has gone: it was mounted on the
    bus dashboard, its hook connected and was told over the socket that a
    confirmation is awaited, the dialog opened, and then the connection
    closed.  The hook is [useVoiceChat], whose [sendConfirmation] is the
    voice-mode handler; the mount effects, the effect that opens the dialog
    and the voice branch of [handleConfirmAction] are the same in the two
    components. *)
Definition voice_world_after_close : Assistant.World :=
let chat0 := Chat.mount "1700000000000" "k3x9" "/dashboard/buses" (Chat.initial 0) in
let chat1 := Chat.setIsVoiceActive true (Chat.setChatWindowOpen true chat0) in
let voice1 :=
  (Voice.run wire_parse Voice.useVoiceChat
     [Voice.Render EmptyString "unknown";
      Voice.Render (Assistant.hook_sessionId chat1) (Chat.currentContextPage chat1);
      Voice.SocketOpened;
      Voice.SocketMessage 5 "A:Morning Express is 75% booked. Remove the vehicle?";
      Voice.SocketClosed]
     Voice.initial).1 in
Assistant.voiceConfirmationEffect Voice.useVoiceChat
  {| Assistant.chat := chat1; Assistant.voice := voice1 |}.

(** Answers of the network that would let a confirmation go through. *)
Definition friendly_net : Assistant.ConfirmNet :=
let answer text :=
  Net.Responded {| Net.ok := true;
                   Net.body := Some {| Net.chunks := [text]; Net.ending := Net.StreamDone |} |} in
{| Assistant.text_net := {| Chat.fetched := answer "T:Done."; Chat.t_settled := 11;
                            Chat.t_read_failure := 12 |};
   Assistant.voice_net := {| Voice.chat_answer := answer "R:Done.";
                             Voice.tts_answer := answer "R:UklGRg";
                             Voice.t_reply := 11 |} |}.

Lemma hook_sessionId_is_chatSessionId (st : Chat.State) :
Assistant.hook_sessionId st = Chat.chatSessionId st.
Proof. unfold Assistant.hook_sessionId. by destruct (Chat.chatSessionId st). Qed.

Section Confirmation.
Context (JSON_parse : string → option Js.value).
Context (number_to_string : spec_float → string).

Lemma chat_requests_app (es es' : list Net.Effect) :
Net.chat_requests (es ++ es') = Net.chat_requests es ++ Net.chat_requests es'.
Proof. apply omap_app. Qed.

(** What [sendConfirmation] sends to the chat endpoint. *)
Lemma sendConfirmation_requests (sid ctx : string) (now : Z) (confirmed : bool)
(net : Voice.ConfirmAnswers) (st : Voice.State) :
Net.chat_requests (Voice.sendConfirmation JSON_parse sid ctx now confirmed net st).1.2
= if Voice.socket_open st
then [{| Net.message := if confirmed then "yes" else "no";
         Net.session_id := sid; Net.context_page := ctx;
         Net.image_base64 := None |}]
else [].
Proof.
unfold Voice.sendConfirmation, Voice.confirmation_failed.
change (Voice.socket_open (Voice.setConfirmation _ _ (Voice.pushVoiceMessage _ st)))
with (Voice.socket_open st).
destruct (Voice.socket_open st); [|done].
destruct (Voice.chat_answer net) as [|response]; [done|].
destruct (_ ≫= _) as [reply|]; [|done].
destruct (Voice.tts_answer net) as [|ttsResponse]; [done|].
destruct (_ ≫= _) as [audio|]; done.
Qed.

Lemma onError_fold (t : Z) (errors : list Js.value) : ∀ p,
Net.chat_requests
(Chat.log (fold_left (λ p error, Chat.onError t error p) errors p))
= Net.chat_requests (Chat.log p)
∧ identity (Chat.ui (fold_left (λ p error, Chat.onError t error p) errors p))
= identity (Chat.ui p).
Proof.
induction errors as [|error errors IH]; intros p; [done|].
simpl fold_left. destruct (IH (Chat.onError t error p)) as [-> ->].
unfold Chat.onError.
destruct error; simpl; rewrite chat_requests_app; simpl; by rewrite app_nil_r.
Qed.

Lemma confirmInText_requests (now : Z) (confirmed : bool) (net : Chat.Answer)
(st : Chat.State) :
Net.chat_requests
(Chat.log (Chat.confirmInText JSON_parse number_to_string now confirmed net st))
= [resume_request confirmed st]
∧ identity (Chat.ui (Chat.confirmInText JSON_parse number_to_string now confirmed net st))
= identity st.
Proof.
unfold Chat.confirmInText. simpl. split.
- by rewrite silent_complete by apply silent_confirm_catch.
- by rewrite keeps_identity_complete by apply keeps_identity_confirm_catch.
Qed.

End Confirmation.

(** C2, as the code has it.  Answering the dialog with [confirmed] sends
    exactly one request to the chat endpoint, with the message [yes] for
    [true] and [no] for [false], the session id and the page of the
    component and no image, in text mode always and in voice mode when the
    voice socket is open; in voice mode with no open socket it sends
    nothing.  The handler leaves the session id and the page as they are.
    They are the ones of the suspended turn: whatever happened since the
    component was mounted, every request sent so far carries the session id
    and the page that the answer to the dialog carries. *)
Theorem confirmation_resumes_with_yes_or_no
    (JSON_parse : string → option Js.value) (number_to_string : spec_float → string)
    (now : Z) (confirmed : bool) (net : Assistant.ConfirmNet) (w : Assistant.World) :
let out := Assistant.handleConfirmAction JSON_parse number_to_string now confirmed net w in
Net.chat_requests (Assistant.effects out)
= (if Chat.isVoiceActive (Assistant.chat w) && negb (Voice.socket_open (Assistant.voice w))
   then []
   else [resume_request confirmed (Assistant.chat w)])
∧ identity (Assistant.chat (Assistant.world out)) = identity (Assistant.chat w)
∧ (∀ now0 net0 st0,
     Assistant.chat w = Chat.ui (Chat.handleSend JSON_parse number_to_string now0 net0 st0) →
     Forall (λ sent,
               Net.session_id sent
               = Net.session_id (resume_request confirmed (Assistant.chat w))
               ∧ Net.context_page sent
                 = Net.context_page (resume_request confirmed (Assistant.chat w)))
            (Net.chat_requests
               (Chat.log (Chat.handleSend JSON_parse number_to_string now0 net0 st0))))
∧ (∀ evs st,
     let m := Loop.exec JSON_parse number_to_string evs (Loop.boot st) in
     Forall (λ sent,
               Net.session_id sent = Net.session_id (resume_request confirmed (Loop.ui m))
               ∧ Net.context_page sent
                 = Net.context_page (resume_request confirmed (Loop.ui m)))
            (Net.chat_requests (Loop.trace m))
     ∧ (Chat.isVoiceActive (Loop.ui m) = false →
        Loop.trace (Loop.step JSON_parse number_to_string
                      (Loop.DialogAnswered now confirmed) m)
        = Loop.trace m ++ [Net.PostChat (resume_request confirmed (Loop.ui m))])).
Proof.
  intros out. subst out. unfold Assistant.handleConfirmAction.
  change (Chat.isVoiceActive (Chat.setConfirmationState _ (Assistant.chat w)))
    with (Chat.isVoiceActive (Assistant.chat w)).
  split; [|split; [|split]].
  - destruct (Chat.isVoiceActive (Assistant.chat w)); simpl.
    + pose proof (sendConfirmation_requests JSON_parse
                    (Assistant.hook_sessionId
                       (Chat.setConfirmationState Chat.dialog_closed (Assistant.chat w)))
                    (Chat.currentContextPage (Assistant.chat w))
                    now confirmed (Assistant.voice_net net) (Assistant.voice w)) as H.
      destruct (Voice.sendConfirmation _ _ _ _ _ _ _) as [[v' es] errors].
      simpl in *.
      destruct (onError_fold (Voice.t_reply (Assistant.voice_net net)) errors
                  (Chat.start (Chat.setConfirmationState Chat.dialog_closed
                                 (Assistant.chat w)) es)) as [-> _].
      simpl. rewrite H, hook_sessionId_is_chatSessionId.
      by destruct (Voice.socket_open (Assistant.voice w)).
    + by destruct (confirmInText_requests JSON_parse number_to_string now confirmed
                     (Assistant.text_net net)
                     (Chat.setConfirmationState Chat.dialog_closed (Assistant.chat w)))
        as [-> _].
  - destruct (Chat.isVoiceActive (Assistant.chat w)); simpl.
    + destruct (Voice.sendConfirmation _ _ _ _ _ _ _) as [[v' es] errors].
      simpl.
      by destruct (onError_fold (Voice.t_reply (Assistant.voice_net net)) errors
                     (Chat.start (Chat.setConfirmationState Chat.dialog_closed
                                    (Assistant.chat w)) es)) as [_ ->].
    + by destruct (confirmInText_requests JSON_parse number_to_string now confirmed
                     (Assistant.text_net net)
                     (Chat.setConfirmationState Chat.dialog_closed (Assistant.chat w)))
        as [_ ->].
  - intros now0 net0 st0 Hw. rewrite Hw. simpl.
    pose proof (handleSend_identity JSON_parse number_to_string now0 net0 st0) as Hid.
    unfold Chat.handleSend in *.
    destruct (Chat.send_begin now0 st0) as [[st1 b]|] eqn:E; [|constructor].
    rewrite silent_complete by apply silent_send_catch. simpl.
    apply send_begin_identity in E as [_ E].
    constructor; [|constructor].
    unfold identity in *. injection E as -> ->. injection Hid as -> ->. done.
  - intros evs st.
    destruct (exec_identity JSON_parse number_to_string evs (Loop.boot st)) as [Hid Hreq].
    { constructor. }
    set (m := Loop.exec JSON_parse number_to_string evs (Loop.boot st)) in *.
    simpl in Hid, Hreq. split.
    + eapply Forall_impl; [exact Hreq|]. intros sent Hsent. simpl.
      rewrite <- Hid in Hsent. unfold identity in Hsent. by injection Hsent as -> ->.
    + intros Htext. simpl. by rewrite Htext.
Qed.

(** C2 fails as stated: the user confirms in voice mode after the socket
    has closed.  The dialog is open, yet the answer [true] produces no
    request at all, although the network would have answered. *)
Lemma voice_confirmation_without_socket_sends_nothing :
Chat.isVisible (Chat.confirmationState (Assistant.chat voice_world_after_close)) = true
∧ Chat.isVoiceActive (Assistant.chat voice_world_after_close) = true
∧ Net.chat_requests
    (Assistant.effects
       (Assistant.handleConfirmAction wire_parse wire_number 9 true friendly_net
          voice_world_after_close)) = []
∧ Net.chat_requests
    (Assistant.effects
       (Assistant.handleConfirmAction wire_parse wire_number 9 true friendly_net
          voice_world_after_close))
  ≠ [resume_request true (Assistant.chat voice_world_after_close)].
Proof. by vm_compute. Qed.

(** The theorem for an answer in text mode, right after a turn that asked
    for confirmation. *)
Lemma confirmation_resumes_with_yes_or_no_witness :
let st := Chat.setUserInput "remove the vehicle from Morning Express"
            (Chat.mount "1700000000000" "k3x9" "/dashboard/buses" (Chat.initial 0)) in
let net0 :=
  {| Chat.fetched :=
       Net.Responded {| Net.ok := true;
                        Net.body := Some {| Net.chunks := ["C:75% booked. Proceed?"];
                                            Net.ending := Net.StreamDone |} |};
     Chat.t_settled := 2; Chat.t_read_failure := 3 |} in
let w := {| Assistant.chat := Chat.ui (Chat.handleSend wire_parse wire_number 1 net0 st);
            Assistant.voice := Voice.initial |} in
Net.chat_requests
  (Assistant.effects (Assistant.handleConfirmAction wire_parse wire_number 9 true
                        friendly_net w))
= [{| Net.message := "yes"; Net.session_id := "chat-session-1700000000000-k3x9";
      Net.context_page := "busDashboard"; Net.image_base64 := None |}]
∧ Forall (λ sent, Net.session_id sent = "chat-session-1700000000000-k3x9"
                  ∧ Net.context_page sent = "busDashboard")
         (Net.chat_requests (Chat.log (Chat.handleSend wire_parse wire_number 1 net0 st))).
Proof.
  intros st net0 w.
  pose proof (confirmation_resumes_with_yes_or_no wire_parse wire_number 9 true
                friendly_net w) as (H1 & _ & H3 & _).
  split; [exact H1|exact (H3 1%Z net0 st eq_refl)].
Defined.

(** ** One request at a time *)

(** An event that is not an answer to the confirmation dialog. *)
Definition not_an_answer (ev : Loop.Event) : Prop :=
match ev with
| Loop.DialogAnswered _ _ => False
| _ => True
end.

(** The processing flag counts the activations in flight: one when it is
    set, none when it is clear. *)
Definition flag_counts_runs (m : Loop.Machine) : Prop :=
length (Loop.active m) = if Chat.isProcessing (Loop.ui m) then 1%nat else 0%nat.

Lemma active_insert (runs : list Loop.Run) : ∀ (i : nat) (r r' : Loop.Run),
runs !! i = Some r →
(length (Loop.still_running (<[i := r']> runs))
 + (if Loop.in_flight r then 1 else 0)
 = length (Loop.still_running runs)
   + (if Loop.in_flight r' then 1 else 0))%nat.
Proof.
  unfold Loop.still_running.
  induction runs as [|x runs IH]; intros i r r' Hr; [done|].
  destruct i as [|i]; simpl in *.
  - injection Hr as ->. rewrite !filter_cons.
    destruct (decide (Loop.in_flight r' = true)) as [->|H'%not_true_is_false];
      destruct (decide (Loop.in_flight r = true)) as [->|H%not_true_is_false];
      rewrite ?H, ?H'; simpl; lia.
  - rewrite !filter_cons. specialize (IH i r r' Hr).
    destruct (decide (Loop.in_flight x = true)); simpl; lia.
Qed.

Section OneAtATime.
Context (JSON_parse : string → option Js.value).
Context (number_to_string : spec_float → string).

(** The guard of [handleSend] closes on the processing flag. *)
Lemma send_begin_processing (now : Z) (st : Chat.State) :
Chat.isProcessing st = true → Chat.send_begin now st = None.
Proof.
intros H. unfold Chat.send_begin, Chat.send_refused. rewrite H.
by rewrite orb_true_r.
Qed.

Lemma send_begin_sets_flag (now : Z) (st st1 : Chat.State) (b : Net.ChatBody) :
Chat.send_begin now st = Some (st1, b) →
Chat.isProcessing st = false ∧ Chat.isProcessing st1 = true.
Proof.
unfold Chat.send_begin, Chat.send_refused.
destruct (Chat.isProcessing st); [by rewrite orb_true_r|].
destruct (_ || _); [done|]. intros H. by injection H as <- _.
Qed.

(** An activation in flight takes a piece [f] and goes on to [next]. *)
Lemma advance_flag (i : nat) (r : Loop.Run) (next : Loop.Phase)
(f : Chat.Progress → Chat.Progress) (m : Loop.Machine) :
Loop.runs m !! i = Some r → Loop.in_flight r = true →
flag_counts_runs m →
Chat.isProcessing (Chat.ui (f (view m r)))
= match next with
| Loop.Returned => false
| _ => Chat.isProcessing (Loop.ui m)
end →
flag_counts_runs (Loop.advance i r next f m).
Proof.
unfold flag_counts_runs, Loop.active, Loop.advance. simpl.
intros Hr Hfl Hm Hf.
pose proof (active_insert (Loop.runs m) i r
            {| Loop.kind := Loop.kind r; Loop.phase := next;
               Loop.request := Loop.request r;
               Loop.acc := Chat.accumulatedResponse (f (view m r)) |} Hr) as H.
rewrite Hfl in H. unfold view in *. rewrite Hf.
assert (Hpos : Chat.isProcessing (Loop.ui m) = true).
{ destruct (Chat.isProcessing (Loop.ui m)); [done|].
apply (list_elem_of_lookup_2 _ _ _) in Hr.
assert (Hin : r ∈ Loop.still_running (Loop.runs m))
  by (by apply list_elem_of_filter).
destruct (Loop.still_running (Loop.runs m)); [by apply elem_of_nil in Hin|done]. }
rewrite Hpos in *.
destruct next; unfold Loop.in_flight in H; simpl in H; lia.
Qed.

Lemma step_flag (ev : Loop.Event) (m : Loop.Machine) :
not_an_answer ev → flag_counts_runs m →
flag_counts_runs (Loop.step JSON_parse number_to_string ev m).
Proof.
intros Hev Hm.
destruct ev as [text|data| |now|now confirmed|i now a|i chunk|i|i now]; simpl;
try done.
- destruct (Chat.send_begin now (Loop.ui m)) as [[st b]|] eqn:E; [|done].
apply send_begin_sets_flag in E as [E0 E1].
unfold flag_counts_runs, Loop.active, Loop.still_running in *. simpl.
rewrite E0 in Hm. rewrite E1.
rewrite filter_app, length_app, Hm. done.
- destruct (Loop.runs m !! i) as [r|] eqn:Hr; [|done].
destruct (Loop.phase r) eqn:Hph; [|done..].
assert (Hfl : Loop.in_flight r = true) by (unfold Loop.in_flight; by rewrite Hph).
destruct a as [|[] []]; by apply advance_flag.
- destruct (Loop.runs m !! i) as [r|] eqn:Hr; [|done].
destruct (Loop.phase r) eqn:Hph; [done| |done].
assert (Hfl : Loop.in_flight r = true) by (unfold Loop.in_flight; by rewrite Hph).
apply advance_flag; [done..|].
apply (keeps_on_chunk Chat.isProcessing blind_isProcessing).
- destruct (Loop.runs m !! i) as [r|] eqn:Hr; [|done].
destruct (Loop.phase r) eqn:Hph; [done| |done].
assert (Hfl : Loop.in_flight r = true) by (unfold Loop.in_flight; by rewrite Hph).
by apply advance_flag.
- destruct (Loop.runs m !! i) as [r|] eqn:Hr; [|done].
destruct (Loop.phase r) eqn:Hph; [done| |done].
assert (Hfl : Loop.in_flight r = true) by (unfold Loop.in_flight; by rewrite Hph).
by apply advance_flag.
Qed.

Lemma exec_flag (evs : list Loop.Event) : ∀ m,
Forall not_an_answer evs → flag_counts_runs m →
flag_counts_runs (Loop.exec JSON_parse number_to_string evs m).
Proof.
induction evs as [|ev evs IH]; intros m Hevs Hm; [done|].
apply Forall_cons in Hevs as [Hev Hevs].
rewrite exec_cons. by apply IH, step_flag.
Qed.

End OneAtATime.

(** C7, as the code has it.  While the processing flag is set,
    [handleSend] returns at its guard: it sends nothing and leaves the state
    of the component as it is.  As long as the confirmation dialog is not
    answered, the flag is set exactly while one activation is in flight, so
    the send handler never has two requests in flight. *)
Theorem send_waits_for_the_flag
    (JSON_parse : string → option Js.value) (number_to_string : spec_float → string) :
(∀ now net st,
   Chat.isProcessing st = true →
   Chat.handleSend JSON_parse number_to_string now net st = Chat.start st [])
∧ (∀ now m,
     Chat.isProcessing (Loop.ui m) = true →
     Loop.step JSON_parse number_to_string (Loop.SendPressed now) m = m)
∧ (∀ evs st,
     Chat.isProcessing st = false → Forall not_an_answer evs →
     let m := Loop.exec JSON_parse number_to_string evs (Loop.boot st) in
     (length (Loop.active m) ≤ 1)%nat
     ∧ (Chat.isProcessing (Loop.ui m) = true ↔ length (Loop.active m) = 1%nat)).
Proof.
  split; [|split].
  - intros now net st H. unfold Chat.handleSend.
    by rewrite send_begin_processing.
  - intros now m H. simpl. by rewrite send_begin_processing.
  - intros evs st Hst Hevs m.
    assert (H : flag_counts_runs m).
    { apply exec_flag; [done|]. unfold flag_counts_runs. simpl. by rewrite Hst. }
    unfold flag_counts_runs in H. rewrite H.
    destruct (Chat.isProcessing (Loop.ui m)); split; try lia; done.
Qed.

(** The theorem while a first request waits for its response. *)
Lemma send_waits_for_the_flag_witness :
let st := Chat.mount "1700000000000" "k3x9" "/dashboard/buses" (Chat.initial 0) in
let m := Loop.exec wire_parse wire_number
           [Loop.Typed "list all vehicles"; Loop.SendPressed 1;
            Loop.Typed "list all drivers"; Loop.SendPressed 2]
           (Loop.boot st) in
(length (Loop.active m) ≤ 1)%nat
∧ Loop.step wire_parse wire_number (Loop.SendPressed 3) m = m.
Proof.
  intros st m.
  pose proof (send_waits_for_the_flag wire_parse wire_number) as (_ & H2 & H3).
  split.
  - refine (proj1 (H3 [Loop.Typed "list all vehicles"; Loop.SendPressed 1;
                       Loop.Typed "list all drivers"; Loop.SendPressed 2]
                      st eq_refl _)).
    repeat constructor.
  - exact (H2 3%Z m eq_refl).
Defined.

(** A turn that asks for confirmation, answered while its response is
    still being read. *)
Definition answer_during_stream : list Loop.Event :=
[Loop.Typed "remove the vehicle from Morning Express";
 Loop.SendPressed 1;
 Loop.FetchSettled 0 2 (Loop.Status true true);
 Loop.ChunkRead 0 "C:Morning Express is 75% booked. Proceed?";
 Loop.DialogAnswered 3 true].

(** The same, and then the stream of the first turn ends and the user
    sends the next message while the confirmation is still on its way. *)
Definition send_during_confirmation : list Loop.Event :=
answer_during_stream
++ [Loop.StreamEnded 0; Loop.Typed "list all vehicles"; Loop.SendPressed 4].

(** C7 fails as stated: the dialog of a turn is answered before the stream
    of that turn has ended.  The processing flag is set, and still the
    confirmation handler sends its request: two activations are in flight,
    both for the same session.  When the first stream then ends, its
    [finally] clears the flag although the confirmation is still in flight,
    and the send handler itself sends the next message next to it. *)
Lemma confirmation_does_not_wait_for_the_flag :
let st := Chat.mount "1700000000000" "k3x9" "/dashboard/buses" (Chat.initial 0) in
let before := Loop.exec wire_parse wire_number (take 4 answer_during_stream) (Loop.boot st) in
let after := Loop.exec wire_parse wire_number answer_during_stream (Loop.boot st) in
let later := Loop.exec wire_parse wire_number send_during_confirmation (Loop.boot st) in
Chat.isProcessing (Loop.ui before) = true
∧ Chat.isVisible (Chat.confirmationState (Loop.ui before)) = true
∧ length (Loop.active before) = 1%nat
∧ length (Loop.active after) = 2%nat
∧ (Net.session_id ∘ Loop.request) <$> Loop.active after
  = ["chat-session-1700000000000-k3x9"; "chat-session-1700000000000-k3x9"]
∧ Net.message <$> Net.chat_requests (Loop.trace after)
  = ["remove the vehicle from Morning Express"; "yes"]
∧ Loop.kind <$> Loop.active later = [Loop.ConfirmRun; Loop.SendRun]
∧ (Net.session_id ∘ Loop.request) <$> Loop.active later
  = ["chat-session-1700000000000-k3x9"; "chat-session-1700000000000-k3x9"]
∧ Net.message <$> Net.chat_requests (Loop.trace later)
  = ["remove the vehicle from Morning Express"; "yes"; "list all vehicles"].
Proof. by vm_compute. Qed.

(** ** The image of a turn *)

(** The pending upload of the component: [uploadedImage] and
    [imagePreviewUrl]. *)
Definition pending_image (st : Chat.State) : option string * option string :=
(Chat.uploadedImage st, Chat.imagePreviewUrl st).

Lemma blind_pending_image : blind pending_image.
Proof. by split. Qed.

Section Image.
Context (JSON_parse : string → option Js.value).
Context (number_to_string : spec_float → string).

Lemma send_begin_image (now : Z) (st st1 : Chat.State) (b : Net.ChatBody) :
Chat.send_begin now st = Some (st1, b) →
pending_image st1 = (None, None)
∧ Net.image_base64 b
= match Chat.uploadedImage st with
  | Some img => if Js.truthy_string img then Chat.base64Data img else None
  | None => None
  end.
Proof.
unfold Chat.send_begin. destruct (Chat.send_refused st); [done|].
intros H. by injection H as <- <-.
Qed.

Lemma handleSend_requests (now : Z) (net : Chat.Answer) (st : Chat.State) :
Net.chat_requests (Chat.log (Chat.handleSend JSON_parse number_to_string now net st))
= match Chat.send_begin now st with
| Some (_, b) => [b]
| None => []
end.
Proof.
unfold Chat.handleSend.
destruct (Chat.send_begin now st) as [[st1 b]|]; [|done].
by rewrite silent_complete by apply silent_send_catch.
Qed.

Lemma handleSend_pending_image (now : Z) (net : Chat.Answer) (st st1 : Chat.State)
(b : Net.ChatBody) :
Chat.send_begin now st = Some (st1, b) →
pending_image (Chat.ui (Chat.handleSend JSON_parse number_to_string now net st))
= (None, None).
Proof.
intros Hsend. unfold Chat.handleSend. rewrite Hsend.
rewrite (keeps_complete pending_image blind_pending_image);
[apply send_begin_image in Hsend as [H _]; exact H
|done
|intros t; apply keeps_send_catch, blind_pending_image].
Qed.

End Image.

(** C8, as the code has it.  A turn that carries an image sends it in the
    request of that turn, without the prefix of the data URL, and clears
    the pending upload, so that the requests of later turns and of a
    confirmation carry no image; but the user message that the turn appends
    to the chat keeps the image, for display. *)
Theorem image_travels_once_and_stays_in_the_chat
    (JSON_parse : string → option Js.value) (number_to_string : spec_float → string)
    (now : Z) (net : Chat.Answer) (st : Chat.State) (img : string)
    (Himg : Chat.uploadedImage st = Some img)
    (Htruthy : Js.truthy_string img = true)
    (Hidle : Chat.isProcessing st = false) :
let p := Chat.handleSend JSON_parse number_to_string now net st in
Net.image_base64 <$> Net.chat_requests (Chat.log p) = [Chat.base64Data img]
∧ pending_image (Chat.ui p) = (None, None)
∧ (∀ now' net' text,
     Forall (λ b, Net.image_base64 b = None)
       (Net.chat_requests
          (Chat.log (Chat.handleSend JSON_parse number_to_string now' net'
                       (Chat.setUserInput text (Chat.ui p))))))
∧ (∀ now' confirmed net',
     Forall (λ b, Net.image_base64 b = None)
       (Net.chat_requests
          (Chat.log (Chat.confirmInText JSON_parse number_to_string now' confirmed net'
                       (Chat.ui p)))))
∧ asked now st ∈ Chat.chatMessages (Chat.ui p)
∧ Chat.image (asked now st) = Some img.
Proof.
  intros p.
  assert (Hsend : ∃ st1 b, Chat.send_begin now st = Some (st1, b)).
  { unfold Chat.send_begin, Chat.send_refused.
    rewrite Himg, Hidle. simpl. rewrite Htruthy, andb_false_r. simpl. eauto. }
  destruct Hsend as (st1 & b & Hsend).
  pose proof (handleSend_pending_image JSON_parse number_to_string now net st st1 b Hsend)
    as Hpending.
  split; [|split; [|split; [|split; [|split]]]].
  - subst p. rewrite handleSend_requests, Hsend. simpl.
    apply send_begin_image in Hsend as [_ ->]. by rewrite Himg, Htruthy.
  - exact Hpending.
  - intros now' net' text. rewrite handleSend_requests.
    destruct (Chat.send_begin now' _) as [[st2 b2]|] eqn:E; [|constructor].
    apply send_begin_image in E as [_ E]. simpl in E.
    fold p in Hpending. injection Hpending as Hup _. rewrite Hup in E.
    by repeat constructor.
  - intros now' confirmed net'.
    rewrite (proj1 (confirmInText_requests JSON_parse number_to_string now' confirmed
                      net' (Chat.ui p))).
    by repeat constructor.
  - pose proof (handleSend_messages JSON_parse number_to_string now net st st1 b Hsend)
      as H. cbv zeta in H. fold p in H.
    destruct (request_failed net); [destruct H as [H _]|]; rewrite H; set_solver.
  - unfold asked. simpl. rewrite Himg. simpl. by rewrite Htruthy.
Qed.

(** The theorem on a pasted PNG. *)
Lemma image_travels_once_and_stays_in_the_chat_witness :
let st := Chat.imageLoaded "data:image/png;base64,iVBORw0KGgo"
            (Chat.setChatWindowOpen true (Chat.initial 0)) in
let net := {| Chat.fetched := Net.NetworkError; Chat.t_settled := 2;
              Chat.t_read_failure := 3 |} in
let p := Chat.handleSend wire_parse wire_number 1 net st in
Net.image_base64 <$> Net.chat_requests (Chat.log p) = [Some "iVBORw0KGgo"]
∧ Chat.uploadedImage (Chat.ui p) = None.
Proof.
  intros st net p.
  pose proof (image_travels_once_and_stays_in_the_chat wire_parse wire_number 1 net st
                "data:image/png;base64,iVBORw0KGgo" eq_refl eq_refl eq_refl)
    as (H1 & H2 & _).
  split; [exact H1|exact (f_equal fst H2)].
Defined.

(** C8 fails as stated: after a turn with an image has completed, the
    message history of the component holds the image, in the user message of
    that turn. *)
Lemma image_stays_in_the_message_history :
let st := Chat.imageLoaded "data:image/png;base64,iVBORw0KGgo"
            (Chat.setChatWindowOpen true (Chat.initial 0)) in
let net :=
  {| Chat.fetched :=
       Net.Responded {| Net.ok := true;
                        Net.body := Some {| Net.chunks := ["T:A bus timetable."];
                                            Net.ending := Net.StreamDone |} |};
     Chat.t_settled := 2; Chat.t_read_failure := 3 |} in
let p := Chat.handleSend wire_parse wire_number 1 net st in
Chat.isProcessing (Chat.ui p) = false
∧ Chat.image <$> Chat.chatMessages (Chat.ui p)
  = [None; Some "data:image/png;base64,iVBORw0KGgo"; None]
∧ ¬ Forall (λ m, Chat.image m = None) (Chat.chatMessages (Chat.ui p)).
Proof.
  vm_compute. split; [done|]. split; [done|].
  intros H. apply Forall_cons in H as [_ H]. apply Forall_cons in H as [H _]. done.
Qed.

(** ** Numbers: rounding never invents a NaN *)

Section Rounding.
Context (prec emax : Z).

Lemma shr_1_nonneg (mrs : shr_record) :
(0 ≤ shr_m mrs)%Z → (0 ≤ shr_m (shr_1 mrs))%Z.
Proof.
destruct mrs as [m r s]. simpl.
destruct m as [|[p|p|]|p]; simpl; intros H; lia.
Qed.

Lemma iter_shr_1_nonneg (n : positive) : ∀ mrs,
(0 ≤ shr_m mrs)%Z → (0 ≤ shr_m (SpecFloat.iter_pos shr_1 n mrs))%Z.
Proof.
induction n as [n IH|n IH|]; intros mrs H; simpl.
- by apply IH, IH, shr_1_nonneg.
- by apply IH, IH.
- by apply shr_1_nonneg.
Qed.

Lemma shr_fexp_nonneg (m e : Z) (l : location) :
(0 ≤ m)%Z → (0 ≤ shr_m (shr_fexp prec emax m e l).1)%Z.
Proof.
intros H. unfold shr_fexp, shr.
assert (H0 : (0 ≤ shr_m (shr_record_of_loc m l))%Z).
{ destruct l as [|[]]; simpl; lia. }
destruct (_ - e)%Z; simpl; [done| |done].
by apply iter_shr_1_nonneg.
Qed.

Lemma round_nearest_even_nonneg (m : Z) (l : location) :
(0 ≤ m)%Z → (0 ≤ round_nearest_even m l)%Z.
Proof.
intros H. unfold round_nearest_even.
destruct l as [|[]]; [done| |done|lia].
destruct (Z.even m); lia.
Qed.

Lemma binary_round_aux_not_nan (sx : bool) (mx ex : Z) (lx : location) :
(0 ≤ mx)%Z → binary_round_aux prec emax sx mx ex lx ≠ S754_nan.
Proof.
intros H. unfold binary_round_aux.
pose proof (shr_fexp_nonneg mx ex lx H) as H1.
destruct (shr_fexp prec emax mx ex lx) as [mrs' e']. simpl in H1.
pose proof (shr_fexp_nonneg
            (round_nearest_even (shr_m mrs') (loc_of_shr_record mrs')) e' loc_Exact
            (round_nearest_even_nonneg _ _ H1)) as H2.
destruct (shr_fexp prec emax _ e' loc_Exact) as [mrs'' e'']. simpl in H2.
destruct (shr_m mrs''); [done| |lia].
by destruct (_ <=? _)%Z.
Qed.

Lemma SFdiv_core_binary_nonneg (m1 m2 : positive) (e1 e2 : Z) :
(0 ≤ (SFdiv_core_binary prec emax (Zpos m1) e1 (Zpos m2) e2).1.1)%Z.
Proof.
unfold SFdiv_core_binary.
set (s := (_ - _ - _)%Z).
set (m' := match s with Zpos _ => Z.shiftl (Zpos m1) s | Z0 => Zpos m1 | Zneg _ => 0%Z end).
assert (Hm' : (0 ≤ m')%Z).
{ subst m'. destruct s; [lia| |lia]. apply Z.shiftl_nonneg. lia. }
pose proof (Z_div_mod m' (Zpos m2) eq_refl) as H.
destruct (Z.div_eucl m' (Zpos m2)) as [q r]. simpl.
destruct H as [H1 H2]. nia.
Qed.

Lemma SFmul_finite_not_nan (sx sy : bool) (mx my : positive) (ex ey : Z) :
SFmul prec emax (S754_finite sx mx ex) (S754_finite sy my ey) ≠ S754_nan.
Proof. simpl. by apply binary_round_aux_not_nan. Qed.

Lemma SFdiv_finite_not_nan (sx sy : bool) (mx my : positive) (ex ey : Z) :
SFdiv prec emax (S754_finite sx mx ex) (S754_finite sy my ey) ≠ S754_nan.
Proof.
simpl.
pose proof (SFdiv_core_binary_nonneg mx my ex ey) as H.
destruct (SFdiv_core_binary prec emax (Zpos mx) ex (Zpos my) ey) as [[mz ez] lz].
by apply binary_round_aux_not_nan.
Qed.

End Rounding.

(** ** The fill of the progress bar *)

(** Comparison of two positive finite numbers read backwards. *)
Lemma SFcompare_finite_swap (m1 m2 : positive) (e1 e2 : Z) :
SFcompare (S754_finite false m1 e1) (S754_finite false m2 e2)
= CompOpp <$> SFcompare (S754_finite false m2 e2) (S754_finite false m1 e1).
Proof.
  simpl. f_equal. rewrite (Z.compare_antisym e1 e2).
  destruct (e1 ?= e2)%Z; simpl; try done.
  change (Pos.compare_cont Eq m1 m2) with (Pos.compare m1 m2).
  change (Pos.compare_cont Eq m2 m1) with (Pos.compare m2 m1).
  by rewrite (Pos.compare_antisym m1 m2), CompOpp_involutive.
Qed.

(** Clamping a number to the range from 0 to 100. *)
Lemma clamp_in_range (x : spec_float) :
Number.isNaN x = false →
let r := Number.Math_min (Number.Math_max x Number.zero) Number.hundred in
Number.isNaN r = false ∧ Number.le Number.zero r = true ∧ Number.le r Number.hundred = true.
Proof.
  intros Hx. destruct x as [[]|[]| |[] m e]; [done..|].
  cbv zeta. unfold Number.Math_max, Number.zero.
  change (SFltb (S754_finite false m e) (S754_zero false)) with false. cbv iota.
  unfold Number.Math_min, Number.hundred.
  destruct (SFltb _ _) eqn:E; [done|].
  split; [done|]. split; [done|].
  unfold Number.le, SFleb. unfold SFltb in E.
  rewrite SFcompare_finite_swap.
  assert (Hc : ∃ c, SFcompare (S754_finite false 7036874417766400 (-46))
                              (S754_finite false m e) = Some c) by (simpl; eauto).
  destruct Hc as [c Hc]. rewrite Hc in *. by destruct c.
Qed.

(** What is clamped is a number unless the value is NaN or both the value
    and the maximum are infinite, for a maximum above zero. *)
Lemma ratio_not_nan (value max : spec_float) :
Number.isNaN value = false →
Number.lt Number.zero max = true →
Number.isInfinite value && Number.isInfinite max = false →
Number.isNaN (Number.mul (Number.div value max) Number.hundred) = false.
Proof.
  intros Hv Hmax Hinf.
  assert (Hnan : ∀ x, x ≠ S754_nan → Number.isNaN x = false) by (by intros []).
  assert (Hmul : ∀ x, x ≠ S754_nan →
                      Number.isNaN (Number.mul x Number.hundred) = false).
  { intros [s|s| |s m e] Hx; try done.
    apply Hnan, SFmul_finite_not_nan. }
  destruct max as [smax|[]| |[] mmax emax']; try done;
    destruct value as [sv|sv| |sv mv ev]; try done.
  apply Hmul, SFdiv_finite_not_nan.
Qed.

(** C9, as the code has it.  The fill is the ratio of the value to the
    maximum, times 100, clamped to the range from 0 to 100.  For a maximum
    above zero it is a number between 0 and 100 for every value that is a
    number, negative or beyond the maximum as it may be, unless both the
    value and the maximum are infinite.  With the maximum 0 the bound can
    fail: the value 0 gives NaN. *)
Theorem fill_percentage_is_clamped (value : spec_float) (max : option spec_float)
    (Hvalue : Number.isNaN value = false)
    (Hmax : Number.lt Number.zero (default Number.hundred max) = true)
    (Hfinite : Number.isInfinite value
               && Number.isInfinite (default Number.hundred max) = false) :
let fill := ProgressBar.percentage value max in
fill = Number.Math_min
         (Number.Math_max
            (Number.mul (Number.div value (default Number.hundred max)) Number.hundred)
            Number.zero)
         Number.hundred
∧ Number.isNaN fill = false
∧ Number.le Number.zero fill = true
∧ Number.le fill Number.hundred = true
∧ Number.isNaN (ProgressBar.percentage Number.zero (Some Number.zero)) = true.
Proof.
  intros fill. split; [done|].
  pose proof (clamp_in_range _ (ratio_not_nan value (default Number.hundred max)
                                  Hvalue Hmax Hfinite)) as (H1 & H2 & H3).
  by repeat split.
Qed.

(** The theorem for a value of 250 out of 100. *)
Lemma fill_percentage_is_clamped_witness :
ProgressBar.percentage (Number.of_Z 250) None = Number.hundred
∧ Number.le (ProgressBar.percentage (Number.of_Z 250) None) Number.hundred = true.
Proof.
  pose proof (fill_percentage_is_clamped (Number.of_Z 250) None eq_refl eq_refl eq_refl)
    as (_ & _ & _ & H & _).
  split; [reflexivity|exact H].
Defined.

(** C9 fails as stated: NaN is a value, and with the maximum 100 its fill
    is NaN, which is not between 0 and 100; so is the fill of an infinite
    value for an infinite maximum. *)
Lemma fill_percentage_of_nan :
Number.lt Number.zero Number.hundred = true
∧ ProgressBar.percentage Number.NaN (Some Number.hundred) = Number.NaN
∧ Number.le Number.zero (ProgressBar.percentage Number.NaN (Some Number.hundred)) = false
∧ Number.le (ProgressBar.percentage Number.NaN (Some Number.hundred)) Number.hundred = false
∧ Number.lt Number.zero Number.Infinity = true
∧ ProgressBar.percentage Number.Infinity (Some Number.Infinity) = Number.NaN.
Proof. by vm_compute. Qed.

(** ** The pipeline: a high-impact tool waits for its confirmation *)

Section HighImpact.
Context {DB : Type}.
Context (registry : gmap string (@Engine.ToolDescriptor DB)).
Context (classify : nat → list Engine.Turn → string → list string
                → option Engine.Classification).
Context (describeImage : string → string).
Context (synthesize : list Engine.Turn → option Engine.ExecutionResult
                  → option Engine.InterruptPayload → option (list string)).
Context (resolve_consequence : string → Engine.Entities → DB → Engine.InterruptPayload).

Local Abbreviation select := (Engine.select registry classify describeImage).
Local Abbreviation submit :=
(Engine.submit registry classify describeImage synthesize resolve_consequence).
Local Abbreviation resume := (Engine.resume registry synthesize).

(** The state on which the Selector works for a message of a session. *)
Definition turn_input (w : @Engine.World DB) (sid raw : string) (ctx : Engine.UiContext)
(img : option string) : Engine.AgentState :=
Engine.fresh
((default [] (Engine.conversation_history <$> Engine.sessions w !! sid))
 ++ [{| Engine.role := user; Engine.content := raw |}])
raw ctx img.

(** What the Selector hands on when it selects a tool. *)
Lemma select_selected (s : Engine.AgentState) (tool : string) :
Engine.selected_tool (select s) = Some tool →
∃ d es, registry !! tool = Some d
      ∧ Engine.extracted_entities (select s) = Some es
      ∧ Engine.missing_required d es = []
      ∧ Engine.needs_clarification (select s) = false
      ∧ Engine.execution_result (select s) = Engine.execution_result s.
Proof.
unfold Engine.select.
destruct (match classify 0 _ _ _ with Some c => Some c | None => _ end) as [c|];
[|done].
destruct (registry !! Engine.c_tool c) as [d|] eqn:Hd; [|done].
destruct (bool_decide (Engine.c_tool c ∈ _)); [|done]. simpl.
case_bool_decide as Hmissing; [|done]. simpl.
intros [= <-]. by exists d, (Engine.c_entities c).
Qed.

Lemma acquireLease_free (sid : string) (w : @Engine.World DB) :
sid ∉ Engine.leases w →
Engine.acquireLease sid w
= Some {| Engine.db := Engine.db w; Engine.sessions := Engine.sessions w;
        Engine.checkpoints := Engine.checkpoints w;
        Engine.leases := {[ sid ]} ∪ Engine.leases w |}.
Proof. intros H. unfold Engine.acquireLease. by rewrite decide_False. Qed.

(** C1.  Let the Selector pick a tool of impact [high] for a message of a
session whose lease is free.  Then [submit] answers with the interrupt
payload that the Consequence Resolver computed from the persisted state,
the persisted state is what it was, the checkpoint of the session holds
the state with the tool, its entities, [awaiting_confirmation] set and no
execution result, and the lease is free again.  A following
[resume] with [approved = false] leaves the persisted state as it was
and records [cancelled_by_user]; only a [resume] with [approved = true]
runs the handler of the tool, on the checkpointed entities, and so
changes the persisted state.  Either way the checkpoint is consumed. *)
Theorem high_impact_tool_waits_for_confirmation
(w : @Engine.World DB) (sid raw : string) (ctx : Engine.UiContext)
(img : option string) (tool : string) (d : Engine.ToolDescriptor)
(Hlease : sid ∉ Engine.leases w)
(Htool : registry !! tool = Some d)
(Hhigh : Engine.impact d = Engine.high)
(Hselect : Engine.selected_tool (select (turn_input w sid raw ctx img)) = Some tool) :
∃ es snapshot,
let suspended := submit sid raw ctx img w in
let rejected := resume sid false suspended.1 in
let approved := resume sid true suspended.1 in
suspended.2 = Engine.Interrupt (resolve_consequence tool es (Engine.db w))
∧ Engine.db suspended.1 = Engine.db w
∧ Engine.checkpoints suspended.1 !! sid
  = Some {| Engine.agent_state_snapshot := snapshot;
            Engine.suspended_at_stage := Engine.safety_gate |}
∧ Engine.awaiting_confirmation snapshot = true
∧ Engine.selected_tool snapshot = Some tool
∧ Engine.extracted_entities snapshot = Some es
∧ Engine.execution_result snapshot = None
∧ (sid ∉ Engine.leases suspended.1)
∧ Engine.db rejected.1 = Engine.db w
∧ (∃ s tokens, rejected.2 = Engine.Reply tokens
               ∧ Engine.sessions rejected.1 !! sid = Some s
               ∧ Engine.execution_result s
                 = Some (Engine.failure "cancelled_by_user"))
∧ Engine.checkpoints rejected.1 !! sid = None
∧ Engine.db approved.1 = (Engine.handler d es (Engine.db w)).1
∧ (∃ s tokens r, approved.2 = Engine.Reply tokens
                 ∧ Engine.sessions approved.1 !! sid = Some s
                 ∧ Engine.execution_result s = Some r
                 ∧ Engine.selected_tool s = Some tool
                 ∧ Engine.extracted_entities s = Some es)
∧ Engine.checkpoints approved.1 !! sid = None.
Proof.
destruct (select_selected _ tool Hselect) as (d' & es & Hd' & Hes & Hmissing & Hclar & Hres).
assert (d' = d) as -> by congruence.
set (s1 := select (turn_input w sid raw ctx img)) in *.
set (payload := resolve_consequence tool es (Engine.db w)).
set (snapshot := Engine.with_gate s1 (Some payload) true).
exists es, snapshot.
assert (Hsubmit :
submit sid raw ctx img w
= (Engine.releaseLease sid
     (Engine.put sid {| Engine.agent_state_snapshot := snapshot;
                        Engine.suspended_at_stage := Engine.safety_gate |}
        (Engine.save sid snapshot
           {| Engine.db := Engine.db w; Engine.sessions := Engine.sessions w;
              Engine.checkpoints := Engine.checkpoints w;
              Engine.leases := {[ sid ]} ∪ Engine.leases w |})),
   Engine.Interrupt payload)).
{ unfold Engine.submit. rewrite (acquireLease_free sid w Hlease). simpl.
fold (turn_input w sid raw ctx img). fold s1. rewrite Hclar.
unfold Engine.gate. rewrite Hselect, Htool. simpl. rewrite Hhigh, Hes. done. }
cbv zeta. rewrite Hsubmit. simpl.
set (w1 := Engine.releaseLease sid _).
assert (Hfree : sid ∉ Engine.leases w1).
{ simpl. intros [_ Hn]%elem_of_difference. apply Hn. by apply elem_of_singleton. }
assert (Hcp : Engine.checkpoints w1 !! sid
            = Some {| Engine.agent_state_snapshot := snapshot;
                      Engine.suspended_at_stage := Engine.safety_gate |})
by (simpl; by rewrite lookup_insert_eq).
assert (Hexec : Engine.execute registry snapshot (Engine.db w)
              = ((Engine.handler d es (Engine.db w)).1,
                 match (Engine.handler d es (Engine.db w)).2 with
                 | inl result => {| Engine.success := true; Engine.payload := result;
                                    Engine.error := None |}
                 | inr msg => Engine.failure msg
                 end)).
{ unfold Engine.execute. simpl. rewrite Hselect, Htool, Hes. simpl. rewrite Hmissing.
by destruct (Engine.handler d es (Engine.db w)) as [d2 [result|msg]]. }
assert (Hresume : ∀ approved,
resume sid approved w1
= if approved
  then Engine.finish synthesize sid
         (Engine.with_result snapshot
            match (Engine.handler d es (Engine.db w)).2 with
            | inl result => {| Engine.success := true; Engine.payload := result;
                               Engine.error := None |}
            | inr msg => Engine.failure msg
            end)
         (Engine.set_db (Engine.handler d es (Engine.db w)).1
            (Engine.delete_checkpoint sid
               {| Engine.db := Engine.db w1; Engine.sessions := Engine.sessions w1;
                  Engine.checkpoints := Engine.checkpoints w1;
                  Engine.leases := {[ sid ]} ∪ Engine.leases w1 |}))
  else Engine.finish synthesize sid
         (Engine.with_result snapshot (Engine.failure "cancelled_by_user"))
         (Engine.delete_checkpoint sid
            {| Engine.db := Engine.db w1; Engine.sessions := Engine.sessions w1;
               Engine.checkpoints := Engine.checkpoints w1;
               Engine.leases := {[ sid ]} ∪ Engine.leases w1 |})).
{ intros approved. unfold Engine.resume.
rewrite (acquireLease_free sid w1 Hfree). unfold Engine.get. simpl Engine.checkpoints.
rewrite lookup_insert_eq. simpl Engine.agent_state_snapshot.
destruct approved; [|done].
change (Engine.db (Engine.delete_checkpoint sid _)) with (Engine.db w).
by rewrite Hexec. }
rewrite !Hresume. unfold Engine.finish.
destruct (Engine.reply synthesize (Engine.with_result snapshot _)) as [sa ta] eqn:Ea.
destruct (Engine.reply synthesize
          (Engine.with_result snapshot (Engine.failure "cancelled_by_user")))
as [sr tr] eqn:Er.
unfold Engine.reply in Ea, Er. injection Ea as <- <-. injection Er as <- <-.
simpl.
repeat split; try done;
try (by rewrite ?lookup_delete_eq, ?lookup_insert_eq).
- eexists _, _. split; [done|]. split; [by rewrite lookup_insert_eq|done].
- eexists _, _, _. split; [done|]. split; [by rewrite lookup_insert_eq|done].
Qed.

End HighImpact.

(** A small fleet for the examples: the persisted state lists which
    vehicle serves which trip. *)
Definition fleet : Type := list (string * string).

Definition remove_vehicle_from_trip (es : Engine.Entities) (db : fleet)
  : fleet * (Js.value + string) :=
match es !! "trip" with
| Some (Js.Str trip) =>
    (filter (λ assignment, assignment.1 ≠ trip) db, inl (Js.Str "vehicle removed"))
| _ => (db, inr "trip not found")
end.

Definition fleet_registry : gmap string (@Engine.ToolDescriptor fleet) :=
{[ "remove_vehicle_from_trip" :=
     {| Engine.schema := [{| Engine.param_name := "trip";
                             Engine.expected_type := "string";
                             Engine.required := true |}];
        Engine.contexts := [Engine.busDashboard];
        Engine.impact := Engine.high;
        Engine.handler := remove_vehicle_from_trip |};
   "list_all_vehicles" :=
     {| Engine.schema := [];
        Engine.contexts := [Engine.busDashboard; Engine.vehicles];
        Engine.impact := Engine.normal;
        Engine.handler := λ _ db, (db, inl (Js.Arr (Js.Str <$> db.*2))) |} ]}.

Definition fleet_classify (attempt : nat) (history : list Engine.Turn) (msg : string)
    (tools : list string) : option Engine.Classification :=
if Js.includes msg "remove the vehicle" then
  Some {| Engine.c_intent := "remove_vehicle";
          Engine.c_tool := "remove_vehicle_from_trip";
          Engine.c_entities := {[ "trip" := Js.Str "Morning Express" ]} |}
else
  Some {| Engine.c_intent := "list_vehicles";
          Engine.c_tool := "list_all_vehicles";
          Engine.c_entities := ∅ |}.

Definition fleet_consequence (tool : string) (es : Engine.Entities) (db : fleet)
  : Engine.InterruptPayload :=
{| Engine.message := "Morning Express is 75% booked. Remove its vehicle?";
   Engine.structured_consequence :=
     Js.Obj [("tool", Js.Str tool); ("booking_percentage", Js.Num (Number.of_Z 75))] |}.

Definition fleet_world : @Engine.World fleet :=
{| Engine.db := [("Morning Express", "KA-01-AB-1234"); ("Evening Shuttle", "KA-05-XY-9876")];
   Engine.sessions := ∅; Engine.checkpoints := ∅; Engine.leases := ∅ |}.

(** The theorem for the message that removes the vehicle of Morning
    Express: the submit is answered by the interrupt and the fleet is
    untouched; the approved resume removes the assignment. *)
Lemma high_impact_tool_waits_for_confirmation_witness :
let submit := Engine.submit fleet_registry fleet_classify (λ _, EmptyString)
                (λ _ _ _, None) fleet_consequence in
let suspended := submit "session-1" "remove the vehicle from Morning Express"
                   Engine.busDashboard None fleet_world in
Engine.db suspended.1 = Engine.db fleet_world
∧ Engine.db (Engine.resume fleet_registry (λ _ _ _, None) "session-1" true suspended.1).1
  = [("Evening Shuttle", "KA-05-XY-9876")].
Proof.
  intros submit suspended.
  assert (Hlease : "session-1" ∉ Engine.leases fleet_world) by apply not_elem_of_empty.
  assert (Htool : fleet_registry !! "remove_vehicle_from_trip"
                  = Some {| Engine.schema := [{| Engine.param_name := "trip";
                                                 Engine.expected_type := "string";
                                                 Engine.required := true |}];
                            Engine.contexts := [Engine.busDashboard];
                            Engine.impact := Engine.high;
                            Engine.handler := remove_vehicle_from_trip |})
    by reflexivity.
  assert (Hselect :
    Engine.selected_tool
      (Engine.select fleet_registry fleet_classify (λ _, EmptyString)
         (turn_input fleet_world "session-1" "remove the vehicle from Morning Express"
            Engine.busDashboard None))
    = Some "remove_vehicle_from_trip") by (vm_compute; reflexivity).
  destruct (high_impact_tool_waits_for_confirmation fleet_registry fleet_classify
              (λ _, EmptyString) (λ _ _ _, None) fleet_consequence fleet_world
              "session-1" "remove the vehicle from Morning Express" Engine.busDashboard
              None "remove_vehicle_from_trip" _ Hlease Htool eq_refl Hselect)
    as (es & snapshot & _ & Hdb & _).
  split; [exact Hdb|].
  vm_compute. reflexivity.
Defined.

(* ===================================================================== *)
(** * Further properties of the interface                                  *)
(* ===================================================================== *)

(** ** Splitting and joining *)

(** [s] without its first [n] characters. *)
Fixpoint skip_chars (n : nat) (s : string) : string :=
  match n, s with
  | O, _ => s
  | S _, EmptyString => EmptyString
  | S k, String _ s' => skip_chars k s'
  end.

(** The leftmost occurrence of [sep] in [s]: the text before it and the
    text after it. *)
Fixpoint cut (s sep : string) : option (string * string) :=
  if Js.startsWith s sep then Some (EmptyString, skip_chars (String.length sep) s)
  else
    match s with
    | EmptyString => None
    | String c s' =>
        match cut s' sep with
        | Some (p, r) => Some (String c p, r)
        | None => None
        end
    end.

Lemma rev_app_app (s acc : string) : String.rev_app s acc = String.rev s +:+ acc.
Proof.
  revert acc. induction s as [|c s IH]; intros acc; [done|].
  unfold String.rev. simpl. rewrite (IH (String c acc)), (IH (String c EmptyString)).
  by rewrite string_app_assoc.
Qed.

Lemma rev_cons (c : ascii) (s : string) :
  String.rev (String c s) = String.rev s +:+ String c EmptyString.
Proof. unfold String.rev at 1. simpl. apply rev_app_app. Qed.

Lemma skip_chars_app (p s : string) : skip_chars (String.length p) (p +:+ s) = s.
Proof. induction p as [|c p IH]; [by destruct s|]. rewrite string_app_cons. exact IH. Qed.

Lemma split_go_skip (sep : string) (s : string) : ∀ k cur,
  Js.split_go sep k cur s = Js.split_go sep 0 cur (skip_chars k s).
Proof.
  induction s as [|c s IH]; intros k cur; destruct k as [|k]; try done.
  simpl. apply IH.
Qed.

Lemma split_go_nonempty (sep : string) (s : string) : ∀ k cur,
  Js.split_go sep k cur s ≠ [].
Proof.
  induction s as [|c s IH]; intros k cur; simpl; [done|].
  destruct k as [|k]; [|apply IH].
  destruct (Js.startsWith (String c s) sep); [done|apply IH].
Qed.

Lemma join_cons (p : string) (rest : list string) (sep : string) :
  rest ≠ [] → Js.join (p :: rest) sep = p +:+ sep +:+ Js.join rest sep.
Proof. by destruct rest. Qed.

(** The first piece can be extended to the left. *)
Lemma join_prepend (a p : string) (rest : list string) (sep : string) :
  Js.join ((a +:+ p) :: rest) sep = a +:+ Js.join (p :: rest) sep.
Proof.
  destruct rest as [|q rest]; [done|].
  rewrite !join_cons by done. by rewrite string_app_assoc.
Qed.

Lemma startsWith_rest (c : ascii) (s : string) (a : ascii) (sep : string) :
  Js.startsWith (String c s) (String a sep) = true →
  c = a ∧ String a sep +:+ skip_chars (String.length sep) s = String c s.
Proof.
  intros [t Ht]%startsWith_spec. rewrite string_app_cons in Ht.
  injection Ht as -> ->. split; [done|].
  by rewrite string_app_cons, skip_chars_app.
Qed.

(** What [split] cuts, [join] puts together again: for every separator,
    [s.split(sep).join(sep)] is [s]. *)
Lemma join_split_go (a : ascii) (sep' : string) (s : string) : ∀ k cur,
  Js.join (Js.split_go (String a sep') k cur s) (String a sep')
  = String.rev cur +:+ skip_chars k s.
Proof.
  induction s as [|c s IH]; intros k cur.
  { destruct k; simpl; by rewrite string_app_nil_r. }
  destruct k as [|k]; [|apply IH].
  cbn [Js.split_go skip_chars].
  destruct (Js.startsWith (String c s) (String a sep')) eqn:E.
  - apply startsWith_rest in E as [-> E].
    rewrite join_cons by apply split_go_nonempty.
    rewrite IH. cbn [String.length]. rewrite Nat.sub_succ, Nat.sub_0_r.
    change (String.rev EmptyString) with EmptyString. rewrite string_app_nil_l.
    by rewrite E.
  - rewrite IH, rev_cons, string_app_assoc. reflexivity.
Qed.

Lemma join_split (s sep : string) : Js.join (Js.split s sep) sep = s.
Proof.
  destruct sep as [|a sep'].
  - unfold Js.split. induction s as [|c s IH]; [done|].
    simpl. destruct (Js.split_chars s) eqn:E.
    + destruct s; [done|discriminate E].
    + rewrite IH. reflexivity.
  - unfold Js.split. by rewrite join_split_go.
Qed.

Lemma split_nonempty (s a : string) (c : ascii) : Js.split s (String c a) ≠ [].
Proof. apply split_go_nonempty. Qed.

(** X1. The message the chat shows for a voice error is the text of the
    error behind the fixed label, for every text: cutting the text into
    lines, labelling the first line and joining the lines again changes
    nothing else, however many line feeds the text has and wherever they
    are. *)
Theorem voice_error_is_labelled (error : string) :
  Chat.formattedError error = "**Voice Error:** " +:+ error.
Proof.
  unfold Chat.formattedError.
  pose proof (join_split error (String "010" EmptyString)) as H.
  destruct (Js.split error (String "010" EmptyString)) as [|first rest] eqn:E.
  - by apply split_nonempty in E.
  - by rewrite join_prepend, H.
Qed.

(** ** The payload of a data URL *)

Lemma startsWith_app (s t p : string) :
  Js.startsWith s p = true → Js.startsWith (s +:+ t) p = true.
Proof.
  rewrite !startsWith_spec. intros [u ->]. exists (u +:+ t).
  by rewrite string_app_assoc.
Qed.

Lemma startsWith_empty (s : string) : Js.startsWith s EmptyString = true.
Proof. by destruct s. Qed.

Lemma includes_app_false (s t sep : string) :
  Js.includes (s +:+ t) sep = false → Js.includes s sep = false.
Proof.
  intros H. destruct (Js.includes s sep) eqn:E; [|done].
  apply includes_spec in E as (pre & post & ->).
  assert (Js.includes ((pre +:+ sep +:+ post) +:+ t) sep = true) as H'.
  { apply includes_spec. exists pre, (post +:+ t). by rewrite !string_app_assoc. }
  congruence.
Qed.

(** [cut] finds an occurrence, and the leftmost one: the separator does
    not start anywhere in the text before it. *)
Lemma cut_Some (sep : string) (s : string) : ∀ p r,
  cut s sep = Some (p, r) →
  s = p +:+ sep +:+ r ∧
  ∀ p1 p2, p = p1 +:+ p2 → p2 ≠ EmptyString →
           Js.startsWith (p2 +:+ sep +:+ r) sep = false.
Proof.
  induction s as [|c s IH]; intros p r; simpl.
  - destruct (Js.startsWith EmptyString sep) eqn:E; [|done].
    intros [= <- <-]. apply startsWith_spec in E as [t Ht].
    destruct sep; [|discriminate Ht]. split; [done|].
    intros p1 p2 Hp Hp2. destruct p1; [rewrite string_app_nil_l in Hp; congruence|
                   rewrite string_app_cons in Hp; discriminate Hp].
  - destruct (Js.startsWith (String c s) sep) eqn:E.
    + intros [= <- <-]. split.
      * apply startsWith_spec in E as [t Ht]. rewrite Ht at 1.
        rewrite Ht, skip_chars_app. reflexivity.
      * intros p1 p2 Hp Hp2. destruct p1; [rewrite string_app_nil_l in Hp; congruence|
                   rewrite string_app_cons in Hp; discriminate Hp].
    + destruct (cut s sep) as [[p' r']|] eqn:Hcut; [|done].
      intros [= <- <-]. destruct (IH _ _ eq_refl) as [Hs Hleft]. split.
      * by rewrite string_app_cons, <- Hs.
      * intros p1 p2 Hp Hp2. destruct p1 as [|c1 p1].
        -- rewrite string_app_nil_l in Hp. subst p2.
           by rewrite string_app_cons, <- Hs.
        -- rewrite string_app_cons in Hp. injection Hp as _ Hp.
           by apply (Hleft p1 p2).
Qed.

Lemma cut_None (sep : string) (s : string) :
  cut s sep = None ↔ Js.includes s sep = false.
Proof.
  induction s as [|c s IH]; simpl.
  - rewrite orb_false_r. by destruct (Js.startsWith EmptyString sep).
  - destruct (Js.startsWith (String c s) sep); [done|]. simpl.
    rewrite <- IH. by destruct (cut s sep) as [[? ?]|].
Qed.

(** The text before the leftmost occurrence holds no occurrence. *)
Lemma cut_before (sep s p r : string) :
  cut s sep = Some (p, r) → sep ≠ EmptyString → Js.includes p sep = false.
Proof.
  intros [_ Hleft]%cut_Some Hsep.
  destruct (Js.includes p sep) eqn:E; [|done]. exfalso.
  apply includes_spec in E as (pre & post & Hp).
  assert (Hne : sep +:+ post ≠ EmptyString) by (by destruct sep).
  specialize (Hleft pre (sep +:+ post) Hp Hne).
  rewrite string_app_assoc in Hleft.
  assert (Js.startsWith (sep +:+ post +:+ sep +:+ r) sep = true)
    by (apply startsWith_spec; eauto).
  congruence.
Qed.

(** [split] cuts at the leftmost occurrence and goes on behind it. *)
Lemma split_go_cut (a : ascii) (sep' : string) (s : string) : ∀ cur,
  Js.split_go (String a sep') 0 cur s
  = match cut s (String a sep') with
    | Some (p, r) =>
        (String.rev cur +:+ p) :: Js.split_go (String a sep') 0 EmptyString r
    | None => [String.rev cur +:+ s]
    end.
Proof.
  induction s as [|c s IH]; intros cur.
  { simpl. by rewrite string_app_nil_r. }
  cbn [Js.split_go cut].
  destruct (Js.startsWith (String c s) (String a sep')) eqn:E.
  - rewrite split_go_skip, string_app_nil_r. cbn [String.length skip_chars].
    by rewrite Nat.sub_succ, Nat.sub_0_r.
  - rewrite IH, rev_cons.
    destruct (cut s (String a sep')) as [[p r]|];
      by rewrite string_app_assoc.
Qed.

(** [base64Data] never comes back empty-handed. *)
Lemma base64Data_Some (img : string) : is_Some (Chat.base64Data img).
Proof.
  unfold Chat.base64Data.
  destruct (Js.includes img "base64,") eqn:E; [|done].
  unfold Js.split. rewrite split_go_cut.
  destruct (cut img "base64,") as [[p r]|] eqn:Hcut.
  - rewrite split_go_cut. by destruct (cut r "base64,") as [[d tail]|].
  - apply cut_None in Hcut. congruence.
Qed.

(** X2. [base64Data] always yields a text.  For an image text without
    the marker [base64,] it is the text itself; otherwise it is what
    stands between the first marker and the next one, or the end: the
    image text is [p], the marker, the result and a tail, where neither
    [p] nor the result holds a marker and the tail is empty or starts
    with one. *)
Theorem base64Data_is_the_payload (imageToSend : string) :
  ∃ d, Chat.base64Data imageToSend = Some d ∧
       if Js.includes imageToSend "base64,"
       then ∃ p tail, imageToSend = p +:+ "base64," +:+ d +:+ tail
                      ∧ Js.includes p "base64," = false
                      ∧ Js.includes d "base64," = false
                      ∧ (tail = EmptyString ∨ Js.startsWith tail "base64," = true)
       else d = imageToSend.
Proof.
  unfold Chat.base64Data.
  destruct (Js.includes imageToSend "base64,") eqn:E; [|by eexists].
  unfold Js.split. rewrite split_go_cut.
  destruct (cut imageToSend "base64,") as [[p r]|] eqn:Hcut.
  2: { apply cut_None in Hcut. congruence. }
  pose proof (cut_before _ _ _ _ Hcut) as Hp.
  apply cut_Some in Hcut as [Himg _].
  rewrite split_go_cut.
  destruct (cut r "base64,") as [[d tail]|] eqn:Hcut'.
  - exists d. split; [done|]. exists p, ("base64," +:+ tail).
    pose proof (cut_before _ _ _ _ Hcut') as Hd.
    apply cut_Some in Hcut' as [Hr _].
    split; [by rewrite Himg, Hr|]. split; [by apply Hp|]. split; [by apply Hd|].
    right. apply startsWith_spec. by exists tail.
  - exists r. split; [done|]. exists p, EmptyString.
    apply cut_None in Hcut'.
    split; [by rewrite string_app_nil_r|]. split; [by apply Hp|]. by split; [|left].
Qed.

(** ** The Send button and the guard of [handleSend] *)

Lemma sendDisabled_send_refused (st : Chat.State) :
  Panel.sendDisabled st = Chat.send_refused st.
Proof. unfold Panel.sendDisabled, Chat.send_refused. apply orb_comm. Qed.

Lemma truthy_string_trim (s : string) :
  Js.truthy_string (Js.trim s) = false ↔ only_white_space s.
Proof.
  rewrite trim_only_white_space. by destruct (Js.trim s).
Qed.

(** X3. The Send button is disabled exactly when [handleSend] would leave
    at its guard: while a request is in flight, or when the input is
    blank (empty or white space only) and no image is pending.  Called in
    such a state, from the Enter key for one, [handleSend] changes nothing
    and sends nothing; called in any other state it sends exactly one chat
    request, whatever the network answers. *)
Theorem send_button_follows_the_guard
    (JSON_parse : string → option Js.value) (number_to_string : spec_float → string)
    (now : Z) (net : Chat.Answer) (st : Chat.State) :
  (Panel.sendDisabled st = true ↔
     Chat.isProcessing st = true
     ∨ (only_white_space (Chat.userInput st)
        ∧ Js.truthy_opt (Chat.uploadedImage st) = false))
  ∧ (Panel.sendDisabled st = true →
       Chat.handleSend JSON_parse number_to_string now net st = Chat.start st [])
  ∧ (Panel.sendDisabled st = false →
       ∃ b, Net.chat_requests
              (Chat.log (Chat.handleSend JSON_parse number_to_string now net st)) = [b]).
Proof.
  split; [|split].
  - unfold Panel.sendDisabled.
    rewrite orb_true_iff, andb_true_iff, !negb_true_iff, truthy_string_trim. tauto.
  - rewrite sendDisabled_send_refused. intros H.
    unfold Chat.handleSend, Chat.send_begin. by rewrite H.
  - rewrite sendDisabled_send_refused. intros H.
    rewrite (handleSend_requests JSON_parse number_to_string).
    unfold Chat.send_begin. rewrite H. by eexists.
Qed.

(** What an accepted send shows and sends. *)
Lemma send_begin_shown (now : Z) (st st1 : Chat.State) (b : Net.ChatBody) :
  Chat.send_begin now st = Some (st1, b) →
  Chat.send_refused st = false
  ∧ Chat.chatMessages st1 = Chat.chatMessages st ++ [asked now st]
  ∧ Net.message b = Chat.content (asked now st)
  ∧ Net.message b = (if Js.truthy_string (Chat.userInput st) then Chat.userInput st
                     else "What's in this image?")
  ∧ Chat.userInput st1 = EmptyString.
Proof.
  unfold Chat.send_begin. destruct (Chat.send_refused st) eqn:E; [done|].
  intros [= <- <-]. by repeat split.
Qed.

(** X4. An accepted send shows what it sends.  The user message appended
    to the chat has the text of the request, which is the input as typed,
    or the question [What's in this image?] when the input is empty; the
    input field is emptied.  The text sent is never empty, a text of white
    space only is sent only together with an image, and the request
    carries image data exactly when the message in the chat shows an
    image. *)
Theorem accepted_send_shows_what_it_sends
    (now : Z) (st st1 : Chat.State) (b : Net.ChatBody)
    (Hsend : Chat.send_begin now st = Some (st1, b)) :
  last (Chat.chatMessages st1)
  = Some {| Chat.role := user; Chat.content := Net.message b; Chat.timestamp := now;
            Chat.image := Chat.image (asked now st) |}
  ∧ Net.message b = (if Js.truthy_string (Chat.userInput st) then Chat.userInput st
                     else "What's in this image?")
  ∧ Chat.userInput st1 = EmptyString
  ∧ Net.message b ≠ EmptyString
  ∧ (only_white_space (Net.message b) → is_Some (Net.image_base64 b))
  ∧ (is_Some (Net.image_base64 b) ↔ is_Some (Chat.image (asked now st))).
Proof.
  pose proof (send_begin_image now st st1 b Hsend) as [_ Himg].
  apply send_begin_shown in Hsend as (Hguard & Hmsgs & Hshown & Htext & Hinput).
  assert (Hiff : is_Some (Net.image_base64 b) ↔ is_Some (Chat.image (asked now st))).
  { rewrite Himg. unfold asked. simpl. unfold Js.truthy_opt.
    destruct (Chat.uploadedImage st) as [img|]; [|done].
    destruct (Js.truthy_string img); [|done].
    split; intros _; [done|apply base64Data_Some]. }
  split; [|split; [|split; [|split; [|split]]]]; try done.
  - rewrite Hmsgs, last_snoc. f_equal. rewrite Hshown. by unfold asked.
  - rewrite Htext. by destruct (Chat.userInput st).
  - intros Hblank. apply Hiff. unfold asked. simpl.
    rewrite Htext in Hblank.
    destruct (Js.truthy_string (Chat.userInput st)) eqn:E.
    + apply truthy_string_trim in Hblank.
      unfold Chat.send_refused in Hguard. rewrite Hblank in Hguard. simpl in Hguard.
      apply orb_false_iff in Hguard as [Hup _]. apply negb_false_iff in Hup.
      rewrite Hup. unfold Js.truthy_opt in Hup.
      by destruct (Chat.uploadedImage st).
    + simpl in Hblank. by destruct Hblank as [? _].
Qed.

(** The theorem on an input of one space and a pasted image. *)
Lemma accepted_send_shows_what_it_sends_witness :
  let st := Chat.imageLoaded "data:image/png;base64,iVBORw0KGgo"
              (Chat.setUserInput " " (Chat.initial 0)) in
  ∃ st1 b, Chat.send_begin 1 st = Some (st1, b)
           ∧ Net.message b = " "
           ∧ is_Some (Net.image_base64 b).
Proof.
  intros st.
  destruct (Chat.send_begin 1 st) as [[st1 b]|] eqn:E; [|discriminate E].
  exists st1, b. split; [done|].
  pose proof (accepted_send_shows_what_it_sends 1 st st1 b E) as (_ & H2 & _ & _ & H5 & _).
  split; [exact H2|]. apply H5. rewrite H2. simpl. by split.
Defined.

(** ** Images from the clipboard and from the file input *)

Lemma indexOf_includes (s sub : string) :
  (-1 ≤ Text.indexOf s sub)%Z
  ∧ (Text.indexOf s sub = (-1)%Z ↔ Js.includes s sub = false).
Proof.
  induction s as [|c s [IH1 IH2]]; simpl.
  - destruct (Js.startsWith EmptyString sub); simpl; split; (lia || done).
  - destruct (Js.startsWith (String c s) sub); simpl; [split; (lia || done)|].
    destruct (Z.eqb_spec (Text.indexOf s sub) (-1)) as [E|E].
    + split; [lia|]. rewrite <- IH2. by split.
    + split; [lia|]. rewrite <- IH2. split; [lia|done].
Qed.

Lemma is_image_item_includes (it : Panel.ClipboardItem) :
  Panel.is_image_item it = Js.includes (Panel.item_type it) "image".
Proof.
  unfold Panel.is_image_item.
  destruct (indexOf_includes (Panel.item_type it) "image") as [_ H].
  destruct (Z.eqb_spec (Text.indexOf (Panel.item_type it) "image") (-1)) as [E|E];
    destruct (Js.includes (Panel.item_type it) "image"); simpl; try done.
  - by apply H in E.
  - destruct E. by apply H.
Qed.

Lemma scan_first (before after : list Panel.ClipboardItem) (it : Panel.ClipboardItem) :
  Forall (λ x, Js.includes (Panel.item_type x) "image" = false) before →
  Js.includes (Panel.item_type it) "image" = true →
  Panel.scan (before ++ it :: after) = Some it.
Proof.
  intros Hbefore Hit. induction Hbefore as [|x before Hx _ IH]; simpl.
  - by rewrite is_image_item_includes, Hit.
  - by rewrite is_image_item_includes, Hx.
Qed.

Lemma scan_none (items : list Panel.ClipboardItem) :
  Forall (λ x, Js.includes (Panel.item_type x) "image" = false) items →
  Panel.scan items = None.
Proof.
  intros H. induction H as [|x items Hx _ IH]; simpl; [done|].
  by rewrite is_image_item_includes, Hx.
Qed.

(** X5. A paste reaches the chat only while its window is open, and only
    through the first clipboard item whose type mentions [image]: the
    items behind it are not looked at, also when that first item gives no
    file.  The default action of the paste is prevented exactly when such
    an item exists.  With no such item, or with the window closed, nothing
    changes.  Every file the file input accepts, a type that starts with
    [image/], the paste handler accepts as well. *)
Theorem paste_takes_the_first_image
    (before after : list Panel.ClipboardItem) (it : Panel.ClipboardItem)
    (items : option (list Panel.ClipboardItem)) (st : Chat.State) :
  (Chat.chatWindowOpen st = false → Panel.handlePaste items st = (false, st))
  ∧ (Forall (λ x, Js.includes (Panel.item_type x) "image" = false) before →
     Panel.handlePaste (Some before) st = (false, st))
  ∧ (Chat.chatWindowOpen st = true →
     Forall (λ x, Js.includes (Panel.item_type x) "image" = false) before →
     Js.includes (Panel.item_type it) "image" = true →
     Panel.handlePaste (Some (before ++ it :: after)) st
     = (true, match Panel.getAsFile it with
              | Some blob => Chat.setImage (Panel.read_result blob) st
              | None => st
              end))
  ∧ (∀ file, Js.startsWith (Panel.file_type file) "image/" = true →
             Js.includes (Panel.file_type file) "image" = true).
Proof.
  split; [|split; [|split]].
  - intros H. unfold Panel.handlePaste. by rewrite H.
  - intros H. unfold Panel.handlePaste. rewrite (scan_none _ H).
    by destruct (negb (Chat.chatWindowOpen st)).
  - intros Hopen Hbefore Hit. unfold Panel.handlePaste.
    by rewrite Hopen, (scan_first _ _ _ Hbefore Hit).
  - intros file [t Ht]%startsWith_spec. apply includes_spec.
    exists EmptyString, ("/" +:+ t). rewrite Ht. reflexivity.
Qed.

(** The theorem on a clipboard with a text, an image without a file and a
    second image. *)
Lemma paste_takes_the_first_image_witness :
  let text := {| Panel.item_type := "text/plain"; Panel.getAsFile := None |} in
  let ghost := {| Panel.item_type := "image/png"; Panel.getAsFile := None |} in
  let photo := {| Panel.item_type := "image/jpeg";
                  Panel.getAsFile :=
                    Some {| Panel.file_type := "image/jpeg";
                            Panel.read_result := Some "data:image/jpeg;base64,AAAA" |} |} in
  let st := Chat.setChatWindowOpen true (Chat.initial 0) in
  Panel.handlePaste (Some ([text] ++ ghost :: [photo])) st = (true, st).
Proof.
  intros text ghost photo st.
  refine (proj1 (proj2 (proj2 (paste_takes_the_first_image [text] [photo] ghost None st)))
            eq_refl _ eq_refl).
  by repeat constructor.
Defined.

(** ** The height class of the progress bar *)

(** All characters of [s] are digits or dots. *)
Fixpoint digits_and_dots (s : string) : bool :=
  match s with
  | EmptyString => true
  | String c s' => Text.is_digit_or_dot c && digits_and_dots s'
  end.

(** A text the expression [/h-[\d.]+/] matches as a whole. *)
Definition height_class (m : string) : Prop :=
  ∃ ds, m = "h-" +:+ ds ∧ ds ≠ EmptyString ∧ digits_and_dots ds = true.

(** The expression matches somewhere in [s]. *)
Definition has_height_class (s : string) : Prop :=
  ∃ before m rest, height_class m ∧ s = before +:+ m +:+ rest.

Lemma span_digits_spec (s : string) :
  s = (Text.span_digits s).1 +:+ (Text.span_digits s).2
  ∧ digits_and_dots (Text.span_digits s).1 = true.
Proof.
  induction s as [|c s [IH1 IH2]]; simpl; [done|].
  destruct (Text.is_digit_or_dot c) eqn:E; [|done].
  destruct (Text.span_digits s) as [ds rest]. simpl in *.
  rewrite string_app_cons, <- IH1, E. done.
Qed.

Lemma span_digits_app (ds rest : string) :
  ds ≠ EmptyString → digits_and_dots ds = true →
  (Text.span_digits (ds +:+ rest)).1 ≠ EmptyString.
Proof.
  destruct ds as [|c ds]; [done|]. intros _. simpl.
  intros [Hc _]%andb_true_iff. rewrite Hc.
  by destruct (Text.span_digits (ds +:+ rest)).
Qed.

Lemma match_here_Some (s m rest : string) :
  Text.match_here s = Some (m, rest) → height_class m ∧ s = m +:+ rest.
Proof.
  unfold Text.match_here.
  destruct s as [|c1 [|c2 t]]; try done; try by repeat case_match.
  destruct (Ascii.eqb_spec c1 "h") as [->|Hc1]; [|by repeat case_match].
  destruct (Ascii.eqb_spec c2 "-") as [->|Hc2]; [|by repeat case_match].
  destruct (span_digits_spec t) as [Ht Hds].
  destruct (Text.span_digits t) as [[|d ds] r]; [done|]. simpl in Ht, Hds.
  intros [= <- <-]. split.
  - exists (String d ds). by repeat split.
  - rewrite Ht at 1. reflexivity.
Qed.

Lemma match_here_complete (m rest : string) :
  height_class m → Text.match_here (m +:+ rest) ≠ None.
Proof.
  intros (ds & -> & Hne & Hds).
  change (("h-" +:+ ds) +:+ rest) with (String "h" (String "-" (ds +:+ rest))).
  unfold Text.match_here.
  pose proof (span_digits_app ds rest Hne Hds) as H.
  by destruct (Text.span_digits (ds +:+ rest)) as [[|d ds'] r].
Qed.

Lemma search_Some (s : string) : ∀ before m rest,
  Text.search s = Some (before, m, rest) →
  height_class m ∧ s = before +:+ m +:+ rest.
Proof.
  induction s as [|c s IH]; intros before m rest; [done|]. cbn [Text.search].
  - destruct (Text.match_here (String c s)) as [[m' r']|] eqn:E.
    + intros [= <- <- <-]. by apply match_here_Some in E.
    + destruct (Text.search s) as [[[b' m'] r']|]; [|done].
      intros [= <- <- <-]. destruct (IH _ _ _ eq_refl) as [H1 H2].
      split; [done|]. by rewrite string_app_cons, <- H2.
Qed.

Lemma search_None (s : string) : Text.search s = None → ¬ has_height_class s.
Proof.
  induction s as [|c s IH]; cbn [Text.search].
  - intros _ (before & m & rest & Hm & Hs).
    destruct before; [|discriminate Hs]. rewrite string_app_nil_l in Hs.
    destruct Hm as (ds & -> & _). discriminate Hs.
  - destruct (Text.match_here (String c s)) as [[m' r']|] eqn:E; [done|].
    destruct (Text.search s) as [[[b' m'] r']|]; [done|].
    intros _ (before & m & rest & Hm & Hs). destruct before as [|c' before].
    + rewrite string_app_nil_l in Hs. rewrite Hs in E.
      by apply (match_here_complete m rest).
    + rewrite string_app_cons in Hs. injection Hs as _ Hs.
      apply IH; [done|]. by exists before, m, rest.
Qed.

(** The text starts with a digit or a dot. *)
Definition digit_ahead (s : string) : bool :=
  match s with
  | String c _ => Text.is_digit_or_dot c
  | EmptyString => false
  end.

Lemma span_digits_greedy (s : string) : digit_ahead (Text.span_digits s).2 = false.
Proof.
  induction s as [|c s IH]; simpl; [done|].
  destruct (Text.is_digit_or_dot c) eqn:E; [|by simpl].
  by destruct (Text.span_digits s).
Qed.

Lemma match_here_greedy (s m rest : string) :
  Text.match_here s = Some (m, rest) → digit_ahead rest = false.
Proof.
  unfold Text.match_here.
  destruct s as [|c1 [|c2 t]]; try done; try by repeat case_match.
  destruct (Ascii.eqb_spec c1 "h") as [->|Hc1]; [|by repeat case_match].
  destruct (Ascii.eqb_spec c2 "-") as [->|Hc2]; [|by repeat case_match].
  pose proof (span_digits_greedy t) as H.
  destruct (Text.span_digits t) as [[|d ds] r]; [done|].
  by intros [= <- <-].
Qed.

(** The match that [search] finds is the leftmost one, and it is as long
    as it can be. *)
Lemma search_leftmost (s : string) : ∀ before m rest,
  Text.search s = Some (before, m, rest) →
  digit_ahead rest = false
  ∧ ∀ before' m' rest', height_class m' → s = before' +:+ m' +:+ rest' →
                        String.length before ≤ String.length before'.
Proof.
  induction s as [|c s IH]; intros before m rest; [done|]. cbn [Text.search].
  destruct (Text.match_here (String c s)) as [[m0 r0]|] eqn:E.
  - intros [= <- <- <-]. split; [by apply match_here_greedy in E|].
    intros. simpl. lia.
  - destruct (Text.search s) as [[[b0 m0] r0]|]; [|done].
    intros [= <- <- <-]. destruct (IH _ _ _ eq_refl) as [H1 H2].
    split; [done|]. intros before' m' rest' Hm' Hs.
    destruct before' as [|c' before'].
    + rewrite string_app_nil_l in Hs. rewrite Hs in E.
      by destruct (match_here_complete m' rest' Hm').
    + rewrite string_app_cons in Hs. injection Hs as _ Hs.
      specialize (H2 _ _ _ Hm' Hs). simpl. lia.
Qed.

(** X6. The height of the bar is always a height class, [h-] and then
    digits and dots: the first one found anywhere in [className], also in
    the middle of another class name, taken as long as it can be, or
    [h-2.5] when [className] is absent or has none.  First: no height
    class starts further to the left in [className]; as long as it can
    be: no digit and no dot follows it.  The other classes are
    [className] with that occurrence taken out, trimmed; without an
    occurrence they are [className] trimmed, and the empty text when
    [className] is absent. *)
Theorem bar_height_is_a_height_class (className : option string) :
  height_class (Bar.heightClass className)
  ∧ match className with
    | None => Bar.heightClass None = "h-2.5" ∧ Bar.otherClasses None = EmptyString
    | Some cn =>
        (has_height_class cn ∧
         ∃ before rest, cn = before +:+ Bar.heightClass (Some cn) +:+ rest
                        ∧ Bar.otherClasses (Some cn) = Js.trim (before +:+ rest)
                        ∧ digit_ahead rest = false
                        ∧ ∀ before' m' rest',
                            height_class m' → cn = before' +:+ m' +:+ rest' →
                            String.length before ≤ String.length before')
        ∨ (¬ has_height_class cn ∧ Bar.heightClass (Some cn) = "h-2.5"
           ∧ Bar.otherClasses (Some cn) = Js.trim cn)
    end.
Proof.
  assert (Hdefault : height_class "h-2.5") by (by exists "2.5").
  destruct className as [cn|]; [|done].
  unfold Bar.heightClass, Bar.otherClasses, Bar.without_height.
  destruct (Text.search cn) as [[[before m] rest]|] eqn:E.
  - pose proof (search_leftmost cn before m rest E) as [Hgreedy Hleft].
    apply search_Some in E as [Hm Hcn]. split; [done|]. left. split.
    + by exists before, m, rest.
    + by exists before, rest.
  - split; [done|]. right. by apply search_None in E.
Qed.

Example bar_classes_of_the_trip_card :
  Bar.heightClass (Some "mt-2 h-2") = "h-2" ∧ Bar.otherClasses (Some "mt-2 h-2") = "mt-2".
Proof. by split. Qed.

Example bar_classes_inside_a_name :
  Bar.heightClass (Some "max-h-48 h-2") = "h-48"
  ∧ Bar.otherClasses (Some "max-h-48 h-2") = "max- h-2".
Proof. by split. Qed.

(** ** What every piece of a handler respects *)

(** A relation between the state before and the state after that the
    updates of a handler respect, one by one.  [c] tells whether the
    stream loop has its confirmation branch; only then is the dialog
    written between the request and the end of the handler. *)
Section Pieces.
Context (R : relation Chat.State) `{!PreOrder R}.
Context (c : bool).
Context (R_token : ∀ acc st updated,
       Chat.write_last acc (Chat.chatMessages st) = Some updated →
       R st (Chat.setChatMessages (λ _, updated) st)).
Context (R_push : ∀ m st, R st (Chat.push m st)).
Context (R_flag : ∀ b st, R st (Chat.setIsProcessing b st)).
Context (R_dialog : c = true → ∀ d st, R st (Chat.setConfirmationState d st)).
Context (JSON_parse : string → option Js.value).
Context (number_to_string : spec_float → string).

Definition along (f : Chat.Progress → Chat.Progress) : Prop :=
∀ p, R (Chat.ui p) (Chat.ui (f p)).

Lemma along_compose (f g : Chat.Progress → Chat.Progress) :
along f → along g → along (λ p, f (g p)).
Proof. intros Hf Hg p. etrans; [apply Hg|apply Hf]. Qed.

Lemma along_on_token (piece : string) : along (Chat.on_token piece).
Proof.
intros p. unfold Chat.on_token.
destruct (Chat.write_last _ _) eqn:E; simpl; [by eapply R_token|done].
Qed.

Lemma along_emit (e : Net.Effect) : along (Chat.emit e).
Proof. by intros p. Qed.

Lemma along_push (m : Chat.Message) : along (Chat.with_ui (Chat.push m)).
Proof. intros p. apply R_push. Qed.

Lemma along_finally : along Chat.finally.
Proof. intros p. apply R_flag. Qed.

Lemma along_send_catch (now : Z) : along (Chat.send_catch now).
Proof. intros p. apply R_push. Qed.

Lemma along_confirm_catch (now : Z) : along (Chat.confirm_catch now).
Proof. intros p. apply R_push. Qed.

Lemma on_data_along (data : Js.value) (p p' : Chat.Progress) :
Chat.on_data number_to_string c data p = Some p' → R (Chat.ui p) (Chat.ui p').
Proof.
unfold Chat.on_data. intros H.
destruct (Js.get data "type") as [ty|]; simpl in H; [|done].
destruct (Js.is_str ty "token").
{ destruct (Js.get data "content") as [piece|]; simpl in H; [|done].
destruct (Js.to_string number_to_string piece) as [text|]; simpl in H; [|done].
injection H as <-. apply along_on_token. }
destruct (c && Js.is_str ty "confirmation") eqn:E.
{ destruct (Js.get data "payload") as [payload|]; simpl in H; [|done].
destruct (Js.get payload "message") as [msg|]; simpl in H; [|done].
injection H as <-. apply andb_true_iff in E as [E _]. by apply R_dialog. }
destruct (Js.is_str ty "error"); by injection H as <-.
Qed.

Lemma along_on_line (line : string) :
along (λ p, Chat.on_line JSON_parse number_to_string c p line).
Proof.
intros p. unfold Chat.on_line.
destruct (negb _); [done|].
destruct (JSON_parse line) as [data|]; simpl; [|done].
destruct (Chat.on_data _ _ _ _) as [p'|] eqn:E; [|done].
by eapply on_data_along.
Qed.

Lemma along_on_chunk (chunk : string) :
along (λ p, Chat.on_chunk JSON_parse number_to_string c p chunk).
Proof.
intros p. unfold Chat.on_chunk.
generalize (Js.split chunk (String "010" EmptyString)). intros lines.
revert p. induction lines as [|line lines IH]; intros p; simpl; [done|].
etrans; [apply (along_on_line line)|apply IH].
Qed.



End Pieces.

(** ** The messages of the chat under every interleaving *)

(** A message without what a stream may rewrite: the content of an
    assistant message. *)
Definition blank (m : Chat.Message) : Chat.Message :=
  match Chat.role m with
  | assistant => Chat.set_content EmptyString m
  | user => m
  end.

Definition skeleton (st : Chat.State) : list Chat.Message :=
  blank <$> Chat.chatMessages st.

(** The chat of [st'] continues the chat of [st]. *)
Definition grown : relation Chat.State :=
  λ st st', skeleton st `prefix_of` skeleton st'.

Global Instance grown_preorder : PreOrder grown.
Proof.
  split.
  - intros st. unfold grown. done.
  - intros st1 st2 st3. unfold grown. by etrans.
Qed.

Lemma grown_same (st st' : Chat.State) :
  Chat.chatMessages st' = Chat.chatMessages st → grown st st'.
Proof. intros H. unfold grown, skeleton. by rewrite H. Qed.

Lemma write_last_skeleton (acc : string) (prev updated : list Chat.Message) :
  Chat.write_last acc prev = Some updated → blank <$> updated = blank <$> prev.
Proof.
  unfold Chat.write_last.
  destruct (last prev) as [lastMessage|] eqn:E; [|done].
  apply last_Some in E as [init ->].
  destruct (Chat.role lastMessage) eqn:Hrole; intros [= <-]; [|done].
  rewrite length_app. simpl.
  replace (length init + 1 - 1)%nat with (length init + 0)%nat by lia.
  rewrite insert_app_r. simpl. rewrite !fmap_app. f_equal. simpl. f_equal.
  unfold blank. simpl. by rewrite Hrole.
Qed.

Lemma grown_token (acc : string) (st : Chat.State) (updated : list Chat.Message) :
  Chat.write_last acc (Chat.chatMessages st) = Some updated →
  grown st (Chat.setChatMessages (λ _, updated) st).
Proof.
  intros H%write_last_skeleton. unfold grown, skeleton. simpl. by rewrite H.
Qed.

Lemma grown_push (m : Chat.Message) (st : Chat.State) : grown st (Chat.push m st).
Proof. unfold grown, skeleton. simpl. rewrite fmap_app. by apply prefix_app_r. Qed.

Lemma grown_flag (b : bool) (st : Chat.State) : grown st (Chat.setIsProcessing b st).
Proof. by apply grown_same. Qed.

Lemma grown_dialog (d : Chat.ConfirmationState) (st : Chat.State) :
  grown st (Chat.setConfirmationState d st).
Proof. by apply grown_same. Qed.

Section LoopGrowth.
Context (JSON_parse : string → option Js.value).
Context (number_to_string : spec_float → string).

Lemma grown_along_catch (k : Loop.RunKind) (now : Z) :
along grown (Loop.catch_of k now).
Proof. destruct k; intros p; apply grown_push. Qed.

Lemma advance_grown (i : nat) (r : Loop.Run) (next : Loop.Phase)
(f : Chat.Progress → Chat.Progress) (m : Loop.Machine) :
along grown f → grown (Loop.ui m) (Loop.ui (Loop.advance i r next f m)).
Proof. intros Hf. unfold Loop.advance. simpl. apply (Hf (view m r)). Qed.

Lemma send_begin_grown (now : Z) (st st1 : Chat.State) (b : Net.ChatBody) :
Chat.send_begin now st = Some (st1, b) → grown st st1.
Proof.
intros H%send_begin_messages. unfold grown, skeleton.
rewrite H, fmap_app. by apply prefix_app_r.
Qed.

Lemma step_grown (ev : Loop.Event) (m : Loop.Machine) :
grown (Loop.ui m) (Loop.ui (Loop.step JSON_parse number_to_string ev m)).
Proof.
pose proof (along_finally grown grown_flag) as Hfin.
pose proof (λ t, along_push grown grown_push (Chat.placeholder t)) as Hplace.
destruct ev as [text|data| |now|now confirmed|i now a|i chunk|i|i now]; simpl.
- by apply grown_same.
- by apply grown_same.
- by apply grown_same.
- destruct (Chat.send_begin now (Loop.ui m)) as [[st b]|] eqn:E; [|done].
simpl. by eapply send_begin_grown.
- destruct (Chat.isVoiceActive (Loop.ui m)); simpl; [by apply grown_same|].
unfold grown, skeleton. simpl. rewrite fmap_app. by apply prefix_app_r.
- destruct (Loop.runs m !! i) as [r|]; [|done].
destruct (Loop.phase r); [|done|done].
destruct a as [|[|] [|]]; apply advance_grown.
+ eapply along_compose; [apply grown_preorder|exact Hfin|apply grown_along_catch].
+ apply Hplace.
+ eapply along_compose; [apply grown_preorder|exact Hfin|].
  eapply along_compose; [apply grown_preorder|apply grown_along_catch|apply Hplace].
+ eapply along_compose; [apply grown_preorder|exact Hfin|apply grown_along_catch].
+ eapply along_compose; [apply grown_preorder|exact Hfin|apply grown_along_catch].
- destruct (Loop.runs m !! i) as [r|]; [|done].
destruct (Loop.phase r); [done| |done].
apply advance_grown.
apply (along_on_chunk grown (Loop.confirmations_of (Loop.kind r))
         grown_token (λ _, grown_dialog) JSON_parse number_to_string chunk).
- destruct (Loop.runs m !! i) as [r|]; [|done].
destruct (Loop.phase r); [done| |done].
by apply advance_grown.
- destruct (Loop.runs m !! i) as [r|]; [|done].
destruct (Loop.phase r); [done| |done].
apply advance_grown.
eapply along_compose; [apply grown_preorder|exact Hfin|apply grown_along_catch].
Qed.

Lemma exec_grown (evs : list Loop.Event) : ∀ m,
grown (Loop.ui m) (Loop.ui (Loop.exec JSON_parse number_to_string evs m)).
Proof.
induction evs as [|ev evs IH]; intros m; [done|].
rewrite exec_cons. etrans; [apply step_grown|apply IH].
Qed.

End LoopGrowth.

(** What a continued chat keeps of a message of the user. *)
Lemma grown_user_message (st st' : Chat.State) (i : nat) (msg : Chat.Message) :
  grown st st' → Chat.chatMessages st !! i = Some msg → Chat.role msg = user →
  Chat.chatMessages st' !! i = Some msg.
Proof.
  unfold grown, skeleton. intros [extra Hext] Hi Hrole.
  assert (H : (blank <$> Chat.chatMessages st') !! i = Some msg).
  { rewrite Hext. apply lookup_app_l_Some.
    rewrite list_lookup_fmap, Hi. simpl. unfold blank. by rewrite Hrole. }
  rewrite list_lookup_fmap in H.
  destruct (Chat.chatMessages st' !! i) as [msg'|]; [|done].
  simpl in H. injection H as H. f_equal.
  unfold blank in H. destruct (Chat.role msg') eqn:E; [|done].
  rewrite <- H in Hrole. simpl in Hrole. congruence.
Qed.

(** X7. Whatever the user does and in whatever order requests settle and
    chunks arrive, the chat only grows.  No message is ever removed or
    moved, no message changes its role, its time or its image, and a
    message of the user keeps its text: the only thing a handler rewrites
    is the text of an assistant message. *)
Theorem chat_only_grows
    (JSON_parse : string → option Js.value) (number_to_string : spec_float → string)
    (evs : list Loop.Event) (m : Loop.Machine) :
  let m' := Loop.exec JSON_parse number_to_string evs m in
  skeleton (Loop.ui m) `prefix_of` skeleton (Loop.ui m')
  ∧ (length (Chat.chatMessages (Loop.ui m)) ≤ length (Chat.chatMessages (Loop.ui m')))%nat
  ∧ ∀ i msg, Chat.chatMessages (Loop.ui m) !! i = Some msg → Chat.role msg = user →
             Chat.chatMessages (Loop.ui m') !! i = Some msg.
Proof.
  intros m'. pose proof (exec_grown JSON_parse number_to_string evs m) as H.
  split; [exact H|]. split.
  - apply prefix_length in H. unfold skeleton in H. by rewrite !length_fmap in H.
  - intros i msg. by apply grown_user_message.
Qed.

(** ** The processing flag once every request has returned *)

(** With no activation in flight, the flag is clear. *)
Definition idle_clear (m : Loop.Machine) : Prop :=
  Loop.active m = [] → Chat.isProcessing (Loop.ui m) = false.

Lemma still_running_snoc (rs : list Loop.Run) (r : Loop.Run) :
  Loop.in_flight r = true → Loop.still_running (rs ++ [r]) ≠ [].
Proof.
  intros Hr H.
  assert (Hin : r ∈ Loop.still_running (rs ++ [r])).
  { apply list_elem_of_filter. split; [done|]. apply elem_of_app. right. by left. }
  rewrite H in Hin. by apply elem_of_nil in Hin.
Qed.

Lemma still_running_insert (rs : list Loop.Run) (i : nat) (r r' : Loop.Run) :
  rs !! i = Some r → Loop.in_flight r' = true →
  Loop.still_running (<[i := r']> rs) ≠ [].
Proof.
  intros Hi Hr' H.
  assert (Hin : r' ∈ Loop.still_running (<[i := r']> rs)).
  { apply list_elem_of_filter. split; [done|].
    apply (list_elem_of_lookup_2 _ i). apply list_lookup_insert_eq.
    by eapply lookup_lt_Some. }
  rewrite H in Hin. by apply elem_of_nil in Hin.
Qed.

Section Idle.
Context (JSON_parse : string → option Js.value).
Context (number_to_string : spec_float → string).

Lemma spawn_idle (k : Loop.RunKind) (st : Chat.State) (b : Net.ChatBody)
(m : Loop.Machine) : idle_clear (Loop.spawn k st b m).
Proof.
intros H. unfold Loop.active, Loop.spawn in H. simpl in H.
by apply still_running_snoc in H.
Qed.

Lemma advance_idle_returned (i : nat) (r : Loop.Run)
(f : Chat.Progress → Chat.Progress) (m : Loop.Machine) :
(∀ p, Chat.isProcessing (Chat.ui (f p)) = false) →
idle_clear (Loop.advance i r Loop.Returned f m).
Proof. intros Hf _. unfold Loop.advance. simpl. apply Hf. Qed.

Lemma advance_idle_reading (i : nat) (r : Loop.Run)
(f : Chat.Progress → Chat.Progress) (m : Loop.Machine) :
Loop.runs m !! i = Some r → idle_clear (Loop.advance i r Loop.Reading f m).
Proof.
intros Hr H. unfold Loop.active, Loop.advance in H. simpl in H.
by eapply still_running_insert in H.
Qed.

Lemma step_idle (ev : Loop.Event) (m : Loop.Machine) :
idle_clear m → idle_clear (Loop.step JSON_parse number_to_string ev m).
Proof.
intros Hm.
destruct ev as [text|data| |now|now confirmed|i now a|i chunk|i|i now]; simpl;
try exact Hm.
- destruct (Chat.send_begin now (Loop.ui m)) as [[st b]|]; [apply spawn_idle|done].
- destruct (Chat.isVoiceActive (Loop.ui m)); [exact Hm|apply spawn_idle].
- destruct (Loop.runs m !! i) as [r|] eqn:Hr; [|done].
destruct (Loop.phase r); [|done|done].
destruct a as [|[|] [|]];
  first [by apply advance_idle_reading | by apply advance_idle_returned].
- destruct (Loop.runs m !! i) as [r|] eqn:Hr; [|done].
destruct (Loop.phase r); [done| |done].
by apply advance_idle_reading.
- destruct (Loop.runs m !! i) as [r|] eqn:Hr; [|done].
destruct (Loop.phase r); [done| |done].
by apply advance_idle_returned.
- destruct (Loop.runs m !! i) as [r|] eqn:Hr; [|done].
destruct (Loop.phase r); [done| |done].
by apply advance_idle_returned.
Qed.

Lemma exec_idle (evs : list Loop.Event) : ∀ m,
idle_clear m → idle_clear (Loop.exec JSON_parse number_to_string evs m).
Proof.
induction evs as [|ev evs IH]; intros m Hm; [done|].
rewrite exec_cons. by apply IH, step_idle.
Qed.

End Idle.

(** X8. The processing flag never stays set for nothing.  From a state
    with the flag clear, after any sequence of user actions and network
    events, in any interleaving and with confirmations answered while a
    stream is read: whenever every request that was started has returned,
    with a reply or with a failure, the flag is clear. *)
Theorem flag_is_clear_when_idle
    (JSON_parse : string → option Js.value) (number_to_string : spec_float → string)
    (evs : list Loop.Event) (st : Chat.State)
    (Hclear : Chat.isProcessing st = false) :
  let m := Loop.exec JSON_parse number_to_string evs (Loop.boot st) in
  Loop.active m = [] → Chat.isProcessing (Loop.ui m) = false.
Proof.
  intros m. apply exec_idle. by intros _.
Qed.

(** The theorem on a send whose stream is answered with a confirmation
    before it ends, both requests then failing. *)
Lemma flag_is_clear_when_idle_witness :
  let st := Chat.mount "1700000000000" "k3x9" "/dashboard/buses" (Chat.initial 0) in
  let m := Loop.exec wire_parse wire_number
             (answer_during_stream
                ++ [Loop.ReadFailed 0 5; Loop.FetchSettled 1 6 Loop.Rejected])
             (Loop.boot st) in
  Loop.active m = [] ∧ Chat.isProcessing (Loop.ui m) = false.
Proof.
  intros st m.
  assert (H : Loop.active m = []) by (by vm_compute).
  split; [exact H|].
  exact (flag_is_clear_when_idle wire_parse wire_number _ st eq_refl H).
Defined.

(** ** How a confirmation in text mode ends *)




(** The dialog of [st'] is the dialog of [st]. *)
Definition same_dialog : relation Chat.State :=
  λ st st', Chat.confirmationState st' = Chat.confirmationState st.

Global Instance same_dialog_preorder : PreOrder same_dialog.
Proof.
  split.
  - by intros st.
  - intros st1 st2 st3 H1 H2. unfold same_dialog in *. congruence.
Qed.

Section TextConfirmation.
Context (JSON_parse : string → option Js.value).
Context (number_to_string : spec_float → string).




End TextConfirmation.



(** ** The socket of the voice hook *)

(** The socket the hook holds belongs to the latest run of the mount
    effect: while a cleanup is registered the socket was made for the
    props of that run, and without one there is no socket, or one that
    is closing or closed. *)
Definition tidy (st : Voice.State) : Prop :=
  match Voice.websocketRef st with
  | None => Voice.cleanup_pending st = false
  | Some sock =>
      if Voice.cleanup_pending st
      then Voice.effect_deps st
           = Some (Voice.init_session_id sock, Voice.init_context_page sock)
      else Voice.readyState sock = Voice.CLOSING ∨ Voice.readyState sock = Voice.CLOSED
  end.

(** Effects that neither create, nor write to, nor close a socket. *)
Definition off_socket (e : Net.Effect) : Prop :=
  match e with
  | Net.WsSend _ | Net.NewWebSocket | Net.WsCloseCall => False
  | _ => True
  end.

(** What the step from [st] to [st'] on [ev] may do to the socket: it
    never writes an [update_context] frame, it writes the [init] frame
    in the open handler only, with the props of the latest render, and
    any other frame while the socket is open. *)
Definition frame_ok (st : Voice.State) (ev : Voice.Event) (st' : Voice.State)
    (e : Net.Effect) : Prop :=
  match e with
  | Net.WsSend (Net.FrameUpdateContext _) => False
  | Net.WsSend (Net.FrameInit sid ctx) =>
      ev = Voice.SocketOpened ∧ Voice.effect_deps st = Some (sid, ctx)
      ∧ Voice.socket_open st' = true
  | Net.WsSend _ => Voice.socket_open st = true
  | _ => True
  end.

(** Sockets created minus sockets on which [close()] was called. *)
Definition socket_delta (e : Net.Effect) : Z :=
  match e with
  | Net.NewWebSocket => 1
  | Net.WsCloseCall => -1
  | _ => 0
  end.

Definition balance (es : list Net.Effect) : Z :=
  foldr (λ e n, socket_delta e + n)%Z 0%Z es.

Definition owed (st : Voice.State) : Z :=
  if Voice.cleanup_pending st then 1 else 0.

Lemma balance_app (es es' : list Net.Effect) :
  balance (es ++ es') = (balance es + balance es')%Z.
Proof. induction es as [|e es IH]; simpl; [done|]. rewrite IH. lia. Qed.

Lemma off_socket_frame_ok (st : Voice.State) (ev : Voice.Event) (st' : Voice.State)
    (es : list Net.Effect) :
  Forall off_socket es → Forall (frame_ok st ev st') es ∧ balance es = 0%Z.
Proof.
  induction 1 as [|e es He _ [IH1 IH2]]; [done|]. split.
  - constructor; [|done]. by destruct e.
  - simpl. rewrite IH2. by destruct e.
Qed.

Lemma balance_console (h : Voice.Hook) (e : Net.Effect) :
  off_socket e → balance (Voice.console h e) = 0%Z.
Proof. destruct h; [done|]. by destruct e. Qed.

Section VoiceSocket.
Context (JSON_parse : string → option Js.value).
Context (h : Voice.Hook).

Lemma onmessage_off_socket (now : Z) (raw : string) (st : Voice.State) :
Voice.effect_deps (Voice.onmessage JSON_parse h now raw st).1.1 = Voice.effect_deps st
∧ Forall off_socket (Voice.onmessage JSON_parse h now raw st).1.2.
Proof.
unfold Voice.onmessage.
destruct (JSON_parse raw) as [data|]; [|by repeat constructor].
destruct (Js.get data "type") as [ty|]; [|by repeat constructor].
destruct h;
repeat match goal with
     | |- context [if Js.is_str ty ?lit then _ else _] => destruct (Js.is_str ty lit)
     end; simpl; try by (repeat constructor; simpl; auto).
all: destruct (_ && _); simpl; rewrite ?stopAudio_effect_deps; simpl;
by repeat constructor.
Qed.

Lemma sendConfirmation_off_socket (sid ctx : string) (now : Z) (b : bool)
(net : Voice.ConfirmAnswers) (st : Voice.State) :
Forall off_socket (Voice.sendConfirmation JSON_parse sid ctx now b net st).1.2.
Proof.
unfold Voice.sendConfirmation, Voice.confirmation_failed.
destruct (Voice.socket_open _); [|done].
destruct (Voice.chat_answer net) as [|response]; [by repeat constructor|].
destruct (_ ≫= _) as [reply|]; [|by repeat constructor].
destruct (Voice.tts_answer net) as [|ttsResponse]; [by repeat constructor|].
destruct (_ ≫= _) as [audio|]; by repeat constructor.
Qed.

(** The state with which the body of the mount effect starts: its socket,
if any, is closing or closed. *)
Definition released (st : Voice.State) : Prop :=
match Voice.websocketRef st with
| None => True
| Some sock =>
  Voice.readyState sock = Voice.CLOSING ∨ Voice.readyState sock = Voice.CLOSED
end.

Lemma released_not_open (st : Voice.State) : released st → Voice.socket_open st = false.
Proof.
unfold released, Voice.socket_open.
destruct (Voice.websocketRef st) as [[[] ? ?]|]; simpl; intros H; try done;
by destruct H.
Qed.

Lemma cleanup_released (st : Voice.State) (ev : Voice.Event) (st' : Voice.State) :
tidy st →
let r := if Voice.cleanup_pending st then Voice.mountCleanup st else (st, []) in
released r.1
∧ Voice.recordingActive r.1 = Voice.recordingActive st
∧ Forall (frame_ok st ev st') r.2
∧ balance r.2 = (- owed st)%Z.
Proof.
unfold tidy, owed, released. intros Htidy. cbv zeta.
destruct (Voice.cleanup_pending st) eqn:Hpending.
- unfold Voice.mountCleanup.
destruct (Voice.websocketRef st) as [sock|] eqn:Hsock; [|done].
simpl. rewrite stopAudio_websocketRef. simpl. split; [|split; [|split]].
+ destruct (Voice.readyState sock); auto.
+ unfold Voice.stopAudio. by destruct (Voice.activeAudioRef _).
+ apply Forall_app. split; [|by repeat constructor].
  destruct (Voice.readyState sock) eqn:E; repeat constructor.
  simpl. unfold Voice.socket_open. rewrite Hsock. destruct sock. simpl in E.
  by rewrite E.
+ rewrite balance_app. by destruct (Voice.readyState sock).
- simpl. split; [|done]. by destruct (Voice.websocketRef st).
Qed.

Lemma step_tidy (ev : Voice.Event) (st : Voice.State) :
tidy st →
tidy (Voice.step JSON_parse h ev st).1
∧ Forall (frame_ok st ev (Voice.step JSON_parse h ev st).1) (Voice.step JSON_parse h ev st).2
∧ balance (Voice.step JSON_parse h ev st).2
= (owed (Voice.step JSON_parse h ev st).1 - owed st)%Z.
Proof.
intros Htidy.
destruct ev as [sid ctx| | |now raw|a|now b net]; simpl.
- destruct (render_cases h sid ctx st) as [-> | ->];
  [|simpl; split; [done|split; [done|lia]]].
unfold Voice.commit.
destruct (match Voice.effect_deps st with
          | Some (sid', ctx') => negb (String.eqb sid' sid && String.eqb ctx' ctx)
          | None => true
          end); [|simpl; split; [done|split; [done|lia]]].
set (final := Voice.commit h sid ctx st).
destruct (cleanup_released st (Voice.Render sid ctx) final.1 Htidy)
  as (Hrel & _ & Hframes & Hbal).
destruct (if Voice.cleanup_pending st then _ else _) as [st1 es1].
simpl in Hrel, Hframes, Hbal.
pose proof (released_not_open st1 Hrel) as Hclosed.
unfold Voice.mountEffect, Voice.connectWebSocket.
destruct (Voice.no_session sid) eqn:Hsid; simpl.
+ assert (Hctx : ∀ due : bool,
            (if due then Voice.contextEffect ctx
                           (Voice.setEffectRun (sid, ctx) false st1) else []) = []).
  { intros []; [|done]. unfold Voice.contextEffect.
    replace (Voice.socket_open _) with false; done. }
  rewrite Hctx. split; [|split].
  * unfold tidy. simpl. unfold released in Hrel.
    by destruct (Voice.websocketRef st1).
  * rewrite ?app_nil_r. each_effect; try done.
    eapply Forall_impl; [exact Hframes|]. intros e He.
    destruct e as [| | |[]| | | | |]; try done. by destruct He as [? _].
  * rewrite ?app_nil_r, !balance_app, Hbal, balance_console by done.
    unfold owed. simpl. lia.
+ assert (Hctx : ∀ (due : bool) w,
            (if due then Voice.contextEffect ctx
                           (Voice.setEffectRun (sid, ctx) true
                              (Voice.setWebsocketRef
                                 (Some {| Voice.readyState := Voice.CONNECTING;
                                          Voice.init_session_id := sid;
                                          Voice.init_context_page := ctx |}) w))
             else []) = []).
  { by intros [] w. }
  rewrite Hctx. split; [done|]. split.
  * rewrite ?app_nil_r. each_effect; try done.
    eapply Forall_impl; [exact Hframes|]. intros e He.
    destruct e as [| | |[]| | | | |]; try done. by destruct He as [? _].
  * rewrite ?app_nil_r, !balance_app, Hbal, balance_console by done.
    unfold owed. simpl. lia.
- unfold Voice.onopen.
destruct (Voice.websocketRef st) as [[[] sid ctx]|] eqn:Hsock;
  try (simpl; split; [done|split; [done|lia]]).
simpl. unfold tidy in *. rewrite Hsock in Htidy. simpl in *.
destruct (Voice.cleanup_pending st) eqn:Hpending.
+ split; [done|]. split; [by each_effect|]. unfold owed. simpl.
  rewrite balance_app, balance_console by done. simpl. rewrite Hpending. lia.
+ by destruct Htidy.
- unfold Voice.onclose.
destruct (Voice.websocketRef st) as [sock|] eqn:Hsock;
  [|simpl; split; [done|split; [done|lia]]].
simpl. unfold tidy in *. rewrite Hsock in Htidy. simpl.
split; [|split; [by each_effect|rewrite balance_console by done; unfold owed; simpl; lia]].
destruct (Voice.cleanup_pending st); [done|by right].
- destruct (Voice.socket_open st); [|simpl; split; [done|split; [done|lia]]].
pose proof (onmessage_websocketRef JSON_parse h now raw st) as (H1 & H2 & _).
pose proof (onmessage_off_socket now raw st) as (H3 & H4).
destruct (Voice.onmessage _ _ _ _) as [[st' es] errs]. simpl in *.
destruct (off_socket_frame_ok st (Voice.SocketMessage now raw) st' es H4)
  as [H5 H6].
split; [|split; [done|]].
+ unfold tidy in *. by rewrite H1, H2, H3.
+ unfold owed. rewrite H6, H2. lia.
- unfold Voice.recorderStopped.
destruct (Voice.socket_open st) eqn:Hopen; simpl;
  [|split; [done|split; [done|lia]]].
split; [done|]. split; [by repeat constructor|]. unfold owed. simpl. lia.
- destruct (Voice.effect_deps st) as [[sid ctx]|] eqn:Hdeps;
  [|simpl; split; [done|split; [done|lia]]].
pose proof (sendConfirmation_websocketRef JSON_parse sid ctx now b net st)
  as (H1 & H2 & H3).
pose proof (sendConfirmation_off_socket sid ctx now b net st) as H4.
destruct (Voice.sendConfirmation _ _ _ _ _ _ _) as [[st' es] errs]. simpl in *.
destruct (off_socket_frame_ok st (Voice.Confirmation now b net) st' es H4)
  as [H5 H6].
split; [|split; [done|]].
+ unfold tidy in *. by rewrite H1, H2, H3.
+ unfold owed. rewrite H6, H2. lia.
Qed.

End VoiceSocket.

(** No [update_context] frame. *)
Definition no_context_update (e : Net.Effect) : Prop :=
  match e with
  | Net.WsSend (Net.FrameUpdateContext _) => False
  | _ => True
  end.

Lemma frame_ok_no_context_update (st : Voice.State) (ev : Voice.Event)
    (st' : Voice.State) (e : Net.Effect) :
  frame_ok st ev st' e → no_context_update e.
Proof. by destruct e as [| | |[]| | | | |]. Qed.

Lemma run_tidy (JSON_parse : string → option Js.value) (h : Voice.Hook)
    (evs : list Voice.Event) :
  ∀ st, tidy st →
        tidy (Voice.run JSON_parse h evs st).1
        ∧ Forall no_context_update (Voice.run JSON_parse h evs st).2
        ∧ balance (Voice.run JSON_parse h evs st).2
          = (owed (Voice.run JSON_parse h evs st).1 - owed st)%Z.
Proof.
  induction evs as [|ev evs IH]; intros st Hst; simpl.
  { split; [done|]. split; [done|lia]. }
  destruct (step_tidy JSON_parse h ev st Hst) as (H1 & H2 & H3).
  destruct (Voice.step JSON_parse h ev st) as [st1 es1]. simpl in *.
  destruct (IH st1 H1) as (H4 & H5 & H6).
  destruct (Voice.run JSON_parse h evs st1) as [st2 es2]. simpl in *.
  split; [done|]. split.
  - apply Forall_app. split; [|done].
    eapply Forall_impl; [exact H2|]. intros e. apply frame_ok_no_context_update.
  - rewrite balance_app. lia.
Qed.

Lemma tidy_initial : tidy Voice.initial.
Proof. done. Qed.

(** X10. The hook writes a frame only to an open socket.  After any
    sequence of renders, socket events, recordings and confirmations, the
    [init] frame is written by the open handler alone, which leaves the
    socket open, and it carries the session id and the context page of
    the latest render; every other frame, the audio of a recording and
    the [close] frame of the cleanup, is written while the socket is
    open. *)
Theorem frames_go_to_an_open_socket
    (JSON_parse : string → option Js.value) (h : Voice.Hook)
    (evs : list Voice.Event) (ev : Voice.Event) (frame : Net.Frame) :
  let st := (Voice.run JSON_parse h evs Voice.initial).1 in
  let after := Voice.step JSON_parse h ev st in
  Net.WsSend frame ∈ after.2 →
  match frame with
  | Net.FrameInit sid ctx =>
      ev = Voice.SocketOpened ∧ Voice.effect_deps st = Some (sid, ctx)
      ∧ Voice.socket_open after.1 = true
  | _ => Voice.socket_open st = true
  end.
Proof.
  intros st after Hin.
  destruct (run_tidy JSON_parse h evs Voice.initial tidy_initial) as (Htidy & _).
  destruct (step_tidy JSON_parse h ev st Htidy) as (_ & Hframes & _).
  rewrite Forall_forall in Hframes. specialize (Hframes _ Hin).
  by destruct frame.
Qed.

(** The theorem on the open handler of a socket made for a session. *)
Lemma frames_go_to_an_open_socket_witness :
  let st := (Voice.run wire_parse Voice.useVoiceChat
               [Voice.Render "chat-session-1" "routes"] Voice.initial).1 in
  Voice.effect_deps st = Some ("chat-session-1", "routes")
  ∧ Voice.socket_open (Voice.step wire_parse Voice.useVoiceChat Voice.SocketOpened st).1
    = true.
Proof.
  intros st.
  refine (proj2 (frames_go_to_an_open_socket wire_parse Voice.useVoiceChat
                   [Voice.Render "chat-session-1" "routes"] Voice.SocketOpened
                   (Net.FrameInit "chat-session-1" "routes") _)).
  apply list_elem_of_here.
Defined.

(** X11. The hook never writes an [update_context] frame.  The effect
    that would write it runs when [contextPage] changes, and then the
    mount effect, which depends on [contextPage] as well, has just closed
    the socket and, with a session id, made a new one that is still
    connecting: the effect finds no open socket.  A new context page
    reaches the server in the [init] frame of the new socket. *)
Theorem context_update_is_never_sent
    (JSON_parse : string → option Js.value) (h : Voice.Hook) (evs : list Voice.Event) :
  Forall no_context_update (Voice.run JSON_parse h evs Voice.initial).2.
Proof.
  by destruct (run_tidy JSON_parse h evs Voice.initial tidy_initial) as (_ & H & _).
Qed.

(** X12. The hook has at most one socket that it has not closed.  After
    any sequence of events, the sockets it created are one more than the
    sockets on which it called [close()] while the cleanup of the mount
    effect is registered, and as many otherwise: every socket is closed
    before the next one is made. *)
Theorem one_socket_at_a_time
    (JSON_parse : string → option Js.value) (h : Voice.Hook) (evs : list Voice.Event) :
  let r := Voice.run JSON_parse h evs Voice.initial in
  balance r.2 = (if Voice.cleanup_pending r.1 then 1 else 0)%Z.
Proof.
  intros r.
  destruct (run_tidy JSON_parse h evs Voice.initial tidy_initial) as (_ & _ & H).
  subst r. rewrite H. unfold owed. simpl. lia.
Qed.

(** ** An answer to the dialog in voice mode *)

(** The voice message with which the user answers. *)
Definition voice_answer (now : Z) (confirmed : bool) : Voice.VoiceMessage :=
  {| Voice.type := user; Voice.text := Js.Str (if confirmed then "yes" else "no");
     Voice.timestamp := now; Voice.audio := None |}.

Lemma stopAudio_cells (st : Voice.State) :
  Voice.voiceMessages (Voice.stopAudio st) = Voice.voiceMessages st
  ∧ Voice.needsConfirmation (Voice.stopAudio st) = Voice.needsConfirmation st
  ∧ Voice.consequenceDetails (Voice.stopAudio st) = Voice.consequenceDetails st
  ∧ Voice.processingActive (Voice.stopAudio st) = Voice.processingActive st.
Proof. unfold Voice.stopAudio. by destruct (Voice.activeAudioRef st). Qed.

(** X13. [sendConfirmation] records the answer whether or not it sends
    it.  The answer of the user, [yes] or [no], is appended to the voice
    messages and the request for a confirmation is withdrawn in every
    case.  With the socket open the processing flag of the hook is clear
    when the function is done, on success and on every failure; with the
    socket not open nothing is sent, no error is reported and the flag
    stays as it was.  An error, if any, is reported once, with the fixed
    text [Failed to send confirmation]. *)
Theorem voice_answer_is_recorded
    (JSON_parse : string → option Js.value)
    (sid ctx : string) (now : Z) (confirmed : bool)
    (net : Voice.ConfirmAnswers) (st : Voice.State) :
  let r := Voice.sendConfirmation JSON_parse sid ctx now confirmed net st in
  (Voice.voiceMessages st ++ [voice_answer now confirmed])
    `prefix_of` Voice.voiceMessages r.1.1
  ∧ Voice.needsConfirmation r.1.1 = false
  ∧ Voice.consequenceDetails r.1.1 = Js.Null
  ∧ (Voice.socket_open st = true → Voice.processingActive r.1.1 = false)
  ∧ (Voice.socket_open st = false →
     r.1.2 = [] ∧ Voice.processingActive r.1.1 = Voice.processingActive st)
  ∧ (r.2 = [] ∨ r.2 = [Js.Str "Failed to send confirmation"]).
Proof.
  cbv zeta. unfold Voice.sendConfirmation, Voice.confirmation_failed.
  change (Voice.socket_open (Voice.setConfirmation _ _ (Voice.pushVoiceMessage _ st)))
    with (Voice.socket_open st).
  fold (voice_answer now confirmed).
  destruct (Voice.socket_open st) eqn:Hopen.
  2: { simpl. by repeat split; auto. }
  assert (Hfail : ∀ es : list Net.Effect,
    let r := (Voice.setProcessingActive false
                (Voice.setProcessingActive true
                   (Voice.setConfirmation false Js.Null
                      (Voice.pushVoiceMessage (voice_answer now confirmed) st))),
              es, [Js.Str "Failed to send confirmation"]) in
    (Voice.voiceMessages st ++ [voice_answer now confirmed])
      `prefix_of` Voice.voiceMessages r.1.1
    ∧ Voice.needsConfirmation r.1.1 = false
    ∧ Voice.consequenceDetails r.1.1 = Js.Null
    ∧ (true = true → Voice.processingActive r.1.1 = false)
    ∧ (true = false →
       r.1.2 = [] ∧ Voice.processingActive r.1.1 = Voice.processingActive st)
    ∧ (r.2 = [] ∨ r.2 = [Js.Str "Failed to send confirmation"])).
  { intros es. simpl. repeat split; auto; done. }
  destruct (Voice.chat_answer net) as [|response]; [apply Hfail|].
  destruct (_ ≫= _) as [reply|]; [|apply Hfail].
  destruct (Voice.tts_answer net) as [|ttsResponse]; [apply Hfail|].
  destruct (_ ≫= _) as [audio|]; [|apply Hfail].
  simpl. destruct (stopAudio_cells
    (Voice.pushVoiceMessage
       {| Voice.type := assistant; Voice.text := reply;
          Voice.timestamp := Voice.t_reply net; Voice.audio := Some audio |}
       (Voice.setProcessingActive true
          (Voice.setConfirmation false Js.Null
             (Voice.pushVoiceMessage (voice_answer now confirmed) st)))))
    as (H1 & H2 & H3 & H4).
  rewrite H1, H2, H3. simpl. repeat split; auto; try done.
  by apply prefix_app_r.
Qed.

(** ** The voice messages of [useVoiceChat] *)

(** The voice message is one of the user. *)
Definition by_user (m : Voice.VoiceMessage) : Prop := Voice.type m = user.

(** What the loop of [lastAssistantIndex] finds: the last place that
    holds an assistant message, with only user messages after it, or
    nothing when every message is one of the user. *)
Lemma lastAssistantIndex_spec (msgs : list Voice.VoiceMessage) :
  match Voice.lastAssistantIndex msgs with
  | Some i =>
      (∃ m, msgs !! i = Some m ∧ Voice.type m = assistant)
      ∧ ∀ j m, i < j → msgs !! j = Some m → by_user m
  | None => Forall by_user msgs
  end.
Proof.
  unfold Voice.lastAssistantIndex.
  assert (H : ∀ n,
    match (fix from (n : nat) : option nat :=
             match n with
             | O => None
             | S i => match msgs !! i with
                      | Some {| Voice.type := assistant |} => Some i
                      | _ => from i
                      end
             end) n with
    | Some i =>
        (∃ m, msgs !! i = Some m ∧ Voice.type m = assistant)
        ∧ ∀ j m, i < j < n → msgs !! j = Some m → by_user m
    | None => ∀ j m, j < n → msgs !! j = Some m → by_user m
    end).
  { induction n as [|n IH]; [intros j m Hj; lia|].
    destruct (msgs !! n) as [[[] text t audio]|] eqn:E.
    - split; [by eexists|]. intros j m Hj. lia.
    - destruct (_ n) as [i|].
      + destruct IH as [H1 H2]. split; [done|]. intros j m Hj Hm.
        destruct (decide (j = n)) as [->|Hne]; [|apply (H2 j); [lia|done]].
        rewrite E in Hm. by injection Hm as <-.
      + intros j m Hj Hm.
        destruct (decide (j = n)) as [->|Hne]; [|apply (IH j); [lia|done]].
        rewrite E in Hm. by injection Hm as <-.
    - destruct (_ n) as [i|].
      + destruct IH as [H1 H2]. split; [done|]. intros j m Hj Hm.
        destruct (decide (j = n)) as [->|Hne]; [congruence|apply (H2 j); [lia|done]].
      + intros j m Hj Hm.
        destruct (decide (j = n)) as [->|Hne]; [congruence|apply (IH j); [lia|done]]. }
  specialize (H (length msgs)).
  destruct (_ (length msgs)) as [i|].
  - destruct H as [H1 H2]. split; [done|]. intros j m Hj Hm.
    apply (H2 j); [|done]. apply lookup_lt_Some in Hm. lia.
  - apply Forall_lookup. intros j m Hm. apply (H j); [|done].
    by apply lookup_lt_Some in Hm.
Qed.

(** X26. In [useVoiceChat] a [text_response] or an [audio_response] frame
    adds a message only while the conversation holds no assistant message.
    Otherwise it rewrites the last assistant message, wherever that is,
    also when the user has spoken since: the text (and for [text_response]
    the time) of that message is replaced, the audio is attached, and no
    message is added.  Messages of the user are never touched, and no
    message is removed or moved. *)
Theorem voice_reply_rewrites_the_last_answer
    (now : Z) (text data : Js.value) (prev : list Voice.VoiceMessage) :
  let shown := Voice.on_text_response now text prev in
  let heard := Voice.on_audio_response now text data prev in
  (∀ j m, prev !! j = Some m → by_user m → shown !! j = Some m ∧ heard !! j = Some m)
  ∧ match Voice.lastAssistantIndex prev with
    | Some i =>
        (∀ j m, i < j → prev !! j = Some m → by_user m)
        ∧ length shown = length prev ∧ length heard = length prev
        ∧ (∀ j, j ≠ i → shown !! j = prev !! j ∧ heard !! j = prev !! j)
        ∧ ∃ m, prev !! i = Some m ∧ Voice.type m = assistant
               ∧ shown !! i = Some {| Voice.type := assistant; Voice.text := text;
                                      Voice.timestamp := now;
                                      Voice.audio := Voice.audio m |}
               ∧ heard !! i = Some {| Voice.type := assistant;
                                      Voice.text := if Js.truthy text then text
                                                    else Voice.text m;
                                      Voice.timestamp := Voice.timestamp m;
                                      Voice.audio := Some data |}
    | None =>
        Forall by_user prev
        ∧ shown = prev ++ [Voice.spoken now text None]
        ∧ heard = prev ++ [Voice.spoken now
                             (if Js.truthy text then text
                              else Js.Str "Audio response received") (Some data)]
    end.
Proof.
  intros shown heard. subst shown heard.
  unfold Voice.on_text_response, Voice.on_audio_response.
  pose proof (lastAssistantIndex_spec prev) as Hspec.
  destruct (Voice.lastAssistantIndex prev) as [i|].
  - destruct Hspec as [(m & Hm & Hrole) Hafter]. split.
    + intros j u Hu Huser.
      assert (j ≠ i) by (intros ->; unfold by_user in Huser; congruence).
      by rewrite !list_lookup_alter_ne.
    + split; [done|]. rewrite !length_alter. split; [done|]. split; [done|]. split.
      * intros j Hj. by rewrite !list_lookup_alter_ne.
      * exists m. rewrite !list_lookup_alter_eq, Hm. simpl. by rewrite Hrole.
  - split.
    + intros j u Hu _. split; by apply lookup_app_l_Some.
    + done.
Qed.

(** The rule at work: the user asks a second question and the full text
    of the answer arrives without a chunk before it; the answer to the
    first question is overwritten and no message is added. *)
Example second_answer_overwrites_the_first :
  let said k t text := {| Voice.type := k; Voice.text := Js.Str text;
                          Voice.timestamp := t; Voice.audio := None |} in
  Voice.on_text_response 9 (Js.Str "Route 7 has 12 stops.")
    [said user 1%Z "how many buses"; said assistant 2%Z "There are 40 buses.";
     said user 8%Z "and stops on route 7"]
  = [said user 1%Z "how many buses"; said assistant 9%Z "Route 7 has 12 stops.";
     said user 8%Z "and stops on route 7"].
Proof. reflexivity. Qed.

(** ** From the mount of the component to the voice session *)

Lemma session_id_not_blank (stamp rnd : string) :
  Voice.no_session ("chat-session-" +:+ stamp +:+ "-" +:+ rnd) = false.
Proof.
  destruct (Voice.no_session _) eqn:E; [|done].
  apply no_session_spec in E. simpl in E. by destruct E as [? _].
Qed.

(** The hook as [FleetChatAssistant] imports it does nothing at all: the
    render throws before anything is committed, and without a commit no
    socket exists for an event to arrive on. *)
Lemma run_useVoiceInteraction (JSON_parse : string → option Js.value)
    (evs : list Voice.Event) :
  Voice.run JSON_parse Voice.useVoiceInteraction evs Voice.initial = (Voice.initial, []).
Proof.
  induction evs as [|ev evs IH]; [done|].
  simpl. replace (Voice.step JSON_parse Voice.useVoiceInteraction ev Voice.initial)
    with (Voice.initial, @nil Net.Effect) by (by destruct ev).
  by rewrite IH.
Qed.

(** X15. After the mount effects, which are the same in the two chat
    components, the component has a session for the voice hook: the
    session id it hands to the hook is the chat session id, which the guard
    of the hook accepts whatever the clock and the random number were.
    [useVoiceChat], rendered first with the empty id of the initial state
    and then with the props after the mount, waits at first and then
    connects: up to the open socket it makes one socket and writes the
    [init] frame with the chat session id and the page detected from the
    path.  [useVoiceInteraction] gets no further than its [return]
    statement: whatever the renders and the events, it keeps its initial
    state, makes no socket and writes nothing, not even to the console. *)
Theorem voice_session_follows_the_mount
    (JSON_parse : string → option Js.value)
    (now : Z) (stamp rnd pathname : string) :
  let st0 := Chat.initial now in
  let st := Chat.mount stamp rnd pathname st0 in
  let sid := "chat-session-" +:+ stamp +:+ "-" +:+ rnd in
  let r := Voice.run JSON_parse Voice.useVoiceChat
             [Voice.Render (Assistant.hook_sessionId st0) (Chat.currentContextPage st0);
              Voice.Render (Assistant.hook_sessionId st) (Chat.currentContextPage st);
              Voice.SocketOpened]
             Voice.initial in
  Assistant.hook_sessionId st = sid
  ∧ Voice.no_session (Assistant.hook_sessionId st) = false
  ∧ r.2 = [Net.NewWebSocket;
           Net.WsSend (Net.FrameInit sid (Chat.detectedPage pathname))]
  ∧ Voice.socket_open r.1 = true
  ∧ (∀ evs, Voice.run JSON_parse Voice.useVoiceInteraction evs Voice.initial
            = (Voice.initial, [])).
Proof.
  intros st0 st sid r.
  assert (Hsid : Assistant.hook_sessionId st = sid) by done.
  pose proof (session_id_not_blank stamp rnd) as Hblank. fold sid in Hblank.
  split; [done|]. split; [by rewrite Hsid|].
  assert (Hrun : r.2 = [Net.NewWebSocket;
                        Net.WsSend (Net.FrameInit sid (Chat.detectedPage pathname))]
                 ∧ Voice.socket_open r.1 = true).
  { subst r. rewrite Hsid.
    change (Assistant.hook_sessionId st0) with EmptyString.
    change (Chat.currentContextPage st0) with "unknown".
    change (Chat.currentContextPage st) with (Chat.detectedPage pathname).
    unfold Voice.run, Voice.step.
    change (Voice.render Voice.useVoiceChat EmptyString "unknown" Voice.initial)
      with (Voice.setEffectRun (EmptyString, "unknown") false Voice.initial,
            @nil Net.Effect).
    unfold Voice.render, Voice.hook_return, Voice.commit.
    change (Voice.effect_deps
              (Voice.setEffectRun (EmptyString, "unknown") false Voice.initial))
      with (Some (EmptyString, "unknown")).
    change (String.eqb EmptyString sid) with false. cbn [andb negb].
    change (Voice.cleanup_pending
              (Voice.setEffectRun (EmptyString, "unknown") false Voice.initial))
      with false. cbv iota beta.
    unfold Voice.mountEffect, Voice.connectWebSocket. rewrite Hblank.
    cbv iota beta zeta.
    set (due := negb (String.eqb "unknown" (Chat.detectedPage pathname))).
    clearbody due.
    unfold Voice.contextEffect, Voice.socket_open, Voice.onopen. simpl.
    by destruct due. }
  destruct Hrun as [H1 H2]. split; [done|]. split; [done|].
  intros evs. apply run_useVoiceInteraction.
Qed.

(** ** The trip cards of the dashboard *)

Lemma bookingValue_number (booking : option spec_float) :
  Number.isNaN (Dashboard.bookingValue booking) = false.
Proof. by destruct booking as [[]|]. Qed.

(** X16. On the trip cards the fill of the booking bar is a number
    between 0 and 100 whatever the booking percentage of the trip is:
    missing, NaN, negative, infinite or above 100.  The [|| 0] of the
    caller turns a missing percentage, NaN and both zeros into 0, and the
    maximum is the literal 100, so the cases in which the bar itself
    computes NaN cannot come up. *)
Theorem trip_fill_is_between_0_and_100 (booking : option spec_float) :
  let fill := Dashboard.tripFill booking in
  Number.isNaN fill = false
  ∧ Number.le Number.zero fill = true
  ∧ Number.le fill Number.hundred = true
  ∧ Dashboard.tripFill None = Number.zero
  ∧ Dashboard.tripFill (Some Number.NaN) = Number.zero
  ∧ Dashboard.tripFill (Some Number.Infinity) = Number.hundred.
Proof.
  intros fill.
  assert (H : Number.isNaN fill = false
              ∧ Number.le Number.zero fill = true
              ∧ Number.le fill Number.hundred = true).
  { apply clamp_in_range, ratio_not_nan.
    - apply bookingValue_number.
    - reflexivity.
    - apply andb_false_r. }
  destruct H as (H1 & H2 & H3). by repeat split.
Qed.

Lemma status_is_unique (live_status : option string) (a b : string) :
  a ≠ b → Dashboard.status_is live_status a = true →
  Dashboard.status_is live_status b = false.
Proof.
  destruct live_status as [s|]; simpl; [|done].
  intros Hab ->%String.eqb_eq. by apply String.eqb_neq.
Qed.

(** X17. The badge of a trip pulses, and its icon spins, exactly when
    the live status of the trip is one of the two spellings of in
    progress, [in_progress] and [in-progress]: the [animated] prop and the
    [status] prop the card computes from the live status agree on it. *)
Theorem trip_badge_moves_when_in_progress (live_status : option string) :
  let status := Dashboard.badgeStatus live_status in
  StatusBadge.pulses status (Dashboard.badgeAnimated live_status)
  = Dashboard.badgeAnimated live_status
  ∧ StatusBadge.spins status = Dashboard.badgeAnimated live_status
  ∧ (Dashboard.badgeAnimated live_status = true ↔
     live_status = Some "in_progress" ∨ live_status = Some "in-progress").
Proof.
  cbv zeta.
  assert (Hspins : StatusBadge.spins (Dashboard.badgeStatus live_status)
                   = Dashboard.badgeAnimated live_status).
  { unfold Dashboard.badgeStatus, Dashboard.badgeAnimated.
    destruct (Dashboard.status_is live_status "scheduled") eqn:E1.
    - rewrite (status_is_unique live_status "scheduled" "in_progress") by done.
      by rewrite (status_is_unique live_status "scheduled" "in-progress").
    - destruct (_ || _); [done|].
      destruct (Dashboard.status_is live_status "completed"); [done|].
      by destruct (Dashboard.status_is live_status "cancelled"). }
  split; [|split; [exact Hspins|]].
  - unfold StatusBadge.pulses. unfold StatusBadge.spins in Hspins. rewrite Hspins.
    by destruct (Dashboard.badgeAnimated live_status).
  - unfold Dashboard.badgeAnimated, Dashboard.status_is.
    destruct live_status as [s|]; [|by split; [|intros [|]]].
    rewrite orb_true_iff, !String.eqb_eq.
    split; intros [H|H]; [left|right|left|right]; congruence.
Qed.

(** ** Stops and paths: deleting, editing and searching *)

(** The request was answered with a response that is [ok]. *)
Definition went_through {A : Type} (answer : Reply A) : bool :=
  match answer with
  | Status true _ => true
  | _ => false
  end.

Lemma filter_sublist {A : Type} (f : A → bool) (l : list A) :
  List.filter f l `sublist_of` l.
Proof.
  induction l as [|x l IH]; simpl; [done|].
  destruct (f x); [by apply sublist_skip|by apply sublist_cons].
Qed.

Lemma elem_of_filter_bool {A : Type} (f : A → bool) (l : list A) (x : A) :
  x ∈ List.filter f l ↔ x ∈ l ∧ f x = true.
Proof. rewrite !list_elem_of_In. apply filter_In. Qed.

(** X18. [handleDelete] always closes the delete dialog and forgets the
    id, whatever the request came to.  Unless the response is [ok], both
    lists stay as they are and one error toast names what could not be
    deleted.  After a response that is [ok], the list of the chosen kind
    keeps, in their order, exactly the entries whose id is not the id
    that was to be deleted, and the other list is not touched: deleting a
    stop leaves every path as it is, also a path through that stop. *)
Theorem delete_closes_the_dialog (answer : Reply unit) (st : StopsPaths.State) :
  let r := StopsPaths.handleDelete answer st in
  StopsPaths.deleteDialogOpen r.1 = false
  ∧ StopsPaths.deletingId r.1 = None
  ∧ (went_through answer = false →
     StopsPaths.stopsList r.1 = StopsPaths.stopsList st
     ∧ StopsPaths.pathsList r.1 = StopsPaths.pathsList st
     ∧ r.2 = [StopsPaths.FetchDelete (StopsPaths.deleteType st) (StopsPaths.deletingId st);
              StopsPaths.Toast "Error"
                (Some ("Failed to delete "
                       +:+ StopsPaths.type_name (StopsPaths.deleteType st))) true])
  ∧ (went_through answer = true →
     match StopsPaths.deleteType st with
     | StopsPaths.stop =>
         StopsPaths.pathsList r.1 = StopsPaths.pathsList st
         ∧ StopsPaths.stopsList r.1 `sublist_of` StopsPaths.stopsList st
         ∧ ∀ s, s ∈ StopsPaths.stopsList r.1 ↔
                s ∈ StopsPaths.stopsList st
                ∧ ∀ d, StopsPaths.deletingId st = Some d →
                       same_number (StopsPaths.stop_id s) d = false
     | StopsPaths.path =>
         StopsPaths.stopsList r.1 = StopsPaths.stopsList st
         ∧ StopsPaths.pathsList r.1 `sublist_of` StopsPaths.pathsList st
         ∧ ∀ p, p ∈ StopsPaths.pathsList r.1 ↔
                p ∈ StopsPaths.pathsList st
                ∧ ∀ d, StopsPaths.deletingId st = Some d →
                       same_number (StopsPaths.path_id p) d = false
     end).
Proof.
  assert (Hother : ∀ deleting id,
            StopsPaths.other_than deleting id = true ↔
            ∀ d, deleting = Some d → same_number id d = false).
  { intros [d|] id; simpl.
    - rewrite negb_true_iff. split; [by intros H d' [= <-]|by intros H; apply H].
    - by split. }
  cbv zeta. unfold StopsPaths.handleDelete.
  destruct answer as [|[] j]; simpl; try by repeat split.
  destruct (StopsPaths.deleteType st); simpl;
    (split; [done|]; split; [done|]; split; [by intros [=]|]; intros _).
  - split; [done|]. split; [apply filter_sublist|].
    intros s. by rewrite elem_of_filter_bool, Hother.
  - split; [done|]. split; [apply filter_sublist|].
    intros p. by rewrite elem_of_filter_bool, Hother.
Qed.

(** X19. [handleEditStop] does nothing at all while no stop is being
    edited.  Otherwise it sends one request; unless the response is [ok]
    and has a body, nothing changes, so the edit dialog stays open, and
    one error toast is shown.  After a good response the dialog is closed,
    the list has as many stops as before, and at every position stands
    the stop that stood there, or the stop the server returned where the
    id was the id of the edited stop. *)
Theorem edit_keeps_the_places (data : StopsPaths.StopCreate)
    (answer : Reply StopsPaths.Stop) (st : StopsPaths.State) :
  let r := StopsPaths.handleEditStop data answer st in
  match StopsPaths.editingStop st with
  | None => r = (st, [])
  | Some editing =>
      match answer with
      | Status true (Some updatedStop) =>
          StopsPaths.editDialogOpen r.1 = false
          ∧ length (StopsPaths.stopsList r.1) = length (StopsPaths.stopsList st)
          ∧ StopsPaths.pathsList r.1 = StopsPaths.pathsList st
          ∧ ∀ i s, StopsPaths.stopsList st !! i = Some s →
                   StopsPaths.stopsList r.1 !! i
                   = Some (if same_number (StopsPaths.stop_id s)
                                          (StopsPaths.stop_id editing)
                           then updatedStop else s)
      | _ =>
          r.1 = st ∧ StopsPaths.editDialogOpen r.1 = true
          ∧ r.2 = [StopsPaths.FetchPutStop (StopsPaths.stop_id editing) data;
                   StopsPaths.Toast "Error" (Some "Failed to update stop") true]
      end
  end.
Proof.
  cbv zeta. unfold StopsPaths.handleEditStop, StopsPaths.editDialogOpen.
  destruct (StopsPaths.editingStop st) as [editing|] eqn:E; [|done].
  destruct answer as [|[] [updatedStop|]]; simpl; rewrite ?E; try done.
  split; [done|]. split; [by rewrite length_map|]. split; [done|].
  intros i s Hs. change (map ?f ?l) with (f <$> l).
  by rewrite list_lookup_fmap, Hs.
Qed.

(** [setSearchTerm(e.target.value)] of the search field. *)
Definition setSearchTerm (v : string) (st : StopsPaths.State) : StopsPaths.State :=
  {| StopsPaths.stopsList := StopsPaths.stopsList st;
     StopsPaths.pathsList := StopsPaths.pathsList st;
     StopsPaths.editingStop := StopsPaths.editingStop st;
     StopsPaths.deleteDialogOpen := StopsPaths.deleteDialogOpen st;
     StopsPaths.deleteType := StopsPaths.deleteType st;
     StopsPaths.deletingId := StopsPaths.deletingId st;
     StopsPaths.searchTerm := v |}.

Lemma includes_empty (s : string) : Js.includes s EmptyString = true.
Proof. destruct s; simpl; by rewrite ?startsWith_empty. Qed.

Lemma lower_idem (c : ascii) : Text.lower (Text.lower c) = Text.lower c.
Proof. by destruct c as [[] [] [] [] [] [] [] []]. Qed.

Lemma toLowerCase_idem (s : string) :
  Text.toLowerCase (Text.toLowerCase s) = Text.toLowerCase s.
Proof. induction s as [|c s IH]; simpl; [done|]. by rewrite lower_idem, IH. Qed.

Lemma toLowerCase_app (s t : string) :
  Text.toLowerCase (s +:+ t) = Text.toLowerCase s +:+ Text.toLowerCase t.
Proof.
  induction s as [|c s IH]; [done|].
  rewrite string_app_cons. simpl. by rewrite IH.
Qed.

Lemma includes_toLowerCase (s sub : string) :
  Js.includes s sub = true →
  Js.includes (Text.toLowerCase s) (Text.toLowerCase sub) = true.
Proof.
  rewrite !includes_spec. intros (pre & post & ->).
  exists (Text.toLowerCase pre), (Text.toLowerCase post).
  by rewrite !toLowerCase_app.
Qed.

(** X20. The search of the stops shows every stop while the search field
    is empty, it does not look at the case of the term, a term and its
    lower case select the same stops, and what is shown keeps the order of
    the list. *)
Theorem stop_search_ignores_case (st : StopsPaths.State) :
  (StopsPaths.searchTerm st = EmptyString →
   StopsPaths.filteredStops st = StopsPaths.stopsList st)
  ∧ StopsPaths.filteredStops
      (setSearchTerm (Text.toLowerCase (StopsPaths.searchTerm st)) st)
    = StopsPaths.filteredStops st
  ∧ StopsPaths.filteredStops st `sublist_of` StopsPaths.stopsList st.
Proof.
  unfold StopsPaths.filteredStops. split; [|split].
  - intros ->. simpl. induction (StopsPaths.stopsList st) as [|s l IH]; [done|].
    simpl. by rewrite includes_empty, IH.
  - simpl. by rewrite toLowerCase_idem.
  - apply filter_sublist.
Qed.

(** X25. For names and search terms written in Latin-1, the characters up
    to U+00FF, which is what a [string] holds here, the search of the stops
    does not look at case in the names either: a stop whose name holds the
    term as typed is always shown. *)
Theorem stop_search_finds_the_term_as_typed (st : StopsPaths.State) (s : StopsPaths.Stop)
    (Hstop : s ∈ StopsPaths.stopsList st)
    (Hname : Js.includes (StopsPaths.name s) (StopsPaths.searchTerm st) = true) :
  s ∈ StopsPaths.filteredStops st.
Proof.
  unfold StopsPaths.filteredStops.
  apply elem_of_filter_bool. split; [done|].
  by apply includes_toLowerCase.
Qed.

Example stop_search_finds_upper_case :
  let stop := {| StopsPaths.stop_id := Number.of_Z 1; StopsPaths.name := "MG Road";
                 StopsPaths.latitude := Number.zero; StopsPaths.longitude := Number.zero |} in
  let st := {| StopsPaths.stopsList := [stop]; StopsPaths.pathsList := [];
               StopsPaths.editingStop := None; StopsPaths.deleteDialogOpen := false;
               StopsPaths.deleteType := StopsPaths.stop; StopsPaths.deletingId := None;
               StopsPaths.searchTerm := "mg ROAD" |} in
  StopsPaths.filteredStops st = [stop].
Proof. reflexivity. Qed.

(** The theorem on a stop found under the name as it is written. *)
Lemma stop_search_finds_the_term_as_typed_witness :
  let stop := {| StopsPaths.stop_id := Number.of_Z 1; StopsPaths.name := "MG Road";
                 StopsPaths.latitude := Number.zero; StopsPaths.longitude := Number.zero |} in
  let st := {| StopsPaths.stopsList := [stop]; StopsPaths.pathsList := [];
               StopsPaths.editingStop := None; StopsPaths.deleteDialogOpen := false;
               StopsPaths.deleteType := StopsPaths.stop; StopsPaths.deletingId := None;
               StopsPaths.searchTerm := "G Ro" |} in
  stop ∈ StopsPaths.filteredStops st.
Proof.
  intros stop st.
  apply (stop_search_finds_the_term_as_typed st stop); [|reflexivity].
  apply list_elem_of_here.
Defined.

(** ** The notification center *)

(** The unread notifications with the id [i]. *)
Definition unread_with (i : string) (ns : list NotificationCenter.Notification) : nat :=
  length (List.filter
            (λ n, negb (NotificationCenter.read n)
                  && String.eqb (NotificationCenter.id n) i) ns).

Lemma markAsRead_count (i : string) (ns : list NotificationCenter.Notification) :
  (NotificationCenter.unreadCount (NotificationCenter.markAsRead i ns)
   + unread_with i ns)%nat
  = NotificationCenter.unreadCount ns.
Proof.
  unfold NotificationCenter.unreadCount, unread_with, NotificationCenter.markAsRead.
  induction ns as [|n ns IH]; simpl; [done|].
  destruct (String.eqb (NotificationCenter.id n) i);
    destruct (NotificationCenter.read n); simpl; lia.
Qed.

(** X21. Marking a notification as read keeps the list as it is, entry
    by entry and in the same order, except that every notification with
    that id is read afterwards.  The number of unread notifications goes
    down by exactly the number of unread notifications with that id, so it
    never goes up, and marking the same id again changes nothing.  The red
    dot on the bell is shown exactly while some notification is unread. *)
Theorem marking_as_read_only_reads (i : string)
    (ns : list NotificationCenter.Notification) :
  let after := NotificationCenter.markAsRead i ns in
  length after = length ns
  ∧ NotificationCenter.id <$> after = NotificationCenter.id <$> ns
  ∧ (∀ k n, ns !! k = Some n → NotificationCenter.id n ≠ i → after !! k = Some n)
  ∧ (∀ n, n ∈ after → NotificationCenter.id n = i → NotificationCenter.read n = true)
  ∧ (NotificationCenter.unreadCount after + unread_with i ns)%nat
    = NotificationCenter.unreadCount ns
  ∧ NotificationCenter.markAsRead i after = after
  ∧ (NotificationCenter.dotShown ns = true ↔
     ∃ n, n ∈ ns ∧ NotificationCenter.read n = false).
Proof.
  cbv zeta. unfold NotificationCenter.markAsRead.
  split; [by rewrite length_map|]. split; [|split; [|split; [|split; [|split]]]].
  - change (map ?f ?l) with (f <$> l). apply list_eq. intros k.
    rewrite !list_lookup_fmap. destruct (ns !! k) as [n|]; simpl; [|done].
    by destruct (String.eqb _ _).
  - intros k n Hk Hid. change (map ?f ?l) with (f <$> l).
    rewrite list_lookup_fmap, Hk. simpl.
    by apply String.eqb_neq in Hid as ->.
  - intros n Hn Hid. change (map ?f ?l) with (f <$> l) in Hn.
    apply list_elem_of_fmap in Hn as (m & -> & _).
    destruct (String.eqb (NotificationCenter.id m) i) eqn:E; [done|].
    by apply String.eqb_neq in E.
  - apply markAsRead_count.
  - induction ns as [|n ns IH]; simpl; [done|]. rewrite IH. f_equal.
    destruct (String.eqb (NotificationCenter.id n) i) eqn:E; simpl; by rewrite E.
  - unfold NotificationCenter.dotShown, NotificationCenter.unreadCount.
    rewrite Nat.ltb_lt. split.
    + intros H.
      destruct (List.filter _ ns) as [|n l] eqn:E; [simpl in H; lia|].
      assert (Hn : n ∈ List.filter (λ n, negb (NotificationCenter.read n)) ns)
        by (rewrite E; by left).
      apply elem_of_filter_bool in Hn as [Hn Hr]. exists n. split; [done|].
      by apply negb_true_iff.
    + intros (n & Hn & Hr).
      assert (Hin : n ∈ List.filter (λ n, negb (NotificationCenter.read n)) ns).
      { apply elem_of_filter_bool. split; [done|]. by rewrite Hr. }
      destruct (List.filter _ ns); [by apply elem_of_nil in Hin|simpl; lia].
Qed.

(** X22. Removing a notification takes out exactly the notifications
    with that id and keeps the others in their order.  The number of
    unread notifications never goes up.  Removing does not care whether
    the notification was read first, and it does not disturb the reading
    of another id: the two operations can be done in either order. *)
Theorem removing_takes_out_the_id (i j : string)
    (ns : list NotificationCenter.Notification) :
  let after := NotificationCenter.removeNotification i ns in
  (∀ n, n ∈ after ↔ n ∈ ns ∧ NotificationCenter.id n ≠ i)
  ∧ after `sublist_of` ns
  ∧ (NotificationCenter.unreadCount after ≤ NotificationCenter.unreadCount ns)%nat
  ∧ NotificationCenter.removeNotification i (NotificationCenter.markAsRead i ns) = after
  ∧ NotificationCenter.markAsRead j after
    = NotificationCenter.removeNotification i (NotificationCenter.markAsRead j ns).
Proof.
  cbv zeta. unfold NotificationCenter.removeNotification.
  split; [|split; [|split; [|split]]].
  - intros n. rewrite elem_of_filter_bool, negb_true_iff, String.eqb_neq. done.
  - apply filter_sublist.
  - unfold NotificationCenter.unreadCount.
    induction ns as [|n ns IH]; simpl; [done|].
    destruct (String.eqb (NotificationCenter.id n) i); simpl;
      destruct (NotificationCenter.read n); simpl; lia.
  - unfold NotificationCenter.markAsRead.
    induction ns as [|n ns IH]; simpl; [done|].
    destruct (String.eqb (NotificationCenter.id n) i) eqn:E; simpl; rewrite E; simpl;
      [done|]. by rewrite IH.
  - unfold NotificationCenter.markAsRead.
    induction ns as [|n ns IH]; simpl; [done|].
    destruct (String.eqb (NotificationCenter.id n) i) eqn:E; simpl;
      destruct (String.eqb (NotificationCenter.id n) j) eqn:E'; simpl;
      rewrite ?E; simpl; by rewrite IH.
Qed.

(** ** The figures of the analytics page *)

(** The live status of the trip is one the page counts. *)
Definition counted (t : Analytics.DailyTrip) : bool :=
  let has := Dashboard.status_is (Analytics.live_status t) in
  has "scheduled" || has "in_progress" || has "in-progress" || has "completed"
  || has "cancelled".

Lemma count_le {A : Type} (f : A → bool) (l : list A) :
  (Analytics.count f l ≤ length l)%nat.
Proof.
  unfold Analytics.count. induction l as [|x l IH]; simpl; [done|].
  destruct (f x); simpl; lia.
Qed.

Lemma count_all {A : Type} (f : A → bool) (l : list A) :
  Analytics.count f l = length l ↔ Forall (λ x, f x = true) l.
Proof.
  unfold Analytics.count. induction l as [|x l IH]; simpl; [by split|].
  pose proof (count_le f l) as Hle. unfold Analytics.count in Hle.
  destruct (f x) eqn:E; simpl.
  - rewrite Forall_cons, <- IH. split; [intros [= H]; by split|by intros [_ ->]].
  - split; [lia|]. intros [H _]%Forall_cons. congruence.
Qed.

Lemma counted_once (t : Analytics.DailyTrip) :
  let has := Dashboard.status_is (Analytics.live_status t) in
  (Nat.b2n (has "scheduled") + Nat.b2n (has "in_progress" || has "in-progress")
   + Nat.b2n (has "completed") + Nat.b2n (has "cancelled"))%nat
  = Nat.b2n (counted t).
Proof.
  unfold counted. cbv zeta. unfold Dashboard.status_is.
  destruct (Analytics.live_status t) as [s|]; [|done].
  destruct (String.eqb_spec s "scheduled") as [->|]; [done|].
  destruct (String.eqb_spec s "in_progress") as [->|]; [done|].
  destruct (String.eqb_spec s "in-progress") as [->|]; [done|].
  destruct (String.eqb_spec s "completed") as [->|]; [done|].
  by destruct (String.eqb_spec s "cancelled") as [->|].
Qed.

Lemma status_counts_add_up (trips : list Analytics.DailyTrip) :
  let has t := Dashboard.status_is (Analytics.live_status t) in
  (Analytics.count (λ t, has t "scheduled") trips
   + Analytics.count (λ t, has t "in_progress" || has t "in-progress") trips
   + Analytics.count (λ t, has t "completed") trips
   + Analytics.count (λ t, has t "cancelled") trips)%nat
  = Analytics.count counted trips.
Proof.
  cbv zeta. unfold Analytics.count.
  induction trips as [|t trips IH]; simpl; [done|].
  pose proof (counted_once t) as H. cbv zeta in H.
  destruct (Dashboard.status_is (Analytics.live_status t) "scheduled");
    destruct (Dashboard.status_is (Analytics.live_status t) "in_progress"
              || Dashboard.status_is (Analytics.live_status t) "in-progress");
    destruct (Dashboard.status_is (Analytics.live_status t) "completed");
    destruct (Dashboard.status_is (Analytics.live_status t) "cancelled");
    destruct (counted t); simpl in *; lia.
Qed.

(** X23. The figures of the analytics page are consistent.  No trip is
    counted under two of the four status figures, so these add up to at
    most the total number of trips, and to exactly the total when every
    trip has one of the status values the page knows, the two spellings of
    in progress counting as one.  The active vehicles are at most the
    vehicles and the active routes at most the routes, so the idle figure,
    their difference, is never negative.  Without trips the average
    booking rate is 0 and nothing is divided. *)
Theorem analytics_figures_add_up {D S P Q : Type}
    (tripsData : list Analytics.DailyTrip)
    (routesData vehiclesData : list (option string))
    (driversData : list D) (stopsData : list S) (pathsData : list P)
    (deploymentsData : list Q) :
  let a := Analytics.figures tripsData routesData vehiclesData driversData
             stopsData pathsData deploymentsData in
  let by_status := (Analytics.scheduledTrips a + Analytics.inProgressTrips a
                    + Analytics.completedTrips a + Analytics.cancelledTrips a)%nat in
  (by_status ≤ Analytics.totalTrips a)%nat
  ∧ (by_status = Analytics.totalTrips a ↔ Forall (λ t, counted t = true) tripsData)
  ∧ (Analytics.activeVehicles a ≤ Analytics.totalVehicles a)%nat
  ∧ (Analytics.activeRoutes a ≤ Analytics.totalRoutes a)%nat
  ∧ Analytics.avgBookingRate
      (Analytics.figures [] routesData vehiclesData driversData stopsData pathsData
         deploymentsData)
    = Number.zero.
Proof.
  cbv zeta. unfold Analytics.figures. simpl.
  pose proof (status_counts_add_up tripsData) as H. cbv zeta in H. rewrite H.
  split; [apply count_le|]. split; [apply count_all|].
  split; [apply count_le|]. split; [apply count_le|done].
Qed.

(** ** The quick actions *)

Lemma grown_length (st st' : Chat.State) :
  grown st st' →
  (length (Chat.chatMessages st) ≤ length (Chat.chatMessages st'))%nat.
Proof.
  intros H%prefix_length. unfold skeleton in H. by rewrite !length_fmap in H.
Qed.

(** X24. The quick actions are offered while the greeting is the only
    message, and an accepted send removes them for good: whatever follows,
    in any order of user actions and network events, the chat never has
    exactly one message again. *)
Theorem quick_actions_leave_with_the_first_send
    (JSON_parse : string → option Js.value) (number_to_string : spec_float → string)
    (now : Z) (evs : list Loop.Event) (m : Loop.Machine)
    (Hmessages : Chat.chatMessages (Loop.ui m) ≠ [])
    (Henabled : Panel.sendDisabled (Loop.ui m) = false) :
  let sent := Loop.step JSON_parse number_to_string (Loop.SendPressed now) m in
  Panel.quickActionsShown (Loop.ui (Loop.exec JSON_parse number_to_string evs sent))
  = false
  ∧ Panel.quickActionsShown (Chat.initial now) = true.
Proof.
  intros sent. split; [|done].
  pose proof (exec_grown JSON_parse number_to_string evs sent) as Hgrown.
  apply grown_length in Hgrown.
  assert (Hsent : (2 ≤ length (Chat.chatMessages (Loop.ui sent)))%nat).
  { subst sent. simpl. rewrite sendDisabled_send_refused in Henabled.
    unfold Chat.send_begin. rewrite Henabled. simpl. rewrite length_app. simpl.
    destruct (Chat.chatMessages (Loop.ui m)); [done|simpl; lia]. }
  unfold Panel.quickActionsShown. apply Nat.eqb_neq. lia.
Qed.

(** The theorem on the first question of a conversation and its reply. *)
Lemma quick_actions_leave_with_the_first_send_witness :
  let m := Loop.boot (Chat.setUserInput "List all vehicles" (Chat.initial 0)) in
  Panel.quickActionsShown (Loop.ui m) = true
  ∧ Panel.quickActionsShown
      (Loop.ui (Loop.exec wire_parse wire_number
                  [Loop.FetchSettled 0 2 (Loop.Status true true);
                   Loop.ChunkRead 0 "T:Three vehicles."; Loop.StreamEnded 0]
                  (Loop.step wire_parse wire_number (Loop.SendPressed 1) m)))
    = false.
Proof.
  intros m. split; [reflexivity|].
  refine (proj1 (quick_actions_leave_with_the_first_send wire_parse wire_number 1
                   [Loop.FetchSettled 0 2 (Loop.Status true true);
                    Loop.ChunkRead 0 "T:Three vehicles."; Loop.StreamEnded 0]
                   m _ eq_refl)).
  discriminate.
Defined.
